(** * watchdog-proxy: the queue poller ([functions/pollQueue.js])

    A shallow embedding of the poller Lambda: the execution mutex kept in
    the DynamoDB config table, the sliding-window rate limiter
    ([rateHits]), the time-budgeted poll loop, the fan-out of received
    messages to the worker function and the throttled heartbeat.

    JavaScript numbers that occur here are millisecond timestamps,
    millisecond budgets and small counts; they are integers far below
    2^53, so they are modelled as [Z] and [Math.floor (x / 1000)] is
    [x / 1000] ([Z.div] rounds towards minus infinity, as [Math.floor]
    does). *)

From Stdlib Require Import ZArith List String Bool Lia PeanoNat.
From Stdlib Require Import Sorted.
Import ListNotations.
Local Open Scope Z_scope.

(** ** Configuration *)

(** [require("../lib/constants")]: the module is not part of the sources
    at hand, so its values are parameters of the development. *)
Record Constants := {
  POLL_DELAY : Z;
  MAX_LONG_POLL_PERIOD : Z;
  RATE_PERIOD : Z;
  RATE_LIMIT : Z;
  EXECUTION_MUTEX_KEY : string;
  EXECUTION_MUTEX_TTL : Z;
  MIN_HEARTBEAT_PERIOD : Z
}.

(** The fields of [process.env] the poller reads. *)
Record ProcessEnv := {
  CONFIG_TABLE : string;
  QUEUE_NAME : string;
  PROCESS_QUEUE_FUNCTION : string
}.

(** ** The DynamoDB config table

    [DBD.put] with a [ConditionExpression] and [DBD.delete], for a table
    whose partition key is the attribute [key].  The table is kept as the
    list of its items; [put] replaces the item that has the same key.
    A comparison on an attribute of an item that does not exist follows
    DynamoDB: [<>] holds, [=] and [<] do not. *)
Module DynamoDB.

Record Item := { key : string; value : Z }.

Definition Table := list Item.

Inductive Condition :=
| KeyNe (k : string)                (* #key <> :key *)
| KeyEq (k : string)                (* #key = :key *)
| ValueLt (v : Z)                   (* #value < :value *)
| CondOr (c1 c2 : Condition)
| CondAnd (c1 c2 : Condition).

Fixpoint holds (c : Condition) (existing : option Item) : bool :=
  match c with
  | KeyNe k =>
      match existing with
      | Some it => negb (String.eqb (key it) k)
      | None => true
      end
  | KeyEq k =>
      match existing with
      | Some it => String.eqb (key it) k
      | None => false
      end
  | ValueLt v =>
      match existing with
      | Some it => value it <? v
      | None => false
      end
  | CondOr c1 c2 => holds c1 existing || holds c2 existing
  | CondAnd c1 c2 => holds c1 existing && holds c2 existing
  end.

Definition has_key (k : string) (it : Item) : bool := String.eqb (key it) k.

Definition get (tbl : Table) (k : string) : option Item :=
  find (has_key k) tbl.

Definition remove (tbl : Table) (k : string) : Table :=
  filter (fun it => negb (has_key k it)) tbl.

(** [None] is the ConditionalCheckFailedException. *)
Definition put (tbl : Table) (it : Item) (c : Condition) : option Table :=
  if holds c (get tbl (key it)) then Some (it :: remove tbl (key it))
  else None.

Definition delete (tbl : Table) (k : string) : Table := remove tbl k.

(** The records stored under [k], and those of them still valid at
    [now] (the stored value is an expiry time). *)
Definition records (tbl : Table) (k : string) : list Item :=
  filter (has_key k) tbl.

Definition valid_records (tbl : Table) (k : string) (now : Z) : list Item :=
  filter (fun it => now <=? value it) (records tbl k).

(** A table holds one item per partition key. *)
Definition wf (tbl : Table) : Prop := NoDup (map key tbl).

End DynamoDB.

(** ** Messages, requests and the world *)

Record Message := {
  MessageId : string;
  ReceiptHandle : string;
  Body : string
}.

(** The three attributes read off the [getQueueAttributes] response; a
    missing one is [undefined]. *)
Record QueueAttributes := {
  ApproximateNumberOfMessages : option string;
  ApproximateNumberOfMessagesDelayed : option string;
  ApproximateNumberOfMessagesNotVisible : option string
}.

Record Heartbeat := {
  poller_id : string;
  items_in_queue : option string;
  items_in_progress : option string;
  items_in_waiting : option string
}.

(** What the poller asks of the outside. *)
Inductive Request :=
| DbdPut (TableName : string) (it : DynamoDB.Item) (c : DynamoDB.Condition)
| DbdDelete (TableName : string) (k : string)
| SqsGetQueueUrl (QueueName : string)
| SqsReceiveMessage (QueueUrl : string) (WaitTimeSeconds MaxNumberOfMessages : Z)
| SqsGetQueueAttributes (QueueUrl : string)
| LambdaInvoke (FunctionName : string) (Payload : Message)
| MetricsPollerHeartbeat (hb : Heartbeat)
| SetTimeout (delay : Z).

(** A request together with whether its promise resolved. *)
Record Event := { call : Request; resolved : bool }.

Inductive Error :=
| ConditionalCheckFailed
| ServiceError
| SyntaxError.

Inductive Result (A : Type) :=
| Resolved (a : A)
| Rejected (e : Error).
Arguments Resolved {A} a.
Arguments Rejected {A} e.

(** The outside world as the poller meets it: what the n-th reading of
    the clock and of the remaining time returns, and how the n-th request
    of the invocation is answered. *)
Record Env := {
  Date_now_at : nat -> Z;
  remaining_at : nat -> Z;
  (* JSON.parse(body).requestId: None when it throws *)
  parse_requestId : string -> option (option string);
  dynamodb_down_at : nat -> bool;
  getQueueUrl_at : nat -> string -> option string;
  receiveMessage_at : nat -> Z -> Z -> option (option (list Message));
  getQueueAttributes_at : nat -> option QueueAttributes;
  invoke_at : nat -> Message -> bool;
  pollerHeartbeat_at : nat -> bool
}.

(** The module-level variables [rateHits] and [lastHeartbeat], the
    handler's counter [polls], the config table, the positions in the
    three series of [Env], and the requests made so far.  [hitHistory] is
    a ghost field: every timestamp ever pushed on [rateHits], never
    pruned and never read by the program. *)
Record World := {
  rateHits : list Z;
  lastHeartbeat : option Z;
  polls : nat;
  table : DynamoDB.Table;
  clock_reads : nat;
  budget_reads : nat;
  requests : nat;
  log : list Event;
  hitHistory : list Z
}.

Definition set_rateHits (f : list Z -> list Z) (w : World) : World :=
  {| rateHits := f (rateHits w); lastHeartbeat := lastHeartbeat w;
     polls := polls w; table := table w; clock_reads := clock_reads w;
     budget_reads := budget_reads w; requests := requests w; log := log w;
     hitHistory := hitHistory w |}.

Definition set_lastHeartbeat (v : option Z) (w : World) : World :=
  {| rateHits := rateHits w; lastHeartbeat := v;
     polls := polls w; table := table w; clock_reads := clock_reads w;
     budget_reads := budget_reads w; requests := requests w; log := log w;
     hitHistory := hitHistory w |}.

Definition set_polls (n : nat) (w : World) : World :=
  {| rateHits := rateHits w; lastHeartbeat := lastHeartbeat w;
     polls := n; table := table w; clock_reads := clock_reads w;
     budget_reads := budget_reads w; requests := requests w; log := log w;
     hitHistory := hitHistory w |}.

Definition set_table (t : DynamoDB.Table) (w : World) : World :=
  {| rateHits := rateHits w; lastHeartbeat := lastHeartbeat w;
     polls := polls w; table := t; clock_reads := clock_reads w;
     budget_reads := budget_reads w; requests := requests w; log := log w;
     hitHistory := hitHistory w |}.

Definition tick_clock (w : World) : World :=
  {| rateHits := rateHits w; lastHeartbeat := lastHeartbeat w;
     polls := polls w; table := table w; clock_reads := S (clock_reads w);
     budget_reads := budget_reads w; requests := requests w; log := log w;
     hitHistory := hitHistory w |}.

Definition tick_budget (w : World) : World :=
  {| rateHits := rateHits w; lastHeartbeat := lastHeartbeat w;
     polls := polls w; table := table w; clock_reads := clock_reads w;
     budget_reads := S (budget_reads w); requests := requests w; log := log w;
     hitHistory := hitHistory w |}.

(** Log a request and move to the next answer of the environment. *)
Definition record (c : Request) (ok : bool) (w : World) : World :=
  {| rateHits := rateHits w; lastHeartbeat := lastHeartbeat w;
     polls := polls w; table := table w; clock_reads := clock_reads w;
     budget_reads := budget_reads w; requests := S (requests w);
     log := log w ++ [{| call := c; resolved := ok |}];
     hitHistory := hitHistory w |}.

Definition note_hit (t : Z) (w : World) : World :=
  {| rateHits := rateHits w; lastHeartbeat := lastHeartbeat w;
     polls := polls w; table := table w; clock_reads := clock_reads w;
     budget_reads := budget_reads w; requests := requests w; log := log w;
     hitHistory := hitHistory w ++ [t] |}.

(** The world a fresh invocation starts in, over a given config table. *)
Definition initial_world (tbl : DynamoDB.Table) : World :=
  {| rateHits := []; lastHeartbeat := None; polls := 0%nat; table := tbl;
     clock_reads := 0%nat; budget_reads := 0%nat; requests := 0%nat;
     log := []; hitHistory := [] |}.

(** ** Promises: state passing with rejection

    A rejected promise keeps the effects made before the rejection. *)
Definition Async (A : Type) : Type := World -> Result A * World.

Definition ret {A} (a : A) : Async A := fun w => (Resolved a, w).

Definition bind {A B} (m : Async A) (f : A -> Async B) : Async B :=
  fun w =>
    match m w with
    | (Resolved a, w') => f a w'
    | (Rejected e, w') => (Rejected e, w')
    end.

Declare Scope async_scope.
Delimit Scope async_scope with async.
Notation "x <- m ;; k" := (bind m (fun x => k))
  (at level 61, m at next level, right associativity) : async_scope.
Notation "m ;; k" := (bind m (fun _ => k))
  (at level 61, right associativity) : async_scope.
Local Open Scope async_scope.

Definition update (f : World -> World) : Async unit :=
  fun w => (Resolved tt, f w).

Definition read {A} (f : World -> A) : Async A :=
  fun w => (Resolved (f w), w).

(** [Promise.all(items.map(f))]: the synchronous part of every [f item]
    runs, in order, whatever becomes of the others; the result rejects
    when one of them rejects.  The rejection reason is only ever logged
    by the caller; the first in list order is kept. *)
Fixpoint Promise_all_map {A} (f : A -> Async unit) (items : list A) : Async unit :=
  match items with
  | [] => ret tt
  | x :: rest =>
      fun w =>
        let (r1, w1) := f x w in
        let (r2, w2) := Promise_all_map f rest w1 in
        (match r1, r2 with
         | Resolved _, Resolved _ => Resolved tt
         | Rejected e, _ => Rejected e
         | Resolved _, Rejected e => Rejected e
         end, w2)
  end.

(** ** The poller *)

Section Poller.

Variable E : Env.
Variable env : ProcessEnv.
Variable constants : Constants.
(* context.awsRequestId *)
Variable awsRequestId : string.

(** *** Primitives *)

Definition Date_now : Async Z :=
  fun w => (Resolved (Date_now_at E (clock_reads w)), tick_clock w).

(* context.getRemainingTimeInMillis(), which does not throw *)
Definition read_remaining (w : World) : Z * World :=
  (remaining_at E (budget_reads w), tick_budget w).

Definition getRemainingTimeInMillis : Async Z :=
  fun w => let (ms, w') := read_remaining w in (Resolved ms, w').

Definition JSON_parse_requestId (body : string) : Async (option string) :=
  fun w =>
    match parse_requestId E body with
    | Some id => (Resolved id, w)
    | None => (Rejected SyntaxError, w)
    end.

Definition DBD_put (TableName : string) (it : DynamoDB.Item)
    (c : DynamoDB.Condition) : Async unit :=
  fun w =>
    if dynamodb_down_at E (requests w) then
      (Rejected ServiceError, record (DbdPut TableName it c) false w)
    else
      match DynamoDB.put (table w) it c with
      | Some t' =>
          (Resolved tt, record (DbdPut TableName it c) true (set_table t' w))
      | None =>
          (Rejected ConditionalCheckFailed,
           record (DbdPut TableName it c) false w)
      end.

Definition DBD_delete (TableName : string) (k : string) : Async unit :=
  fun w =>
    if dynamodb_down_at E (requests w) then
      (Rejected ServiceError, record (DbdDelete TableName k) false w)
    else
      (Resolved tt,
       record (DbdDelete TableName k) true
         (set_table (DynamoDB.delete (table w) k) w)).

Definition SQS_getQueueUrl (QueueName : string) : Async string :=
  fun w =>
    match getQueueUrl_at E (requests w) QueueName with
    | Some url => (Resolved url, record (SqsGetQueueUrl QueueName) true w)
    | None => (Rejected ServiceError, record (SqsGetQueueUrl QueueName) false w)
    end.

(* resolves to the Messages field of the response, which may be absent *)
Definition SQS_receiveMessage (QueueUrl : string)
    (WaitTimeSeconds MaxNumberOfMessages : Z) : Async (option (list Message)) :=
  fun w =>
    let c := SqsReceiveMessage QueueUrl WaitTimeSeconds MaxNumberOfMessages in
    match receiveMessage_at E (requests w) WaitTimeSeconds MaxNumberOfMessages with
    | Some r => (Resolved r, record c true w)
    | None => (Rejected ServiceError, record c false w)
    end.

Definition SQS_getQueueAttributes (QueueUrl : string) : Async QueueAttributes :=
  fun w =>
    match getQueueAttributes_at E (requests w) with
    | Some a => (Resolved a, record (SqsGetQueueAttributes QueueUrl) true w)
    | None =>
        (Rejected ServiceError, record (SqsGetQueueAttributes QueueUrl) false w)
    end.

Definition Lambda_invoke (FunctionName : string) (Payload : Message) : Async unit :=
  fun w =>
    if invoke_at E (requests w) Payload then
      (Resolved tt, record (LambdaInvoke FunctionName Payload) true w)
    else
      (Rejected ServiceError, record (LambdaInvoke FunctionName Payload) false w).

Definition Metrics_pollerHeartbeat (hb : Heartbeat) : Async unit :=
  fun w =>
    if pollerHeartbeat_at E (requests w) then
      (Resolved tt, record (MetricsPollerHeartbeat hb) true w)
    else
      (Rejected ServiceError, record (MetricsPollerHeartbeat hb) false w).

(* new Promise(resolve => setTimeout(resolve, delay)) *)
Definition wait (delay : Z) : Async unit :=
  fun w => (Resolved tt, record (SetTimeout delay) true w).

(** *** The execution mutex *)

Definition mutex_item (now : Z) : DynamoDB.Item :=
  {| DynamoDB.key := EXECUTION_MUTEX_KEY constants;
     DynamoDB.value := now + EXECUTION_MUTEX_TTL constants |}.

(* "#key <> :key OR (#key = :key AND #value < :value)" *)
Definition mutex_condition (now : Z) : DynamoDB.Condition :=
  DynamoDB.CondOr
    (DynamoDB.KeyNe (EXECUTION_MUTEX_KEY constants))
    (DynamoDB.CondAnd
       (DynamoDB.KeyEq (EXECUTION_MUTEX_KEY constants))
       (DynamoDB.ValueLt now)).

(** The item is built before the attribute values, so the clock is read
    twice, first for the expiry and then for the comparison. *)
Definition acquireExecutionLock : Async unit :=
  now1 <- Date_now ;;
  now2 <- Date_now ;;
  DBD_put (CONFIG_TABLE env) (mutex_item now1) (mutex_condition now2).

Definition releaseExecutionLock : Async unit :=
  DBD_delete (CONFIG_TABLE env) (EXECUTION_MUTEX_KEY constants).

(** *** Heartbeat *)

Definition heartbeat_of (attrs : QueueAttributes) : Heartbeat :=
  {| poller_id := awsRequestId;
     items_in_queue := ApproximateNumberOfMessages attrs;
     items_in_progress := ApproximateNumberOfMessagesNotVisible attrs;
     items_in_waiting := ApproximateNumberOfMessagesDelayed attrs |}.

Definition sendHeartbeatMetrics : Async unit :=
  now <- Date_now ;;
  update (set_lastHeartbeat (Some now)) ;;
  QueueUrl <- SQS_getQueueUrl (QUEUE_NAME env) ;;
  attrs <- SQS_getQueueAttributes QueueUrl ;;
  Metrics_pollerHeartbeat (heartbeat_of attrs).

(** [lastHeartbeat !== false && Date.now() - lastHeartbeat < ...]: the
    clock is read only when a heartbeat was sent before, and once more
    for the log line of the skipping branch. *)
Definition maybeSendHeartbeatMetrics : Async unit :=
  last <- read lastHeartbeat ;;
  match last with
  | Some l =>
      now <- Date_now ;;
      if now - l <? MIN_HEARTBEAT_PERIOD constants then
        _ <- Date_now ;; ret tt
      else sendHeartbeatMetrics
  | None => sendHeartbeatMetrics
  end.

(** *** One poll *)

Definition push_rateHit (t : Z) : Async unit :=
  update (fun w => note_hit t (set_rateHits (fun hits => hits ++ [t]) w)).

(* the body of messages.map(async message => ...) *)
Definition invoke_worker (message : Message) : Async unit :=
  _ <- JSON_parse_requestId (Body message) ;;
  now <- Date_now ;;
  push_rateHit now ;;
  Lambda_invoke (PROCESS_QUEUE_FUNCTION env) message.

Definition pollQueue : Async unit :=
  remaining <- getRemainingTimeInMillis ;;
  let WaitTimeSeconds :=
    Z.min (MAX_LONG_POLL_PERIOD constants) (remaining / 1000) in
  if WaitTimeSeconds <=? 0 then ret tt
  else
    now <- Date_now ;;
    let rateWindowStart := now - RATE_PERIOD constants in
    update (set_rateHits (filter (fun item => rateWindowStart <? item))) ;;
    hits <- read rateHits ;;
    let MaxNumberOfMessages :=
      RATE_LIMIT constants - Z.of_nat (List.length hits) in
    if MaxNumberOfMessages <=? 0 then ret tt
    else
      QueueUrl <- SQS_getQueueUrl (QUEUE_NAME env) ;;
      receiveResult <-
        SQS_receiveMessage QueueUrl WaitTimeSeconds MaxNumberOfMessages ;;
      let messages :=
        match receiveResult with Some ms => ms | None => [] end in
      if (0 <? List.length messages)%nat then Promise_all_map invoke_worker messages
      else ret tt.

(** *** The handler *)

Inductive LoopExit :=
| ConditionFalse        (* the while condition failed *)
| ReturnedFromCatch     (* pollQueue threw: [return] in the catch *)
| OutOfFuel.

(** The while loop; [fuel] bounds the number of iterations the model
    follows.  Each iteration reads the remaining time three times: in
    the loop condition, in [pollQueue], and for the "Remaining" log
    line. *)
Fixpoint poller_loop (fuel : nat) (w : World) : LoopExit * World :=
  let (ms, w1) := read_remaining w in
  if 1 <=? ms / 1000 then
    match fuel with
    | O => (OutOfFuel, w1)
    | S fuel' =>
        let w2 := set_polls (S (polls w1)) w1 in
        match pollQueue w2 with
        | (Rejected _, w3) => (ReturnedFromCatch, w3)
        | (Resolved _, w3) =>
            let (_, w4) := maybeSendHeartbeatMetrics w3 in
            let (_, w5) := wait (POLL_DELAY constants) w4 in
            let (_, w6) := read_remaining w5 in
            poller_loop fuel' w6
        end
    end
  else (ConditionFalse, w1).

(** The world in which the next loop check happens, after a poll that
    returned in [w3]: heartbeat, pause, and the reading for the log. *)
Definition after_poll (w3 : World) : World :=
  tick_budget
    (snd (wait (POLL_DELAY constants) (snd (maybeSendHeartbeatMetrics w3)))).

(** Which way the handler returned; it returns [undefined] on all. *)
Inductive HandlerExit :=
| MutexNotAcquired
| PollQueueFailed
| MutexNotReleased
| Completed
| Unfinished.

Definition handler (fuel : nat) (w0 : World) : HandlerExit * World :=
  let w := set_lastHeartbeat None (set_rateHits (fun _ => []) w0) in
  match acquireExecutionLock w with
  | (Rejected _, w) => (MutexNotAcquired, w)
  | (Resolved _, w) =>
      let (_, w) := sendHeartbeatMetrics w in
      let w := set_polls 0 w in
      match poller_loop fuel w with
      | (ReturnedFromCatch, w) => (PollQueueFailed, w)
      | (OutOfFuel, w) => (Unfinished, w)
      | (ConditionFalse, w) =>
          match releaseExecutionLock w with
          | (Rejected _, w) => (MutexNotReleased, w)
          | (Resolved _, w) =>
              let (_, w) := sendHeartbeatMetrics w in
              (Completed, w)
          end
      end
  end.

End Poller.

(** ** The lock store as seen by all instances

    The config table is shared by every invocation of the poller.  A
    state of the lock store is the table together with the current time;
    it changes when some instance (in its own world, over the shared
    table) runs [acquireExecutionLock] or [releaseExecutionLock], and
    when time passes. *)

Record LockState := { store : DynamoDB.Table; time : Z }.

Inductive lock_step (constants : Constants) : LockState -> LockState -> Prop :=
| step_acquire (s : LockState) (E : Env) (env : ProcessEnv) (w w' : World)
    (r : Result unit) :
    table w = store s ->
    acquireExecutionLock E env constants w = (r, w') ->
    lock_step constants s {| store := table w'; time := time s |}
| step_release (s : LockState) (E : Env) (env : ProcessEnv) (w w' : World)
    (r : Result unit) :
    table w = store s ->
    releaseExecutionLock E env constants w = (r, w') ->
    lock_step constants s {| store := table w'; time := time s |}
| step_expiry (s : LockState) (later : Z) :
    time s <= later ->
    lock_step constants s {| store := store s; time := later |}.

Inductive reachable (constants : Constants) : LockState -> Prop :=
| reach_init (tbl : DynamoDB.Table) (now : Z) :
    DynamoDB.wf tbl -> reachable constants {| store := tbl; time := now |}
| reach_step (s s' : LockState) :
    reachable constants s -> lock_step constants s s' ->
    reachable constants s'.

(** No record under [k], or one whose expiry lies strictly before [now]. *)
Definition lock_free (tbl : DynamoDB.Table) (k : string) (now : Z) : Prop :=
  match DynamoDB.get tbl k with
  | None => True
  | Some it => DynamoDB.value it < now
  end.

(** ** Reading the log *)

Definition new_events (w w' : World) : list Event :=
  skipn (List.length (log w)) (log w').

Definition invocation_of (e : Event) : option Message :=
  match call e with
  | LambdaInvoke _ m => Some m
  | _ => None
  end.

(** The payloads of the invocation requests issued, in order. *)
Fixpoint invocations (l : list Event) : list Message :=
  match l with
  | [] => []
  | e :: l' =>
      match invocation_of e with
      | Some m => m :: invocations l'
      | None => invocations l'
      end
  end.

Definition is_receive (e : Event) : bool :=
  match call e with
  | SqsReceiveMessage _ _ _ => true
  | _ => false
  end.

(** A heartbeat counts as published when the metrics call resolved. *)
Definition is_publish (e : Event) : bool :=
  match call e with
  | MetricsPollerHeartbeat _ => resolved e
  | _ => false
  end.

Definition publishes (l : list Event) : nat := List.length (filter is_publish l).

(** The hits of [history] inside the window of width [period] that ends
    at [t]: those with [t - period < hit <= t]. *)
Definition hits_within (period t : Z) (history : list Z) : list Z :=
  filter (fun hit => (t - period <? hit) && (hit <=? t)) history.

(** ** Assumptions on the environment *)

Definition clock_monotone (E : Env) : Prop :=
  forall i j : nat, (i <= j)%nat -> Date_now_at E i <= Date_now_at E j.

(** SQS, asked for at most [MaxNumberOfMessages] messages (at least
    one), returns no more than that. *)
Definition queue_honours_max (E : Env) : Prop :=
  forall n wt mx ms,
    1 <= mx ->
    receiveMessage_at E n wt mx = Some (Some ms) ->
    Z.of_nat (List.length ms) <= mx.

Definition budget_non_increasing (E : Env) : Prop :=
  forall i j : nat, (i <= j)%nat -> remaining_at E j <= remaining_at E i.

Definition budget_strictly_decreasing (E : Env) : Prop :=
  forall i : nat, remaining_at E (S i) < remaining_at E i.

(** Every body of the batch deserializes (and is not [null]). *)
Definition bodies_deserialize (E : Env) (ms : list Message) : Prop :=
  Forall (fun m => parse_requestId E (Body m) <> None) ms.

(** ** A concrete environment, for examples *)

Module Sample.

Local Open Scope string_scope.

Definition constants : Constants :=
  {| POLL_DELAY := 100; MAX_LONG_POLL_PERIOD := 20; RATE_PERIOD := 1000;
     RATE_LIMIT := 5; EXECUTION_MUTEX_KEY := "pollQueueExecutionExpires";
     EXECUTION_MUTEX_TTL := 50000; MIN_HEARTBEAT_PERIOD := 1000 |}.

Definition env : ProcessEnv :=
  {| CONFIG_TABLE := "config"; QUEUE_NAME := "queue";
     PROCESS_QUEUE_FUNCTION := "processQueueItem" |}.

Definition message (id : string) : Message :=
  {| MessageId := id; ReceiptHandle := id; Body := "{}" |}.

Definition attributes : QueueAttributes :=
  {| ApproximateNumberOfMessages := Some "0";
     ApproximateNumberOfMessagesDelayed := Some "0";
     ApproximateNumberOfMessagesNotVisible := Some "0" |}.

(** Every service answers; the clock advances 10 ms per reading and the
    budget shrinks by 400 ms per reading, from [budget]; every receive
    returns [batch], cut to the number asked for. *)
Definition healthy (budget : Z) (batch : list Message) : Env :=
  {| Date_now_at := fun n => 10 * Z.of_nat n;
     remaining_at := fun n => budget - 400 * Z.of_nat n;
     parse_requestId := fun _ => Some None;
     dynamodb_down_at := fun _ => false;
     getQueueUrl_at := fun _ name => Some name;
     receiveMessage_at := fun _ _ mx => Some (Some (firstn (Z.to_nat mx) batch));
     getQueueAttributes_at := fun _ => Some attributes;
     invoke_at := fun _ _ => true;
     pollerHeartbeat_at := fun _ => true |}.

(** As [healthy], but [receiveMessage] fails. *)
Definition receive_fails (budget : Z) : Env :=
  {| Date_now_at := fun n => 10 * Z.of_nat n;
     remaining_at := fun n => budget - 400 * Z.of_nat n;
     parse_requestId := fun _ => Some None;
     dynamodb_down_at := fun _ => false;
     getQueueUrl_at := fun _ name => Some name;
     receiveMessage_at := fun _ _ _ => None;
     getQueueAttributes_at := fun _ => Some attributes;
     invoke_at := fun _ _ => true;
     pollerHeartbeat_at := fun _ => true |}.

(** As [healthy], but the invocation of the message with id [bad] is
    refused. *)
Definition invoke_fails (budget : Z) (batch : list Message) (bad : string) : Env :=
  {| Date_now_at := fun n => 10 * Z.of_nat n;
     remaining_at := fun n => budget - 400 * Z.of_nat n;
     parse_requestId := fun _ => Some None;
     dynamodb_down_at := fun _ => false;
     getQueueUrl_at := fun _ name => Some name;
     receiveMessage_at := fun _ _ mx => Some (Some (firstn (Z.to_nat mx) batch));
     getQueueAttributes_at := fun _ => Some attributes;
     invoke_at := fun _ m => negb (String.eqb (MessageId m) bad);
     pollerHeartbeat_at := fun _ => true |}.

(** As [healthy], but the queue cannot be found, so that heartbeats
    fail at their first request. *)
Definition queue_lookup_fails (budget : Z) : Env :=
  {| Date_now_at := fun n => 10 * Z.of_nat n;
     remaining_at := fun n => budget - 400 * Z.of_nat n;
     parse_requestId := fun _ => Some None;
     dynamodb_down_at := fun _ => false;
     getQueueUrl_at := fun _ _ => None;
     receiveMessage_at := fun _ _ _ => Some None;
     getQueueAttributes_at := fun _ => Some attributes;
     invoke_at := fun _ _ => true;
     pollerHeartbeat_at := fun _ => true |}.

(** As [healthy] with an empty queue, but the long poll that is started
    with 1499 ms left returns only after the budget is used up. *)
Definition budget_runs_out : Env :=
  {| Date_now_at := fun n => 10 * Z.of_nat n;
     remaining_at := fun n =>
       match n with
       | O => 1500
       | S O => 1499
       | _ => - 98 - Z.of_nat n
       end;
     parse_requestId := fun _ => Some None;
     dynamodb_down_at := fun _ => false;
     getQueueUrl_at := fun _ name => Some name;
     receiveMessage_at := fun _ _ _ => Some None;
     getQueueAttributes_at := fun _ => Some attributes;
     invoke_at := fun _ _ => true;
     pollerHeartbeat_at := fun _ => true |}.

End Sample.

(** The queue and the metrics sink answer every request. *)
Definition heartbeat_services_up (E : Env) : Prop :=
  (forall n name, getQueueUrl_at E n name <> None)
  /\ (forall n, getQueueAttributes_at E n <> None)
  /\ (forall n, pollerHeartbeat_at E n = true).

(** ** Summaries of effects *)

(** What a batch of worker invocations adds to a world: the timestamps
    [pushed] on [rateHits], read off the clock one after the other, and
    the requests [evs]. *)
Record dispatched (E : Env) (w w' : World) (pushed : list Z) (evs : list Event)
  : Prop := {
  disp_rateHits : rateHits w' = rateHits w ++ pushed;
  disp_history : hitHistory w' = hitHistory w ++ pushed;
  disp_log : log w' = log w ++ evs;
  disp_pushed :
    pushed = map (Date_now_at E) (seq (clock_reads w) (List.length pushed));
  disp_clock : clock_reads w' = (clock_reads w + List.length pushed)%nat;
  disp_requests : requests w' = (requests w + List.length evs)%nat;
  disp_budget : budget_reads w' = budget_reads w;
  disp_lastHeartbeat : lastHeartbeat w' = lastHeartbeat w;
  disp_polls : polls w' = polls w;
  disp_table : table w' = table w
}.

(** The messages of a batch whose body deserializes. *)
Definition deserializable (E : Env) (ms : list Message) : list Message :=
  filter (fun m => match parse_requestId E (Body m) with
                   | Some _ => true
                   | None => false
                   end) ms.

(** The events a poll may add to the log: no access to the config table,
    and a receive only with a positive wait and a positive maximum. *)
Definition poll_event (e : Event) : bool :=
  match call e with
  | DbdPut _ _ _ | DbdDelete _ _ => false
  | SqsReceiveMessage _ wt mx => (1 <=? wt) && (1 <=? mx)
  | _ => true
  end.

(** The events of the heartbeat and of the pause. *)
Definition quiet_event (e : Event) : bool :=
  match call e with
  | SqsGetQueueUrl _ | SqsGetQueueAttributes _ | MetricsPollerHeartbeat _
  | SetTimeout _ => true
  | _ => false
  end.

(** A receive in the log was asked with a positive wait and maximum. *)
Definition receive_ok (e : Event) : bool :=
  match call e with
  | SqsReceiveMessage _ wt mx => (1 <=? wt) && (1 <=? mx)
  | _ => true
  end.

(** An operation that leaves the rate limiter, the position in the
    budget readings, the counter of polls and the table alone. *)
Record bystander (w w' : World) : Prop := {
  by_rateHits : rateHits w' = rateHits w;
  by_history : hitHistory w' = hitHistory w;
  by_budget : budget_reads w' = budget_reads w;
  by_polls : polls w' = polls w;
  by_table : table w' = table w;
  by_clock : (clock_reads w <= clock_reads w')%nat;
  by_log : exists evs, log w' = log w ++ evs /\ forallb quiet_event evs = true
}.

(** What one call of [pollQueue] does outside the rate limiter: one
    reading of the budget, and requests that are [poll_event]s. *)
Record polled (w w' : World) : Prop := {
  poll_budget : budget_reads w' = S (budget_reads w);
  poll_polls : polls w' = polls w;
  poll_table : table w' = table w;
  poll_lastHeartbeat : lastHeartbeat w' = lastHeartbeat w;
  poll_clock : (clock_reads w <= clock_reads w')%nat;
  poll_log : exists evs, log w' = log w ++ evs /\ forallb poll_event evs = true
}.

Definition is_release (e : Event) : bool :=
  match call e with
  | DbdDelete _ _ => true
  | _ => false
  end.

(** The loop left through its condition, at a check that still read a
    positive remaining time. *)
Definition exits_before_budget_is_spent
    (E : Env) (env : ProcessEnv) (constants : Constants) (awsRequestId : string)
    (w : World) : Prop :=
  exists fuel : nat,
    let r := poller_loop E env constants awsRequestId fuel w in
    fst r = ConditionFalse
    /\ 0 < remaining_at E (budget_reads (snd r) - 1).

(** No window of [RATE_PERIOD] milliseconds holds more than [RATE_LIMIT]
    of the hits of [history]. *)
Definition rate_limited (constants : Constants) (history : list Z) : Prop :=
  forall t : Z,
    Z.of_nat (List.length (hits_within (RATE_PERIOD constants) t history))
    <= RATE_LIMIT constants.

(** What the poller maintains about its rate limiter.  [since] is a time
    not after any future reading of the clock; from [since - RATE_PERIOD]
    on, [rateHits] has every hit ever recorded. *)
Definition window_invariant (E : Env) (constants : Constants) (w : World) : Prop :=
  exists since : Z,
    (forall k : nat, (clock_reads w <= k)%nat -> since <= Date_now_at E k)
    /\ (forall x : Z,
          since - RATE_PERIOD constants <= x ->
          filter (fun hit => x <? hit) (hitHistory w)
          = filter (fun hit => x <? hit) (rateHits w))
    /\ Z.of_nat (List.length (rateHits w)) <= RATE_LIMIT constants
    /\ rate_limited constants (hitHistory w).

(** The invariant of a run: the window invariant, and only sound
    receives in the log. *)
Definition run_invariant (E : Env) (constants : Constants) (w : World) : Prop :=
  window_invariant E constants w /\ forallb receive_ok (log w) = true.

(** ** Further readings of the log *)

(** Every request of [evs] was accepted. *)
Definition all_resolved (evs : list Event) : bool := forallb resolved evs.

(** The delays of the pauses requested, in order. *)
Fixpoint pauses (evs : list Event) : list Z :=
  match evs with
  | [] => []
  | e :: evs' =>
      match call e with
      | SetTimeout delay => delay :: pauses evs'
      | _ => pauses evs'
      end
  end.

(** The function names of the invocation requests, in order. *)
Fixpoint invoked_functions (evs : list Event) : list string :=
  match evs with
  | [] => []
  | e :: evs' =>
      match call e with
      | LambdaInvoke fn _ => fn :: invoked_functions evs'
      | _ => invoked_functions evs'
      end
  end.

(** ** More environments, for examples *)

Module Scenario.

Local Open Scope string_scope.

(** As [Sample.healthy] with an empty queue, but the config table is
    reached by the first request of the run only. *)
Definition table_lost (budget : Z) : Env :=
  {| Date_now_at := fun n => 10 * Z.of_nat n;
     remaining_at := fun n => budget - 400 * Z.of_nat n;
     parse_requestId := fun _ => Some None;
     dynamodb_down_at := fun n => negb (Nat.eqb n 0);
     getQueueUrl_at := fun _ name => Some name;
     receiveMessage_at := fun _ _ _ => Some None;
     getQueueAttributes_at := fun _ => Some Sample.attributes;
     invoke_at := fun _ _ => true;
     pollerHeartbeat_at := fun _ => true |}.

(** As [Sample.healthy], but bodies other than ["{}"] do not parse. *)
Definition strict_parse (budget : Z) (batch : list Message) : Env :=
  {| Date_now_at := fun n => 10 * Z.of_nat n;
     remaining_at := fun n => budget - 400 * Z.of_nat n;
     parse_requestId := fun body => if String.eqb body "{}" then Some None else None;
     dynamodb_down_at := fun _ => false;
     getQueueUrl_at := fun _ name => Some name;
     receiveMessage_at := fun _ _ mx => Some (Some (firstn (Z.to_nat mx) batch));
     getQueueAttributes_at := fun _ => Some Sample.attributes;
     invoke_at := fun _ _ => true;
     pollerHeartbeat_at := fun _ => true |}.

Definition garbled (id : string) : Message :=
  {| MessageId := id; ReceiptHandle := id; Body := "not json" |}.

(** As [Sample.healthy], but the depth query and the metrics sink never
    answer: no heartbeat goes through. *)
Definition heartbeat_down (budget : Z) (batch : list Message) : Env :=
  {| Date_now_at := fun n => 10 * Z.of_nat n;
     remaining_at := fun n => budget - 400 * Z.of_nat n;
     parse_requestId := fun _ => Some None;
     dynamodb_down_at := fun _ => false;
     getQueueUrl_at := fun _ name => Some name;
     receiveMessage_at := fun _ _ mx => Some (Some (firstn (Z.to_nat mx) batch));
     getQueueAttributes_at := fun _ => None;
     invoke_at := fun _ _ => true;
     pollerHeartbeat_at := fun _ => false |}.

End Scenario.

(** Hits and invocation requests go together: as many hits were ever
    recorded as invocations were requested, all of them of the worker
    function. *)
Definition hits_accounted (env : ProcessEnv) (w : World) : Prop :=
  List.length (hitHistory w) = List.length (invocations (log w))
  /\ Forall (fun fn => fn = PROCESS_QUEUE_FUNCTION env) (invoked_functions (log w)).

(** The shape of the window: the hits ever recorded are in
    non-decreasing order and not after any future reading of the clock,
    and [rateHits] is the recent end of them. *)
Definition window_shape (E : Env) (w : World) : Prop :=
  StronglySorted Z.le (hitHistory w)
  /\ (forall hit : Z,
        In hit (hitHistory w) ->
        forall k : nat, (clock_reads w <= k)%nat -> hit <= Date_now_at E k)
  /\ exists forgotten : list Z, hitHistory w = forgotten ++ rateHits w.

(** The config table, the queue and the invocation service answer every
    request, and every body deserializes.  Nothing is said of the depth
    query and of the metrics sink, which only the heartbeat uses. *)
Definition poll_services_up (E : Env) : Prop :=
  (forall n, dynamodb_down_at E n = false)
  /\ (forall n name, getQueueUrl_at E n name <> None)
  /\ (forall n wt mx, receiveMessage_at E n wt mx <> None)
  /\ (forall n m, invoke_at E n m = true)
  /\ (forall body, parse_requestId E body <> None).

(** ** The credentials lookup of the accept function

    [lookupCredentials] and its in-memory cache [credentialsCache], from
    the source of the accept function.  [id in object] and [object[id]]
    follow the prototype chain, so that a name such as ["constructor"]
    is "in" every plain object; and an assignment to the name
    ["__proto__"] replaces the prototype instead of adding a property. *)
Module Credentials.

Local Open Scope string_scope.

(** The attributes got from the credentials table; a missing one is
    [undefined]. *)
Record Item := { key : option string; algorithm : option string }.

(** The object [{ id, key, algorithm }] that is cached and returned. *)
Record Credentials := {
  cred_id : string;
  cred_key : option string;
  cred_algorithm : string
}.

(** [credentialsCache]: its own properties, and the object put in the
    place of its prototype, if any. *)
Record Cache := {
  own : list (string * Credentials);
  proto : option Credentials
}.

Definition empty_cache : Cache := {| own := []; proto := None |}.

Definition own_get (c : Cache) (id : string) : option Credentials :=
  match find (fun p => String.eqb (fst p) id) (own c) with
  | Some p => Some (snd p)
  | None => None
  end.

(** [credentialsCache[id] = creds]. *)
Definition assign (c : Cache) (id : string) (creds : Credentials) : Cache :=
  if String.eqb id "__proto__" then {| own := own c; proto := Some creds |}
  else
    {| own := (id, creds)
              :: filter (fun p => negb (String.eqb (fst p) id)) (own c);
       proto := proto c |}.

(** What a lookup returns.  [Inherited name] is the value of a property
    that the object does not own but finds on its prototype chain. *)
Inductive Out (Dev : Type) :=
| FromDev (v : Dev)
| Creds (c : Credentials)
| Inherited (name : string)
| Null.
Arguments FromDev {Dev} v.
Arguments Creds {Dev} c.
Arguments Inherited {Dev} name.
Arguments Null {Dev}.

Section Lookup.

(* the type of the values of DEV_CREDENTIALS *)
Variable Dev : Type.

(** [process.env], the two constants, and the names of the properties
    of [Object.prototype] other than ["__proto__"].  [DEV_CREDENTIALS id]
    is [Some v] when [id in DEV_CREDENTIALS], with [v] the value of
    [DEV_CREDENTIALS[id]]; the object is never assigned to. *)
Record Config := {
  ENABLE_DEV_AUTH : option string;
  DISABLE_AUTH_CACHE : option string;
  CREDENTIALS_TABLE : string;
  DEV_CREDENTIALS : string -> option Dev;
  DEFAULT_HAWK_ALGORITHM : string;
  Object_prototype_has : string -> bool
}.

Variable cfg : Config.

Definition is_1 (v : option string) : bool :=
  match v with
  | Some s => String.eqb s "1"
  | None => false
  end.

(* id in credentialsCache *)
Definition in_cache (c : Cache) (id : string) : bool :=
  match own_get c id with
  | Some _ => true
  | None =>
      String.eqb id "__proto__"
      || match proto c with
         | Some _ =>
             String.eqb id "id" || String.eqb id "key" || String.eqb id "algorithm"
         | None => false
         end
      || Object_prototype_has cfg id
  end.

(* credentialsCache[id], for an id that is in the cache *)
Definition cache_get (c : Cache) (id : string) : Out Dev :=
  match own_get c id with
  | Some creds => Creds creds
  | None =>
      if String.eqb id "__proto__" then
        match proto c with
        | Some creds => Creds creds
        | None => Inherited id
        end
      else Inherited id
  end.

(** The cache, the credentials table as it is at the moment, and the ids
    asked of the table so far; the table answers the n-th request
    unless [table_down n]. *)
Record World := {
  credentialsCache : Cache;
  table : string -> option Item;
  gets : list string
}.

Variable table_down : nat -> bool.

Definition asked (id : string) (w : World) : World :=
  {| credentialsCache := credentialsCache w; table := table w;
     gets := gets w ++ [id] |}.

Definition cached (id : string) (creds : Credentials) (w : World) : World :=
  {| credentialsCache := assign (credentialsCache w) id creds;
     table := table w; gets := gets w |}.

Definition lookupCredentials (id : string) (w : World) : Result (Out Dev) * World :=
  match (if is_1 (ENABLE_DEV_AUTH cfg) then DEV_CREDENTIALS cfg id else None) with
  | Some v => (Resolved (FromDev v), w)
  | None =>
      if negb (is_1 (DISABLE_AUTH_CACHE cfg)) && in_cache (credentialsCache w) id
      then (Resolved (cache_get (credentialsCache w) id), w)
      else if table_down (List.length (gets w))
      then (Rejected ServiceError, asked id w)
      else
        match table w id with
        | None => (Resolved Null, asked id w)
        | Some item =>
            let creds :=
              {| cred_id := id;
                 cred_key := key item;
                 cred_algorithm :=
                   match algorithm item with
                   | Some a => a
                   | None => DEFAULT_HAWK_ALGORITHM cfg
                   end |} in
            (Resolved (Creds creds), cached id creds (asked id w))
        end
  end.

(** One lookup after the other, whatever their results. *)
Fixpoint lookup_all (ids : list string) (w : World) : World :=
  match ids with
  | [] => w
  | id :: rest => lookup_all rest (snd (lookupCredentials id w))
  end.

(** An id that is no property name of a plain object. *)
Definition plain_id (id : string) : Prop :=
  id <> "__proto__" /\ Object_prototype_has cfg id = false
  /\ id <> "id" /\ id <> "key" /\ id <> "algorithm".

End Lookup.

Arguments ENABLE_DEV_AUTH {Dev} c.
Arguments DISABLE_AUTH_CACHE {Dev} c.
Arguments CREDENTIALS_TABLE {Dev} c.
Arguments DEV_CREDENTIALS {Dev} c id.
Arguments DEFAULT_HAWK_ALGORITHM {Dev} c.
Arguments Object_prototype_has {Dev} c id.
Arguments in_cache {Dev} cfg c id.
Arguments lookupCredentials {Dev} cfg table_down id w.
Arguments plain_id {Dev} cfg id.
Arguments lookup_all {Dev} cfg table_down ids w.

(** What can happen between two lookups: the credentials table is
    changed from outside, or some id is looked up, the table answering
    the requests as [down] says. *)
Inductive Step :=
| TableBecomes (t : string -> option Item)
| Lookup (down : nat -> bool) (id : string).

Definition with_table (t : string -> option Item) (w : World) : World :=
  {| credentialsCache := credentialsCache w; table := t; gets := gets w |}.

Fixpoint after_steps {Dev : Type} (cfg : Config Dev) (steps : list Step) (w : World)
  : World :=
  match steps with
  | [] => w
  | TableBecomes t :: rest => after_steps cfg rest (with_table t w)
  | Lookup down id :: rest =>
      after_steps cfg rest (snd (lookupCredentials cfg down id w))
  end.

End Credentials.

Module CredentialsSample.

Local Open Scope string_scope.

(** Development credentials for ["devuser"] only; the cache is on or off
    and development credentials are enabled or not as the arguments say. *)
Definition config (dev_auth cache_off : bool) : Credentials.Config string :=
  {| Credentials.ENABLE_DEV_AUTH := if dev_auth then Some "1" else None;
     Credentials.DISABLE_AUTH_CACHE := if cache_off then Some "1" else Some "0";
     Credentials.CREDENTIALS_TABLE := "credentials";
     Credentials.DEV_CREDENTIALS :=
       fun id => if String.eqb id "devuser" then Some "devkey" else None;
     Credentials.DEFAULT_HAWK_ALGORITHM := "sha256";
     Credentials.Object_prototype_has :=
       fun id => String.eqb id "constructor" || String.eqb id "toString" |}.

(** A table with one item, for ["alice"], without an algorithm. *)
Definition one_item (k : string) : string -> option Credentials.Item :=
  fun id =>
    if String.eqb id "alice"
    then Some {| Credentials.key := Some k; Credentials.algorithm := None |}
    else None.

Definition world (t : string -> option Credentials.Item) : Credentials.World :=
  {| Credentials.credentialsCache := Credentials.empty_cache;
     Credentials.table := t;
     Credentials.gets := [] |}.

Definition up : nat -> bool := fun _ => false.
Definition down : nat -> bool := fun _ => true.

End CredentialsSample.

(** ** The accept function

    [post], [response], [getContentType] and [parseRequestBody], from
    the source of the accept function.  Hawk and Busboy are libraries:
    [Hawk.server.authenticate] and the parsing of the multipart body are
    taken by their outcome.  The calls of the logger and [md5], used
    for logging only, are taken not to throw and are left out. *)
Module Accept.

Local Open Scope string_scope.

(** A file part, as the handler of busboy's "file" event stores it. *)
Record FileUpload := {
  filename : option string;
  contentEncoding : option string;
  contentType : option string;
  data : option string
}.

Inductive BodyValue :=
| Field (value : string)
| File (f : FileUpload).

(** The parsed body: [body name] is [body[name]], [None] for
    [undefined]. *)
Definition Body := string -> option BodyValue.

(* !v *)
Definition falsy (v : option BodyValue) : bool :=
  match v with
  | None => true
  | Some (Field s) => String.eqb s ""
  | Some (File _) => false
  end.

(** The values handed to [JSON.stringify]. *)
#[warnings="-register-all"]
Inductive JSON :=
| JUndefined
| JString (s : string)
| JFile (f : FileUpload)
| JObject (fields : list (string * JSON)).

Definition json_of_body (v : option BodyValue) : JSON :=
  match v with
  | None => JUndefined
  | Some (Field s) => JString s
  | Some (File f) => JFile f
  end.

Definition json_of_string (v : option string) : JSON :=
  match v with
  | None => JUndefined
  | Some s => JString s
  end.

(* a value inside a string concatenation *)
Definition js_string (v : option string) : string :=
  match v with
  | Some s => s
  | None => "undefined"
  end.

(** The API Gateway event: [ev_headers ev name] is [event.headers[name]]. *)
Record ApiEvent := {
  ev_headers : string -> option string;
  ev_path : string;
  ev_requestId : string;
  ev_stage : option string;
  ev_body : string;
  ev_isBase64Encoded : bool
}.

Record EnvVars := {
  UPSTREAM_SERVICE_URL : option string;
  QUEUE_NAME : string;
  CONTENT_BUCKET : string
}.

Inductive Request :=
| RavenCaptureException (message : option string)
| S3PutObject (Bucket Key : string) (ContentType Body : option string)
| SqsGetQueueUrl (QueueName : string)
| SqsSendMessage (QueueUrl MessageBody : string)
| MetricsNewItem (consumer_name watchdog_id : string) (type : option string).

(** The outside: the outcome of the authentication ([artifacts.id], or
    the [message] of what was thrown), the outcome of busboy on a
    content type and an event (the body, or the [message] of the
    rejection, which a rejection with a string does not have),
    [new Date().toISOString()], [JSON.stringify], and the answers of the
    services to the n-th request. *)
Record Outside := {
  authenticate : ApiEvent -> string + option string;
  busboy : option string -> ApiEvent -> Body + option string;
  toISOString_at : nat -> string;
  JSON_stringify : JSON -> string;
  putObject_at : nat -> bool;
  getQueueUrl_at : nat -> string -> option string;
  sendMessage_at : nat -> bool;
  newItem_at : nat -> bool
}.

Record World := {
  requests : nat;
  dates : nat;
  trace : list (Request * bool)
}.

Definition initial : World := {| requests := 0; dates := 0; trace := [] |}.

Definition note (c : Request) (ok : bool) (w : World) : World :=
  {| requests := S (requests w); dates := dates w;
     trace := trace w ++ [(c, ok)] |}.

Definition dated (w : World) : World :=
  {| requests := requests w; dates := S (dates w); trace := trace w |}.

Record Response := {
  statusCode : Z;
  headers : list (string * string);
  body : string
}.

(* target[name] = value *)
Fixpoint set_property (target : list (string * string)) (name value : string)
  : list (string * string) :=
  match target with
  | [] => [(name, value)]
  | (k, v) :: rest =>
      if String.eqb k name then (k, value) :: rest
      else (k, v) :: set_property rest name value
  end.

(* Object.assign(target, source) *)
Definition Object_assign (target source : list (string * string))
  : list (string * string) :=
  fold_left (fun acc kv => set_property acc (fst kv) (snd kv)) source target.


Definition REQUIRED_FIELDS : list string := ["image"; "negative_uri"; "positive_uri"].

Definition quote : string := String (Ascii.ascii_of_nat 34) EmptyString.

(* `Required "${name}" is missing` *)
Definition required_message (name : string) : string :=
  "Required " ++ quote ++ name ++ quote ++ " is missing".

(** The first required field that the body lacks, if any: where the
    [forEach] throws. *)
Definition missing_required (b : Body) : option string :=
  find (fun name => falsy (b name)) REQUIRED_FIELDS.

Definition image_contentType (image : option BodyValue) : option string :=
  match image with
  | Some (File f) => contentType f
  | _ => None
  end.

Definition image_data (image : option BodyValue) : option string :=
  match image with
  | Some (File f) => data f
  | _ => None
  end.

Section Post.

Variable O : Outside.
Variable env : EnvVars.

Definition response (status : Z) (payload : JSON) (extra : list (string * string))
  : Response :=
  {| statusCode := status;
     headers := Object_assign [("Content-Type", "application/json")] extra;
     body := JSON_stringify O payload |}.

Definition getContentType (ev : ApiEvent) : option string :=
  match ev_headers ev "content-type" with
  | Some s => if String.eqb s "" then ev_headers ev "Content-Type" else Some s
  | None => ev_headers ev "Content-Type"
  end.

Definition parseRequestBody (ev : ApiEvent) : Body + option string :=
  busboy O (getContentType ev) ev.

Definition imageKey (ev : ApiEvent) : string := "image-" ++ ev_requestId ev.

Definition upstreamServiceUrl (ev : ApiEvent) : JSON :=
  match UPSTREAM_SERVICE_URL env with
  | Some url =>
      if String.eqb url "__MOCK__" then
        JString ("https://" ++ js_string (ev_headers ev "Host") ++ "/"
                 ++ js_string (ev_stage ev) ++ "/mock/upstream")
      else JString url
  | None => JUndefined
  end.

Definition messageData (ev : ApiEvent) (user : string) (b : Body) (datestamp : string)
  : JSON :=
  JObject
    [("datestamp", JString datestamp);
     ("upstreamServiceUrl", upstreamServiceUrl ev);
     ("id", JString (ev_requestId ev));
     ("user", JString user);
     ("negative_uri", json_of_body (b "negative_uri"));
     ("positive_uri", json_of_body (b "positive_uri"));
     ("positive_email", json_of_body (b "positive_email"));
     ("notes", json_of_body (b "notes"));
     ("image", JString (imageKey ev))].

Definition responseData (ev : ApiEvent) (b : Body) : JSON :=
  JObject
    [("id", JString (ev_requestId ev));
     ("negative_uri", json_of_body (b "negative_uri"));
     ("positive_uri", json_of_body (b "positive_uri"));
     ("positive_email", json_of_body (b "positive_email"))].

(** The part of [post] after the two try blocks: store, enqueue, count.
    A request that is refused rejects the whole. *)
Definition store_and_enqueue (ev : ApiEvent) (user : string) (b : Body) (w : World)
  : Result Response * World :=
  let MessageBody :=
    JSON_stringify O (messageData ev user b (toISOString_at O (dates w))) in
  let w := dated w in
  let image := b "image" in
  let put1 :=
    S3PutObject (CONTENT_BUCKET env) (imageKey ev) (image_contentType image)
      (image_data image) in
  if negb (putObject_at O (requests w)) then
    (Rejected ServiceError, note put1 false w)
  else
    let w := note put1 true w in
    let put2 :=
      S3PutObject (CONTENT_BUCKET env) (imageKey ev ++ "-request.json")
        (Some "application/json") (Some MessageBody) in
    if negb (putObject_at O (requests w)) then
      (Rejected ServiceError, note put2 false w)
    else
      let w := note put2 true w in
      match getQueueUrl_at O (requests w) (QUEUE_NAME env) with
      | None => (Rejected ServiceError, note (SqsGetQueueUrl (QUEUE_NAME env)) false w)
      | Some QueueUrl =>
          let w := note (SqsGetQueueUrl (QUEUE_NAME env)) true w in
          let send := SqsSendMessage QueueUrl MessageBody in
          if negb (sendMessage_at O (requests w)) then
            (Rejected ServiceError, note send false w)
          else
            let w := note send true w in
            let count :=
              MetricsNewItem user (ev_requestId ev) (image_contentType image) in
            if negb (newItem_at O (requests w)) then
              (Rejected ServiceError, note count false w)
            else
              (Resolved (response 201 (responseData ev b) []),
               note count true w)
      end.

Definition post (ev : ApiEvent) (w : World) : Result Response * World :=
  match authenticate O ev with
  | inr message =>
      (Resolved
         (response 401 (JObject [("error", json_of_string message)])
            [("WWW-Authenticate", "Hawk")]),
       note (RavenCaptureException message) true w)
  | inl user =>
      let invalid (message : option string) :=
        (Resolved (response 400 (JObject [("error", json_of_string message)]) []),
         note (RavenCaptureException message) true w) in
      match parseRequestBody ev with
      | inr message => invalid message
      | inl b =>
          match missing_required b with
          | Some name => invalid (Some (required_message name))
          | None => store_and_enqueue ev user b w
          end
      end
  end.

End Post.

(** The requests of a trace other than the reports to Sentry. *)
Definition service_requests (t : list (Request * bool)) : list (Request * bool) :=
  filter (fun e => match fst e with
                   | RavenCaptureException _ => false
                   | _ => true
                   end) t.

(** What a call added to the trace. *)
Definition added (w w' : World) : list (Request * bool) :=
  skipn (List.length (trace w)) (trace w').

(** The five requests of an accepted item, in the order in which [post]
    makes them from the world [w]; the queue url is the one the lookup
    returns (if it returns none, the part of the plan from the send on is
    never reached). *)
Definition plan (O : Outside) (env : EnvVars) (ev : ApiEvent) (user : string)
    (b : Body) (w : World) : list Request :=
  let MessageBody :=
    JSON_stringify O (messageData env ev user b (toISOString_at O (dates w))) in
  let QueueUrl :=
    match getQueueUrl_at O (S (S (requests w))) (QUEUE_NAME env) with
    | Some url => url
    | None => ""
    end in
  [S3PutObject (CONTENT_BUCKET env) (imageKey ev)
     (image_contentType (b "image")) (image_data (b "image"));
   S3PutObject (CONTENT_BUCKET env) (imageKey ev ++ "-request.json")
     (Some "application/json") (Some MessageBody);
   SqsGetQueueUrl (QUEUE_NAME env);
   SqsSendMessage QueueUrl MessageBody;
   MetricsNewItem user (ev_requestId ev) (image_contentType (b "image"))].

End Accept.

Module AcceptSample.

Local Open Scope string_scope.

Definition env : Accept.EnvVars :=
  {| Accept.UPSTREAM_SERVICE_URL := Some "https://upstream.example";
     Accept.QUEUE_NAME := "queue";
     Accept.CONTENT_BUCKET := "content" |}.

Definition event : Accept.ApiEvent :=
  {| Accept.ev_headers := fun name =>
       if String.eqb name "Content-Type" then Some "multipart/form-data" else None;
     Accept.ev_path := "/accept";
     Accept.ev_requestId := "8675309";
     Accept.ev_stage := Some "dev";
     Accept.ev_body := "";
     Accept.ev_isBase64Encoded := false |}.

Definition picture : Accept.BodyValue :=
  Accept.File
    {| Accept.filename := Some "image.jpg";
       Accept.contentEncoding := Some "7bit";
       Accept.contentType := Some "image/jpeg";
       Accept.data := Some "bytes" |}.

(** A body with the three required fields. *)
Definition complete : Accept.Body :=
  fun name =>
    if String.eqb name "image" then Some picture
    else if String.eqb name "negative_uri" then Some (Accept.Field "https://n.example")
    else if String.eqb name "positive_uri" then Some (Accept.Field "https://p.example")
    else None.

(** A body whose [image] is an empty field and that has no
    [negative_uri]. *)
Definition incomplete : Accept.Body :=
  fun name =>
    if String.eqb name "image" then Some (Accept.Field "")
    else if String.eqb name "positive_uri" then Some (Accept.Field "https://p.example")
    else None.

(** The user ["devuser"] is authenticated when [auth] holds; busboy
    returns [b]; the services accept every request but the [refused]-th
    one ([JSON.stringify] is a stand-in that keeps the kind of value). *)
Definition outside (auth : bool) (b : Accept.Body) (refused : nat) : Accept.Outside :=
  {| Accept.authenticate := fun _ =>
       if auth then inl "devuser" else inr (Some "Unauthorized");
     Accept.busboy := fun _ _ => inl b;
     Accept.toISOString_at := fun _ => "2018-06-01T00:00:00.000Z";
     Accept.JSON_stringify := fun v =>
       match v with
       | Accept.JObject fields =>
           String.concat "," (map fst fields)
       | _ => "value"
       end;
     Accept.putObject_at := fun n => negb (Nat.eqb n refused);
     Accept.getQueueUrl_at := fun n name =>
       if Nat.eqb n refused then None else Some ("https://sqs.example/" ++ name);
     Accept.sendMessage_at := fun n => negb (Nat.eqb n refused);
     Accept.newItem_at := fun n => negb (Nat.eqb n refused) |}.

End AcceptSample.

(** * Proofs *)

(** ** The config table *)

Module DynamoDBFacts.
Import DynamoDB.

Lemma get_some_key (tbl : Table) (k : string) (it : Item) :
  get tbl k = Some it -> key it = k.
Proof.
  unfold get. intros H. apply find_some in H. destruct H as [_ H].
  unfold has_key in H. now apply String.eqb_eq in H.
Qed.

Lemma keys_remove (tbl : Table) (k k' : string) :
  In k' (map key (remove tbl k)) -> In k' (map key tbl) /\ k' <> k.
Proof.
  unfold remove. rewrite !in_map_iff. intros [it [Hk Hin]].
  apply filter_In in Hin. destruct Hin as [Hin Hneq]. split.
  - exists it. now split.
  - unfold has_key in Hneq. apply negb_true_iff in Hneq.
    apply String.eqb_neq in Hneq. congruence.
Qed.

Lemma wf_remove (tbl : Table) (k : string) : wf tbl -> wf (remove tbl k).
Proof.
  unfold wf, remove. induction tbl as [|it tbl IH]; simpl; intros H.
  - constructor.
  - inversion H as [|? ? Hnotin Hnodup]; subst.
    destruct (negb (has_key k it)); simpl; [constructor|]; auto.
    intros Hin. apply Hnotin. now apply (keys_remove tbl k).
Qed.

Lemma wf_put (tbl tbl' : Table) (it : Item) (c : Condition) :
  wf tbl -> put tbl it c = Some tbl' -> wf tbl'.
Proof.
  unfold put. intros Hwf H.
  destruct (holds c (get tbl (key it))); [|discriminate].
  injection H as <-. unfold wf. simpl. constructor.
  - intros Hin. apply keys_remove in Hin. now destruct Hin.
  - now apply wf_remove.
Qed.

Lemma records_absent (tbl : Table) (k : string) :
  ~ In k (map key tbl) -> records tbl k = [].
Proof.
  unfold records. induction tbl as [|it tbl IH]; simpl; intros H; [easy|].
  unfold has_key at 1. destruct (String.eqb_spec (key it) k) as [Heq|Hneq].
  - exfalso. apply H. now left.
  - apply IH. intros Hin. apply H. now right.
Qed.

Lemma wf_records (tbl : Table) (k : string) :
  wf tbl -> (List.length (records tbl k) <= 1)%nat.
Proof.
  unfold wf. induction tbl as [|it tbl IH]; simpl; intros H; [lia|].
  inversion H as [|? ? Hnotin Hnodup]; subst.
  unfold records in *. simpl. unfold has_key at 1.
  destruct (String.eqb_spec (key it) k) as [Heq|Hneq].
  - subst k. fold (records tbl (key it)).
    rewrite (records_absent tbl (key it) Hnotin). simpl. lia.
  - now apply IH.
Qed.

Lemma valid_records_le (tbl : Table) (k : string) (now : Z) :
  (List.length (valid_records tbl k now) <= List.length (records tbl k))%nat.
Proof. unfold valid_records. apply filter_length_le. Qed.

Lemma records_put (tbl : Table) (it : Item) :
  records (it :: remove tbl (key it)) (key it) = [it].
Proof.
  unfold records. simpl. unfold has_key at 1. rewrite String.eqb_refl.
  f_equal. fold (records (remove tbl (key it)) (key it)).
  apply records_absent. intros Hin. apply keys_remove in Hin. now destruct Hin.
Qed.

Lemma get_put (tbl : Table) (it : Item) :
  get (it :: remove tbl (key it)) (key it) = Some it.
Proof. unfold get. simpl. unfold has_key. now rewrite String.eqb_refl. Qed.

End DynamoDBFacts.

(** ** The execution mutex *)

Section MutexFacts.

Variable E : Env.
Variable env : ProcessEnv.
Variable constants : Constants.

Let KEY := EXECUTION_MUTEX_KEY constants.

Lemma mutex_condition_free (tbl : DynamoDB.Table) (now : Z) :
  DynamoDB.holds (mutex_condition constants now) (DynamoDB.get tbl KEY) = true
  <-> lock_free tbl KEY now.
Proof.
  unfold lock_free, mutex_condition. fold KEY. simpl.
  destruct (DynamoDB.get tbl KEY) as [it|] eqn:Hget; simpl; [|easy].
  apply DynamoDBFacts.get_some_key in Hget. rewrite Hget, String.eqb_refl.
  simpl. apply Z.ltb_lt.
Qed.

(** What [acquireExecutionLock] does, in terms of the table. *)
Lemma acquireExecutionLock_run (w : World) :
  let now1 := Date_now_at E (clock_reads w) in
  let now2 := Date_now_at E (S (clock_reads w)) in
  let w2 := tick_clock (tick_clock w) in
  let c := DbdPut (CONFIG_TABLE env) (mutex_item constants now1)
             (mutex_condition constants now2) in
  acquireExecutionLock E env constants w =
    if dynamodb_down_at E (requests w) then
      (Rejected ServiceError, record c false w2)
    else
      match DynamoDB.put (table w) (mutex_item constants now1)
              (mutex_condition constants now2) with
      | Some t' => (Resolved tt, record c true (set_table t' w2))
      | None => (Rejected ConditionalCheckFailed, record c false w2)
      end.
Proof. reflexivity. Qed.

Lemma acquireExecutionLock_wf (w w' : World) (r : Result unit) :
  DynamoDB.wf (table w) ->
  acquireExecutionLock E env constants w = (r, w') ->
  DynamoDB.wf (table w').
Proof.
  intros Hwf. rewrite acquireExecutionLock_run. cbv zeta.
  destruct (dynamodb_down_at E (requests w)).
  - intros H. injection H as _ <-. exact Hwf.
  - destruct (DynamoDB.put _ _ _) as [t'|] eqn:Hput; intros H;
      injection H as _ <-; simpl.
    + exact (DynamoDBFacts.wf_put _ _ _ _ Hwf Hput).
    + exact Hwf.
Qed.

Lemma releaseExecutionLock_wf (w w' : World) (r : Result unit) :
  DynamoDB.wf (table w) ->
  releaseExecutionLock E env constants w = (r, w') ->
  DynamoDB.wf (table w').
Proof.
  intros Hwf. unfold releaseExecutionLock, DBD_delete.
  destruct (dynamodb_down_at E (requests w)); intros H;
    injection H as _ <-; simpl; [exact Hwf|].
  now apply DynamoDBFacts.wf_remove.
Qed.

End MutexFacts.

Lemma reachable_wf (constants : Constants) (s : LockState) :
  reachable constants s -> DynamoDB.wf (store s).
Proof.
  induction 1 as [tbl now Hwf | s s' _ IH Hstep]; [exact Hwf|].
  destruct Hstep as [s E env w w' r Htbl Hrun | s E env w w' r Htbl Hrun | s later _];
    simpl.
  - apply (acquireExecutionLock_wf E env constants w w' r); [now rewrite Htbl | exact Hrun].
  - apply (releaseExecutionLock_wf E env constants w w' r); [now rewrite Htbl | exact Hrun].
  - exact IH.
Qed.

(** C3. In every state of the lock store that the instances can reach by
    acquiring, releasing and letting time pass, the table holds at most
    one valid record (expiry [>=] the current time) under any given key.
    And when two instances attempt to acquire the mutex one after the
    other, the lock being free at the first attempt and the second
    attempt coming before the expiry of the lock the first one wrote,
    the first succeeds and the second is refused: exactly one succeeds.
    (Both instances reach the table; a conditional write is atomic, so
    two concurrent attempts take effect in one order or the other.) *)
Theorem mutex_at_most_one_valid_lock (constants : Constants) :
  (forall s : LockState,
      reachable constants s ->
      forall k : string,
        (List.length (DynamoDB.valid_records (store s) k (time s)) <= 1)%nat)
  /\
  (forall (EA EB : Env) (envA envB : ProcessEnv) (wA wB : World),
      dynamodb_down_at EA (requests wA) = false ->
      dynamodb_down_at EB (requests wB) = false ->
      lock_free (table wA) (EXECUTION_MUTEX_KEY constants)
        (Date_now_at EA (S (clock_reads wA))) ->
      Date_now_at EB (S (clock_reads wB))
        <= Date_now_at EA (clock_reads wA) + EXECUTION_MUTEX_TTL constants ->
      let (rA, wA') := acquireExecutionLock EA envA constants wA in
      let (rB, wB') :=
        acquireExecutionLock EB envB constants (set_table (table wA') wB) in
      rA = Resolved tt /\ rB = Rejected ConditionalCheckFailed
      /\ table wB' = table wA').
Proof.
  split.
  - intros s Hreach k. apply reachable_wf in Hreach.
    etransitivity; [apply DynamoDBFacts.valid_records_le|].
    now apply DynamoDBFacts.wf_records.
  - intros EA EB envA envB wA wB HupA HupB Hfree Hbefore.
    rewrite (acquireExecutionLock_run EA envA constants wA). cbv zeta.
    rewrite HupA. unfold DynamoDB.put.
    change (DynamoDB.key (mutex_item constants (Date_now_at EA (clock_reads wA))))
      with (EXECUTION_MUTEX_KEY constants).
    apply mutex_condition_free in Hfree. rewrite Hfree.
    rewrite (acquireExecutionLock_run EB envB constants). cbv zeta.
    simpl requests. rewrite HupB. simpl table. simpl clock_reads.
    unfold DynamoDB.put.
    change (DynamoDB.key (mutex_item constants (Date_now_at EB (clock_reads wB))))
      with (EXECUTION_MUTEX_KEY constants).
    set (item := mutex_item constants (Date_now_at EA (clock_reads wA))).
    change (EXECUTION_MUTEX_KEY constants) with (DynamoDB.key item) at 2 3.
    rewrite DynamoDBFacts.get_put.
    unfold mutex_condition. simpl DynamoDB.holds.
    rewrite String.eqb_refl. simpl.
    destruct (Z.ltb_spec (Date_now_at EA (clock_reads wA) + EXECUTION_MUTEX_TTL constants)
                (Date_now_at EB (S (clock_reads wB)))) as [Hlt|Hge]; [lia|].
    simpl. auto.
Qed.

Lemma mutex_at_most_one_valid_lock_witness :
  (List.length
     (DynamoDB.valid_records [] (EXECUTION_MUTEX_KEY Sample.constants) 0) <= 1)%nat
  /\
  (let (rA, wA') :=
     acquireExecutionLock (Sample.healthy 3000 []) Sample.env Sample.constants
       (initial_world []) in
   let (rB, wB') :=
     acquireExecutionLock (Sample.healthy 3000 []) Sample.env Sample.constants
       (set_table (table wA') (initial_world [])) in
   rA = Resolved tt /\ rB = Rejected ConditionalCheckFailed
   /\ table wB' = table wA').
Proof.
  destruct (mutex_at_most_one_valid_lock Sample.constants) as [Hone Htwo].
  split.
  - apply (Hone {| store := []; time := 0 |}).
    apply reach_init. constructor.
  - apply (Htwo (Sample.healthy 3000 []) (Sample.healthy 3000 [])
             Sample.env Sample.env (initial_world []) (initial_world []));
      vm_compute; try reflexivity; try exact I; discriminate.
Defined.

(** C4. When the request reaches the table, [acquireExecutionLock]
    succeeds if and only if the table has no record under the mutex key
    or the record's value is strictly less than the current time (so an
    attempt after the previous lock's expiry succeeds without any
    release); on success the table holds the record
    [{key, value: now + ttl}] and no other under that key; otherwise the
    caller gets the conditional-check failure ("busy") and the table is
    unchanged.  The clock is read twice: [now1] gives the expiry written,
    [now2] is compared with the stored value. *)
Theorem acquireExecutionLock_conditional_write
    (E : Env) (env : ProcessEnv) (constants : Constants) (w : World) :
  dynamodb_down_at E (requests w) = false ->
  let KEY := EXECUTION_MUTEX_KEY constants in
  let now1 := Date_now_at E (clock_reads w) in
  let now2 := Date_now_at E (S (clock_reads w)) in
  let lock :=
    {| DynamoDB.key := KEY;
       DynamoDB.value := now1 + EXECUTION_MUTEX_TTL constants |} in
  let r := fst (acquireExecutionLock E env constants w) in
  let w' := snd (acquireExecutionLock E env constants w) in
  (r = Resolved tt <-> lock_free (table w) KEY now2)
  /\ (lock_free (table w) KEY now2 ->
      DynamoDB.get (table w') KEY = Some lock
      /\ DynamoDB.records (table w') KEY = [lock])
  /\ (forall it : DynamoDB.Item,
        DynamoDB.get (table w) KEY = Some it -> DynamoDB.value it < now2 ->
        r = Resolved tt)
  /\ (~ lock_free (table w) KEY now2 ->
      r = Rejected ConditionalCheckFailed /\ table w' = table w).
Proof.
  intros Hup KEY now1 now2 lock r w'. subst r w'.
  rewrite acquireExecutionLock_run. cbv zeta. rewrite Hup.
  unfold DynamoDB.put.
  change (DynamoDB.key (mutex_item constants (Date_now_at E (clock_reads w))))
    with KEY.
  fold now1 now2.
  pose proof (mutex_condition_free constants (table w) now2) as Hcond.
  fold KEY in Hcond.
  destruct (DynamoDB.holds (mutex_condition constants now2)
              (DynamoDB.get (table w) KEY)) eqn:Hholds; simpl.
  - assert (Hfree : lock_free (table w) KEY now2) by now apply Hcond.
    split; [tauto|]. split; [|split; [reflexivity | tauto]].
    intros _. split.
    + change KEY with (DynamoDB.key (mutex_item constants now1)).
      apply DynamoDBFacts.get_put.
    + change KEY with (DynamoDB.key (mutex_item constants now1)).
      apply DynamoDBFacts.records_put.
  - assert (Hbusy : ~ lock_free (table w) KEY now2).
    { intros Hfree. apply Hcond in Hfree. discriminate. }
    split; [split; [discriminate | tauto]|].
    split; [tauto|]. split; [|auto].
    intros it Hget Hlt. exfalso. apply Hbusy. unfold lock_free.
    now rewrite Hget.
Qed.

Lemma acquireExecutionLock_conditional_write_witness :
  let E := Sample.healthy 3000 [] in
  let w :=
    initial_world
      [{| DynamoDB.key := EXECUTION_MUTEX_KEY Sample.constants;
          DynamoDB.value := 5 |}] in
  fst (acquireExecutionLock E Sample.env Sample.constants w) = Resolved tt
  /\ DynamoDB.records
       (table (snd (acquireExecutionLock E Sample.env Sample.constants w)))
       (EXECUTION_MUTEX_KEY Sample.constants)
     = [{| DynamoDB.key := EXECUTION_MUTEX_KEY Sample.constants;
           DynamoDB.value := 50000 |}].
Proof.
  intros E w.
  destruct (acquireExecutionLock_conditional_write E Sample.env Sample.constants w
              eq_refl) as (Hiff & Hwrite & _ & _).
  assert (Hfree : lock_free (table w) (EXECUTION_MUTEX_KEY Sample.constants)
                    (Date_now_at E (S (clock_reads w)))).
  { vm_compute. reflexivity. }
  split.
  - apply Hiff. exact Hfree.
  - apply (Hwrite Hfree).
Defined.

(** ** Reading the log *)

Lemma new_events_app (w w' : World) (evs : list Event) :
  log w' = log w ++ evs -> new_events w w' = evs.
Proof.
  intros H. unfold new_events. rewrite H, skipn_app, skipn_all, Nat.sub_diag.
  reflexivity.
Qed.

Lemma new_events_same (w w' : World) :
  log w' = log w -> new_events w w' = [].
Proof.
  intros H. apply new_events_app. now rewrite app_nil_r.
Qed.

(** ** Heartbeat *)

Section HeartbeatFacts.

Variable E : Env.
Variable env : ProcessEnv.
Variable constants : Constants.
Variable awsRequestId : string.

Let send := sendHeartbeatMetrics E env awsRequestId.
Let maybe := maybeSendHeartbeatMetrics E env constants awsRequestId.

(** [sendHeartbeatMetrics], request by request. *)
Lemma sendHeartbeatMetrics_run (w : World) :
  let w1 := set_lastHeartbeat (Some (Date_now_at E (clock_reads w))) (tick_clock w) in
  let lookup := SqsGetQueueUrl (QUEUE_NAME env) in
  send w =
    match getQueueUrl_at E (requests w) (QUEUE_NAME env) with
    | None => (Rejected ServiceError, record lookup false w1)
    | Some url =>
        let w2 := record lookup true w1 in
        match getQueueAttributes_at E (S (requests w)) with
        | None =>
            (Rejected ServiceError, record (SqsGetQueueAttributes url) false w2)
        | Some attrs =>
            let w3 := record (SqsGetQueueAttributes url) true w2 in
            if pollerHeartbeat_at E (S (S (requests w))) then
              (Resolved tt,
               record (MetricsPollerHeartbeat (heartbeat_of awsRequestId attrs)) true w3)
            else
              (Rejected ServiceError,
               record (MetricsPollerHeartbeat (heartbeat_of awsRequestId attrs)) false w3)
        end
    end.
Proof.
  subst send. unfold sendHeartbeatMetrics, bind, Date_now, update,
    SQS_getQueueUrl, SQS_getQueueAttributes, Metrics_pollerHeartbeat.
  simpl.
  destruct (getQueueUrl_at E (requests w) (QUEUE_NAME env)); [|reflexivity].
  simpl. destruct (getQueueAttributes_at E (S (requests w))); reflexivity.
Qed.

Lemma maybeSendHeartbeatMetrics_run (w : World) :
  maybe w =
    match lastHeartbeat w with
    | Some l =>
        if Date_now_at E (clock_reads w) - l <? MIN_HEARTBEAT_PERIOD constants
        then (Resolved tt, tick_clock (tick_clock w))
        else send (tick_clock w)
    | None => send w
    end.
Proof.
  subst maybe send. unfold maybeSendHeartbeatMetrics, bind, read. simpl.
  destruct (lastHeartbeat w) as [l|]; [|reflexivity].
  destruct (_ <? _); reflexivity.
Qed.

Lemma sendHeartbeatMetrics_lastHeartbeat (w : World) :
  lastHeartbeat (snd (send w)) = Some (Date_now_at E (clock_reads w)).
Proof.
  rewrite sendHeartbeatMetrics_run. cbv zeta.
  destruct (getQueueUrl_at _ _ _); [|reflexivity].
  destruct (getQueueAttributes_at _ _); [|reflexivity].
  destruct (pollerHeartbeat_at _ _); reflexivity.
Qed.

(** A heartbeat that goes through publishes once; one that fails does
    not publish. *)
Lemma sendHeartbeatMetrics_publishes (w : World) :
  exists evs,
    log (snd (send w)) = log w ++ evs
    /\ publishes evs = match fst (send w) with
                       | Resolved _ => 1%nat
                       | Rejected _ => 0%nat
                       end.
Proof.
  rewrite sendHeartbeatMetrics_run. cbv zeta.
  destruct (getQueueUrl_at _ _ _); [|eexists; split; reflexivity].
  destruct (getQueueAttributes_at _ _).
  2: { eexists; split; [simpl; rewrite <- app_assoc|]; reflexivity. }
  destruct (pollerHeartbeat_at _ _); eexists;
    (split; [simpl; rewrite <- !app_assoc|]; reflexivity).
Qed.

Lemma sendHeartbeatMetrics_up (w : World) :
  heartbeat_services_up E -> fst (send w) = Resolved tt.
Proof.
  intros (Hurl & Hattrs & Hpub). rewrite sendHeartbeatMetrics_run. cbv zeta.
  specialize (Hurl (requests w) (QUEUE_NAME env)).
  destruct (getQueueUrl_at _ _ _); [|congruence].
  specialize (Hattrs (S (requests w))).
  destruct (getQueueAttributes_at _ _); [|congruence].
  now rewrite Hpub.
Qed.

End HeartbeatFacts.

Lemma publishes_app (l1 l2 : list Event) :
  publishes (l1 ++ l2) = (publishes l1 + publishes l2)%nat.
Proof. unfold publishes. now rewrite filter_app, length_app. Qed.

(** C9. Take two calls of [maybeSendHeartbeatMetrics] in a row, the first
    of which is not throttled, with the queue and the metrics sink
    answering.  The first call emits and records its time [t1].  If the
    second call reads a time [t2] with [t2 - t1 < MIN_HEARTBEAT_PERIOD],
    it is skipped and the two calls publish exactly one heartbeat; if
    [t2 - t1 >= MIN_HEARTBEAT_PERIOD] (in particular if more than the
    period has passed), they publish two.  [sendHeartbeatMetrics], which
    the handler calls directly at the start and at the end of a run,
    never looks at the last-heartbeat time: from any world it publishes,
    and it sets the last-heartbeat time to the time it read. *)
Theorem heartbeat_throttling
    (E : Env) (env : ProcessEnv) (constants : Constants) (awsRequestId : string)
    (w : World) :
  heartbeat_services_up E ->
  match lastHeartbeat w with
  | None => True
  | Some l => MIN_HEARTBEAT_PERIOD constants <= Date_now_at E (clock_reads w) - l
  end ->
  let maybe := maybeSendHeartbeatMetrics E env constants awsRequestId in
  let send := sendHeartbeatMetrics E env awsRequestId in
  let w1 := snd (maybe w) in
  let w2 := snd (maybe w1) in
  let t2 := Date_now_at E (clock_reads w1) in
  (exists t1 : Z,
      lastHeartbeat w1 = Some t1
      /\ publishes (new_events w w1) = 1%nat
      /\ (t2 - t1 < MIN_HEARTBEAT_PERIOD constants ->
          publishes (new_events w w2) = 1%nat
          /\ lastHeartbeat w2 = Some t1)
      /\ (MIN_HEARTBEAT_PERIOD constants <= t2 - t1 ->
          publishes (new_events w w2) = 2%nat))
  /\ (forall w0 : World,
        fst (send w0) = Resolved tt
        /\ publishes (new_events w0 (snd (send w0))) = 1%nat
        /\ lastHeartbeat (snd (send w0)) = Some (Date_now_at E (clock_reads w0))).
Proof.
  intros Hup Hfirst maybe send w1 w2 t2.
  assert (Hsend : forall w0 : World,
             fst (send w0) = Resolved tt
             /\ (exists evs, log (snd (send w0)) = log w0 ++ evs
                             /\ publishes evs = 1%nat)
             /\ lastHeartbeat (snd (send w0)) = Some (Date_now_at E (clock_reads w0))).
  { intros w0. split; [now apply sendHeartbeatMetrics_up|]. split.
    - destruct (sendHeartbeatMetrics_publishes E env awsRequestId w0)
        as (evs & Hlog & Hpub).
      exists evs. split; [exact Hlog|]. rewrite Hpub.
      now rewrite (sendHeartbeatMetrics_up E env awsRequestId w0 Hup).
    - apply sendHeartbeatMetrics_lastHeartbeat. }
  split.
  2: { intros w0. destruct (Hsend w0) as (Hres & (evs & Hlog & Hpub) & Hlast).
       repeat split; auto. now rewrite (new_events_app _ _ _ Hlog). }
  (* the first call goes through to [send], from [w] or after one reading *)
  assert (Hw1 : exists ws, w1 = snd (send ws) /\ log ws = log w).
  { subst w1 maybe. rewrite maybeSendHeartbeatMetrics_run.
    destruct (lastHeartbeat w) as [l|].
    - destruct (Z.ltb_spec (Date_now_at E (clock_reads w) - l)
                  (MIN_HEARTBEAT_PERIOD constants)); [lia|].
      exists (tick_clock w). split; reflexivity.
    - exists w. split; reflexivity. }
  destruct Hw1 as (ws & Hw1 & Hlogs).
  destruct (Hsend ws) as (_ & (evs1 & Hlog1 & Hpub1) & Hlast1).
  rewrite <- Hw1 in Hlog1, Hlast1. rewrite Hlogs in Hlog1.
  exists (Date_now_at E (clock_reads ws)).
  split; [exact Hlast1|]. split.
  { now rewrite (new_events_app _ _ _ Hlog1). }
  assert (Hrun2 : maybe w1 =
            if t2 - Date_now_at E (clock_reads ws) <? MIN_HEARTBEAT_PERIOD constants
            then (Resolved tt, tick_clock (tick_clock w1))
            else send (tick_clock w1)).
  { subst maybe. rewrite maybeSendHeartbeatMetrics_run, Hlast1. reflexivity. }
  split.
  - intros Hshort. subst w2. rewrite Hrun2.
    destruct (Z.ltb_spec (t2 - Date_now_at E (clock_reads ws))
                (MIN_HEARTBEAT_PERIOD constants)); [|lia].
    simpl. split; [|exact Hlast1].
    rewrite (new_events_app w _ evs1); [exact Hpub1 | exact Hlog1].
  - intros Hlong. subst w2. rewrite Hrun2.
    destruct (Z.ltb_spec (t2 - Date_now_at E (clock_reads ws))
                (MIN_HEARTBEAT_PERIOD constants)); [lia|].
    destruct (Hsend (tick_clock w1)) as (_ & (evs2 & Hlog2 & Hpub2) & _).
    simpl log in Hlog2. rewrite Hlog1, <- app_assoc in Hlog2.
    rewrite (new_events_app _ _ _ Hlog2), publishes_app, Hpub1, Hpub2.
    reflexivity.
Qed.

Lemma sample_services_up (budget : Z) (batch : list Message) :
  heartbeat_services_up (Sample.healthy budget batch).
Proof. repeat split; intros; simpl; discriminate. Qed.

Lemma heartbeat_throttling_witness :
  let maybe :=
    maybeSendHeartbeatMetrics (Sample.healthy 3000 []) Sample.env
      Sample.constants "poller" in
  publishes
    (new_events (initial_world [])
       (snd (maybe (snd (maybe (initial_world [])))))) = 1%nat.
Proof.
  intros maybe.
  destruct (heartbeat_throttling (Sample.healthy 3000 []) Sample.env
              Sample.constants "poller" (initial_world [])
              (sample_services_up 3000 []) I)
    as [(t1 & Hlast & _ & Hshort & _) _].
  vm_compute in Hlast. injection Hlast as <-.
  apply Hshort. vm_compute. reflexivity.
Defined.

(** C10. [sendHeartbeatMetrics] sets the last-heartbeat time before its
    first request.  So when the emission fails, at whichever of the three
    requests, nothing has been published and the last-heartbeat time is
    nevertheless the time of the failed attempt; a call of
    [maybeSendHeartbeatMetrics] that follows within
    [MIN_HEARTBEAT_PERIOD] of that time is skipped: it makes no request
    and publishes nothing. *)
Theorem failed_heartbeat_still_throttles
    (E : Env) (env : ProcessEnv) (constants : Constants) (awsRequestId : string)
    (w : World) (e : Error) :
  let send := sendHeartbeatMetrics E env awsRequestId in
  let maybe := maybeSendHeartbeatMetrics E env constants awsRequestId in
  fst (send w) = Rejected e ->
  let w1 := snd (send w) in
  let attempted := Date_now_at E (clock_reads w) in
  lastHeartbeat w1 = Some attempted
  /\ publishes (new_events w w1) = 0%nat
  /\ (Date_now_at E (clock_reads w1) - attempted < MIN_HEARTBEAT_PERIOD constants ->
      maybe w1 = (Resolved tt, tick_clock (tick_clock w1))
      /\ new_events w1 (snd (maybe w1)) = []
      /\ publishes (new_events w (snd (maybe w1))) = 0%nat).
Proof.
  intros send maybe Hfail w1 attempted.
  assert (Hlast : lastHeartbeat w1 = Some attempted)
    by apply sendHeartbeatMetrics_lastHeartbeat.
  destruct (sendHeartbeatMetrics_publishes E env awsRequestId w)
    as (evs & Hlog & Hpub).
  fold send in Hlog, Hpub. rewrite Hfail in Hpub. fold w1 in Hlog.
  assert (Hnone : publishes (new_events w w1) = 0%nat)
    by now rewrite (new_events_app _ _ _ Hlog).
  repeat split; auto.
  - subst maybe. rewrite maybeSendHeartbeatMetrics_run, Hlast.
    destruct (Z.ltb_spec (Date_now_at E (clock_reads w1) - attempted)
                (MIN_HEARTBEAT_PERIOD constants)); [reflexivity | lia].
  - subst maybe. rewrite maybeSendHeartbeatMetrics_run, Hlast.
    destruct (Z.ltb_spec (Date_now_at E (clock_reads w1) - attempted)
                (MIN_HEARTBEAT_PERIOD constants)); [|lia].
    now apply new_events_same.
  - subst maybe. rewrite maybeSendHeartbeatMetrics_run, Hlast.
    destruct (Z.ltb_spec (Date_now_at E (clock_reads w1) - attempted)
                (MIN_HEARTBEAT_PERIOD constants)); [|lia].
    exact Hnone.
Qed.

Lemma failed_heartbeat_still_throttles_witness :
  let E := Sample.queue_lookup_fails 3000 in
  let w1 := snd (sendHeartbeatMetrics E Sample.env "poller" (initial_world [])) in
  lastHeartbeat w1 = Some 0
  /\ publishes (new_events (initial_world []) w1) = 0%nat
  /\ maybeSendHeartbeatMetrics E Sample.env Sample.constants "poller" w1
     = (Resolved tt, tick_clock (tick_clock w1)).
Proof.
  intros E w1.
  destruct (failed_heartbeat_still_throttles E Sample.env Sample.constants
              "poller" (initial_world []) ServiceError eq_refl)
    as (Hlast & Hnone & Hskip).
  split; [exact Hlast|]. split; [exact Hnone|].
  apply Hskip. vm_compute. reflexivity.
Defined.

(** ** One poll *)

Section PollFacts.

Variable E : Env.
Variable env : ProcessEnv.
Variable constants : Constants.

Lemma invoke_worker_run (m : Message) (w : World) :
  invoke_worker E env m w =
    match parse_requestId E (Body m) with
    | None => (Rejected SyntaxError, w)
    | Some _ =>
        let now := Date_now_at E (clock_reads w) in
        let w1 := note_hit now (set_rateHits (fun hits => hits ++ [now]) (tick_clock w)) in
        let c := LambdaInvoke (PROCESS_QUEUE_FUNCTION env) m in
        if invoke_at E (requests w) m then (Resolved tt, record c true w1)
        else (Rejected ServiceError, record c false w1)
    end.
Proof.
  unfold invoke_worker, bind, JSON_parse_requestId.
  destruct (parse_requestId E (Body m)); reflexivity.
Qed.

Lemma dispatched_refl (w : World) : dispatched E w w [] [].
Proof.
  constructor; simpl; rewrite ?app_nil_r, ?Nat.add_0_r; reflexivity.
Qed.

(** The fan-out: every message whose body deserializes gets its hit and
    its invocation request, whatever the answers to the others. *)
Lemma Promise_all_map_invoke_worker (ms : list Message) (w : World) :
  exists pushed evs,
    dispatched E w (snd (Promise_all_map (invoke_worker E env) ms w)) pushed evs
    /\ List.length pushed = List.length (deserializable E ms)
    /\ map call evs
       = map (LambdaInvoke (PROCESS_QUEUE_FUNCTION env)) (deserializable E ms).
Proof.
  revert w. induction ms as [|m ms IH]; intros w.
  - exists [], []. split; [apply dispatched_refl | split; reflexivity].
  - simpl Promise_all_map. rewrite invoke_worker_run.
    unfold deserializable. simpl filter. fold (deserializable E ms).
    destruct (parse_requestId E (Body m)) as [id|].
    + cbv zeta.
      set (now := Date_now_at E (clock_reads w)).
      set (w1 := note_hit now _).
      set (c := LambdaInvoke _ m).
      assert (Hstep : forall ok,
                 exists pushed evs,
                   dispatched E w
                     (snd (Promise_all_map (invoke_worker E env) ms (record c ok w1)))
                     pushed evs
                   /\ List.length pushed = S (List.length (deserializable E ms))
                   /\ map call evs
                      = c :: map (LambdaInvoke (PROCESS_QUEUE_FUNCTION env))
                               (deserializable E ms)).
      { intros ok. destruct (IH (record c ok w1)) as (pushed & evs & Hd & Hlen & Hcalls).
        exists (now :: pushed), ({| call := c; resolved := ok |} :: evs).
        destruct Hd as [Hr Hh Hl Hp Hc Hq Hb Hlh Hpo Ht].
        split; [constructor|split]; simpl in *.
        - rewrite Hr, <- app_assoc. reflexivity.
        - rewrite Hh, <- app_assoc. reflexivity.
        - rewrite Hl, <- app_assoc. reflexivity.
        - fold now. f_equal. exact Hp.
        - rewrite Hc. lia.
        - rewrite Hq. lia.
        - exact Hb.
        - exact Hlh.
        - exact Hpo.
        - exact Ht.
        - now rewrite Hlen.
        - now rewrite Hcalls. }
      destruct (invoke_at E (requests w) m).
      * destruct (Hstep true) as (pushed & evs & H).
        exists pushed, evs.
        destruct (Promise_all_map (invoke_worker E env) ms (record c true w1)).
        exact H.
      * destruct (Hstep false) as (pushed & evs & H).
        exists pushed, evs.
        destruct (Promise_all_map (invoke_worker E env) ms (record c false w1)).
        exact H.
    + destruct (IH w) as (pushed & evs & H).
      exists pushed, evs.
      destruct (Promise_all_map (invoke_worker E env) ms w). exact H.
Qed.

Lemma deserializable_all (ms : list Message) :
  bodies_deserialize E ms -> deserializable E ms = ms.
Proof.
  unfold bodies_deserialize, deserializable.
  induction 1 as [|m ms Hm _ IH]; simpl; [reflexivity|].
  destruct (parse_requestId E (Body m)); [now rewrite IH | congruence].
Qed.

Lemma deserializable_length (ms : list Message) :
  (List.length (deserializable E ms) <= List.length ms)%nat.
Proof. apply filter_length_le. Qed.

(** [pollQueue], guard by guard. *)
Lemma pollQueue_run (w : World) :
  let remaining := remaining_at E (budget_reads w) in
  let WaitTimeSeconds :=
    Z.min (MAX_LONG_POLL_PERIOD constants) (remaining / 1000) in
  let now := Date_now_at E (clock_reads w) in
  let w1 :=
    set_rateHits (filter (fun item => now - RATE_PERIOD constants <? item))
      (tick_clock (tick_budget w)) in
  let MaxNumberOfMessages :=
    RATE_LIMIT constants - Z.of_nat (List.length (rateHits w1)) in
  let lookup := SqsGetQueueUrl (QUEUE_NAME env) in
  pollQueue E env constants w =
    if WaitTimeSeconds <=? 0 then (Resolved tt, tick_budget w)
    else if MaxNumberOfMessages <=? 0 then (Resolved tt, w1)
    else
      match getQueueUrl_at E (requests w) (QUEUE_NAME env) with
      | None => (Rejected ServiceError, record lookup false w1)
      | Some url =>
          let c := SqsReceiveMessage url WaitTimeSeconds MaxNumberOfMessages in
          let w2 := record lookup true w1 in
          match receiveMessage_at E (S (requests w)) WaitTimeSeconds
                  MaxNumberOfMessages with
          | None => (Rejected ServiceError, record c false w2)
          | Some receiveResult =>
              Promise_all_map (invoke_worker E env)
                (match receiveResult with Some ms => ms | None => [] end)
                (record c true w2)
          end
      end.
Proof.
  cbv zeta. unfold pollQueue, bind, getRemainingTimeInMillis, read_remaining,
    Date_now, update, read, SQS_getQueueUrl, SQS_receiveMessage.
  destruct (_ <=? 0); [reflexivity|]. simpl.
  destruct (_ <=? 0); [reflexivity|].
  destruct (getQueueUrl_at _ _ _); [|reflexivity]. simpl.
  destruct (receiveMessage_at _ _ _ _) as [[[|m ms]|]|]; reflexivity.
Qed.

End PollFacts.

Lemma invocations_of_calls (fn : string) (evs : list Event) (ms : list Message) :
  map call evs = map (LambdaInvoke fn) ms -> invocations evs = ms.
Proof.
  revert ms. induction evs as [|e evs IH]; intros [|m ms] H; simpl in H;
    try discriminate; [reflexivity|].
  injection H as He Hrest. simpl. unfold invocation_of. rewrite He.
  f_equal. now apply IH.
Qed.

Lemma prune_as_spec (bound : Z) (hits : list Z) :
  filter (fun item => bound <? item) hits
  = filter (fun t => negb (t <=? bound)) hits.
Proof.
  apply filter_ext. intros t. now rewrite Z.leb_antisym, negb_involutive.
Qed.

(** C5. When a poll receives a batch of N messages whose bodies
    deserialize, the requests it makes are the queue lookup, the receive,
    and then exactly N invocation requests, one per message and in the
    order of the batch, each preceded by one hit pushed on [rateHits].
    This holds for every way the invocation service may answer: a
    refused invocation does not keep the others from being requested. *)
Theorem dispatch_fan_out
    (E : Env) (env : ProcessEnv) (constants : Constants) (w : World)
    (url : string) (messages : list Message) :
  let WaitTimeSeconds :=
    Z.min (MAX_LONG_POLL_PERIOD constants)
      (remaining_at E (budget_reads w) / 1000) in
  let now := Date_now_at E (clock_reads w) in
  let kept := filter (fun item => now - RATE_PERIOD constants <? item) (rateHits w) in
  let MaxNumberOfMessages := RATE_LIMIT constants - Z.of_nat (List.length kept) in
  0 < WaitTimeSeconds ->
  0 < MaxNumberOfMessages ->
  getQueueUrl_at E (requests w) (QUEUE_NAME env) = Some url ->
  receiveMessage_at E (S (requests w)) WaitTimeSeconds MaxNumberOfMessages
    = Some (Some messages) ->
  bodies_deserialize E messages ->
  let w' := snd (pollQueue E env constants w) in
  map call (new_events w w')
    = SqsGetQueueUrl (QUEUE_NAME env)
      :: SqsReceiveMessage url WaitTimeSeconds MaxNumberOfMessages
      :: map (LambdaInvoke (PROCESS_QUEUE_FUNCTION env)) messages
  /\ invocations (new_events w w') = messages
  /\ List.length (invocations (new_events w w')) = List.length messages
  /\ rateHits w'
     = kept ++ map (Date_now_at E)
                 (seq (S (clock_reads w)) (List.length messages)).
Proof.
  intros WaitTimeSeconds now kept MaxNumberOfMessages Hwait Hmax Hurl Hrecv Hbodies w'.
  subst w'. rewrite pollQueue_run. cbv zeta. simpl rateHits.
  fold now. fold kept. fold MaxNumberOfMessages. fold WaitTimeSeconds.
  destruct (Z.leb_spec WaitTimeSeconds 0); [lia|].
  destruct (Z.leb_spec MaxNumberOfMessages 0); [lia|].
  rewrite Hurl, Hrecv.
  match goal with
  | |- context [Promise_all_map _ _ ?w2] =>
      destruct (Promise_all_map_invoke_worker E env messages w2)
        as (pushed & evs & Hd & Hlen & Hcalls);
      set (wr := snd (Promise_all_map (invoke_worker E env) messages w2)) in *
  end.
  rewrite (deserializable_all E messages Hbodies) in Hlen, Hcalls.
  destruct Hd as [Hr _ Hl Hp _ _ _ _ _ _]. simpl in Hr, Hl, Hp.
  rewrite <- !app_assoc in Hl. simpl in Hl.
  rewrite (new_events_app _ _ _ Hl). simpl map. rewrite Hcalls.
  assert (Hinv : invocations evs = messages)
    by exact (invocations_of_calls _ _ _ Hcalls).
  repeat split.
  - simpl. exact Hinv.
  - simpl. now rewrite Hinv.
  - rewrite Hr, Hp, Hlen. reflexivity.
Qed.

Lemma dispatch_fan_out_witness :
  let batch := [Sample.message "a"; Sample.message "b"; Sample.message "c"] in
  let E := Sample.invoke_fails 3000 batch "b" in
  let run := pollQueue E Sample.env Sample.constants (initial_world []) in
  fst run = Rejected ServiceError
  /\ invocations (new_events (initial_world []) (snd run)) = batch.
Proof.
  intros batch E run. split; [vm_compute; reflexivity|].
  refine (proj1 (proj2 (dispatch_fan_out E Sample.env Sample.constants
                          (initial_world []) "queue" batch _ _ _ _ _)));
    try (vm_compute; reflexivity).
  repeat constructor; discriminate.
Defined.

(** C6. In a poll that has time left, the rate-limiter step at time [now]
    drops from [rateHits] exactly the entries with timestamp
    [<= now - RATE_PERIOD]; the capacity is [RATE_LIMIT] minus the number
    of entries that remain, and it is the maximum asked of any receive of
    this poll.  When the capacity is [<= 0] the poll returns at once: it
    makes no request at all (no queue I/O), and [rateHits] is the pruned
    window.  When it is positive and the queue is found, the receive is
    issued with that capacity. *)
Theorem availableCapacity_gates_receive
    (E : Env) (env : ProcessEnv) (constants : Constants) (w : World) :
  let WaitTimeSeconds :=
    Z.min (MAX_LONG_POLL_PERIOD constants)
      (remaining_at E (budget_reads w) / 1000) in
  0 < WaitTimeSeconds ->
  let now := Date_now_at E (clock_reads w) in
  let remaining_entries :=
    filter (fun t => negb (t <=? now - RATE_PERIOD constants)) (rateHits w) in
  let capacity := RATE_LIMIT constants - Z.of_nat (List.length remaining_entries) in
  let w' := snd (pollQueue E env constants w) in
  (exists pushed, rateHits w' = remaining_entries ++ pushed)
  /\ (forall e, In e (new_events w w') -> is_receive e = true ->
        exists url, call e = SqsReceiveMessage url WaitTimeSeconds capacity)
  /\ (capacity <= 0 ->
      fst (pollQueue E env constants w) = Resolved tt
      /\ rateHits w' = remaining_entries
      /\ new_events w w' = []
      /\ requests w' = requests w)
  /\ (0 < capacity ->
      forall url, getQueueUrl_at E (requests w) (QUEUE_NAME env) = Some url ->
        exists ok,
          nth_error (new_events w w') 1
          = Some {| call := SqsReceiveMessage url WaitTimeSeconds capacity;
                    resolved := ok |}).
Proof.
  intros WaitTimeSeconds Hwait now remaining_entries capacity w'.
  subst w'. rewrite pollQueue_run. cbv zeta. simpl rateHits.
  fold now. fold WaitTimeSeconds. rewrite prune_as_spec.
  fold remaining_entries. fold capacity.
  destruct (Z.leb_spec WaitTimeSeconds 0); [lia|].
  destruct (Z.leb_spec capacity 0) as [Hnone|Hsome].
  { simpl. rewrite prune_as_spec. fold remaining_entries.
    split; [exists []; now rewrite app_nil_r|].
    split; [intros e Hin; rewrite new_events_same in Hin by reflexivity; easy|].
    split; [intros _|lia].
    repeat split. now apply new_events_same. }
  destruct (getQueueUrl_at E (requests w) (QUEUE_NAME env)) as [url|].
  2: { simpl. rewrite prune_as_spec. fold remaining_entries.
       split; [exists []; now rewrite app_nil_r|].
       split; [|split; [lia | intros _ url' Hurl'; discriminate]].
       intros e Hin. rewrite (new_events_app _ _ [_]) in Hin by reflexivity.
       destruct Hin as [<-|[]]. discriminate. }
  destruct (receiveMessage_at E (S (requests w)) WaitTimeSeconds capacity)
    as [receiveResult|].
  2: { simpl. rewrite prune_as_spec. fold remaining_entries.
       split; [exists []; now rewrite app_nil_r|].
       rewrite (new_events_app _ _ [_; _]) by (simpl; now rewrite <- app_assoc).
       split; [|split; [lia | intros _ url' Hurl'; injection Hurl' as <-]].
       - intros e [<-|[<-|[]]]; [discriminate|]. intros _. now exists url.
       - now exists false. }
  match goal with
  | |- context [Promise_all_map _ ?ms ?w2] =>
      destruct (Promise_all_map_invoke_worker E env ms w2)
        as (pushed & evs & Hd & _ & Hcalls);
      set (wr := snd (Promise_all_map (invoke_worker E env) ms w2)) in *
  end.
  destruct Hd as [Hr _ Hl _ _ _ _ _ _ _]. simpl in Hr, Hl.
  rewrite prune_as_spec in Hr. fold remaining_entries in Hr.
  rewrite <- !app_assoc in Hl. simpl in Hl.
  rewrite (new_events_app _ _ _ Hl).
  split; [now exists pushed|].
  split; [|split; [lia | intros _ url' Hurl'; injection Hurl' as <-; now exists true]].
  intros e [<-|[<-|Hin]]; [discriminate | intros _; now exists url |].
  intros Hrecv. exfalso.
  apply (in_map call) in Hin. rewrite Hcalls in Hin.
  apply in_map_iff in Hin. destruct Hin as (m & Hm & _).
  unfold is_receive in Hrecv. rewrite <- Hm in Hrecv. discriminate.
Qed.

Lemma availableCapacity_gates_receive_witness :
  let E := Sample.healthy 3000 [Sample.message "a"] in
  let w := set_rateHits (fun _ => [0; 0; 0; 0; 0]) (initial_world []) in
  let w' := snd (pollQueue E Sample.env Sample.constants w) in
  rateHits w' = [0; 0; 0; 0; 0] /\ new_events w w' = [].
Proof.
  intros E w w'.
  destruct (availableCapacity_gates_receive E Sample.env Sample.constants w)
    as (_ & _ & Hyield & _).
  - vm_compute. reflexivity.
  - destruct Hyield as (_ & Hhits & Hquiet & _).
    + vm_compute. discriminate.
    + split; [exact Hhits | exact Hquiet].
Defined.

(** ** Operations around the poll *)

Lemma bystander_refl (w : World) : bystander w w.
Proof.
  constructor; auto. exists []. now rewrite app_nil_r.
Qed.

Lemma bystander_trans (w1 w2 w3 : World) :
  bystander w1 w2 -> bystander w2 w3 -> bystander w1 w3.
Proof.
  intros [Hr1 Hh1 Hb1 Hp1 Ht1 Hc1 (e1 & Hl1 & Hq1)]
         [Hr2 Hh2 Hb2 Hp2 Ht2 Hc2 (e2 & Hl2 & Hq2)].
  constructor; try congruence; try lia.
  exists (e1 ++ e2). split.
  - now rewrite Hl2, Hl1, app_assoc.
  - now rewrite forallb_app, Hq1, Hq2.
Qed.

Lemma bystander_tick_clock (w : World) : bystander w (tick_clock w).
Proof.
  constructor; simpl; auto. exists []. now rewrite app_nil_r.
Qed.

Lemma bystander_set_lastHeartbeat (v : option Z) (w : World) :
  bystander w (set_lastHeartbeat v w).
Proof.
  constructor; simpl; auto. exists []. now rewrite app_nil_r.
Qed.

Lemma bystander_record (c : Request) (ok : bool) (w : World) :
  quiet_event {| call := c; resolved := ok |} = true ->
  bystander w (record c ok w).
Proof.
  intros Hq. constructor; simpl; auto.
  exists [{| call := c; resolved := ok |}]. split; [reflexivity|].
  simpl. now rewrite Hq.
Qed.

Lemma poll_event_receive (url : string) (wt mx : Z) (ok : bool) :
  1 <= wt -> 1 <= mx ->
  poll_event {| call := SqsReceiveMessage url wt mx; resolved := ok |} = true.
Proof.
  intros Hwt Hmx. unfold poll_event. simpl.
  apply andb_true_iff. split; now apply Z.leb_le.
Qed.

Ltac bystander_chain :=
  repeat (first
    [ apply bystander_refl
    | apply bystander_tick_clock
    | apply bystander_set_lastHeartbeat
    | apply bystander_record; reflexivity
    | eapply bystander_trans; [|apply bystander_record; reflexivity]
    | eapply bystander_trans; [|apply bystander_set_lastHeartbeat]
    | eapply bystander_trans; [|apply bystander_tick_clock] ]).

Section AroundThePoll.

Variable E : Env.
Variable env : ProcessEnv.
Variable constants : Constants.
Variable awsRequestId : string.

Lemma sendHeartbeatMetrics_bystander (w : World) :
  bystander w (snd (sendHeartbeatMetrics E env awsRequestId w)).
Proof.
  rewrite sendHeartbeatMetrics_run. cbv zeta.
  destruct (getQueueUrl_at _ _ _); [|simpl; bystander_chain].
  destruct (getQueueAttributes_at _ _); [|simpl; bystander_chain].
  destruct (pollerHeartbeat_at _ _); simpl; bystander_chain.
Qed.

Lemma maybeSendHeartbeatMetrics_bystander (w : World) :
  bystander w (snd (maybeSendHeartbeatMetrics E env constants awsRequestId w)).
Proof.
  rewrite maybeSendHeartbeatMetrics_run.
  destruct (lastHeartbeat w) as [l|].
  - destruct (_ <? _).
    + simpl. bystander_chain.
    + eapply bystander_trans; [apply bystander_tick_clock|].
      apply sendHeartbeatMetrics_bystander.
  - apply sendHeartbeatMetrics_bystander.
Qed.

Lemma wait_bystander (delay : Z) (w : World) :
  bystander w (snd (wait delay w)).
Proof. simpl. bystander_chain. Qed.

Lemma quiet_is_poll_event (evs : list Event) :
  forallb quiet_event evs = true -> forallb poll_event evs = true.
Proof.
  induction evs as [|e evs IH]; simpl; [easy|].
  intros H. apply andb_true_iff in H. destruct H as [He Hevs].
  rewrite (IH Hevs), andb_true_r.
  unfold quiet_event in He. unfold poll_event.
  destruct (call e); try discriminate; reflexivity.
Qed.

Lemma pollQueue_polled (w : World) :
  polled w (snd (pollQueue E env constants w)).
Proof.
  rewrite pollQueue_run. cbv zeta.
  set (WaitTimeSeconds := Z.min _ _).
  set (w1 := set_rateHits _ _).
  set (MaxNumberOfMessages := _ - _).
  destruct (Z.leb_spec WaitTimeSeconds 0) as [|Hwait].
  { constructor; simpl; auto. exists []. now rewrite app_nil_r. }
  destruct (Z.leb_spec MaxNumberOfMessages 0) as [|Hmax].
  { constructor; simpl; auto. exists []. now rewrite app_nil_r. }
  destruct (getQueueUrl_at _ _ _) as [url|].
  2: { constructor; simpl; auto. eexists. split; reflexivity. }
  destruct (receiveMessage_at _ _ _ _) as [receiveResult|].
  2: { constructor; simpl; auto. eexists. split; [now rewrite <- app_assoc|].
       cbn [forallb app]. rewrite poll_event_receive by lia. reflexivity. }
  match goal with
  | |- context [Promise_all_map _ ?ms ?w2] =>
      destruct (Promise_all_map_invoke_worker E env ms w2)
        as (pushed & evs & Hd & _ & Hcalls);
      set (wr := snd (Promise_all_map (invoke_worker E env) ms w2)) in *
  end.
  destruct Hd as [_ _ Hl _ Hc _ Hb Hlh Hp Ht]. simpl in *.
  constructor; auto; try lia.
  eexists. split; [rewrite Hl, <- !app_assoc; reflexivity|].
  cbn [forallb app]. rewrite poll_event_receive by lia.
  cbn [poll_event call andb].
  apply forallb_forall. intros e Hin.
  apply (in_map call) in Hin. rewrite Hcalls in Hin.
  apply in_map_iff in Hin. destruct Hin as (m & Hm & _).
  unfold poll_event. now rewrite <- Hm.
Qed.

End AroundThePoll.

(** ** The loop *)

Lemma second_left (ms : Z) : (1 <=? ms / 1000) = (1000 <=? ms).
Proof.
  destruct (Z.leb_spec 1000 ms) as [Hge|Hlt].
  - apply Z.leb_le. apply Z.div_le_lower_bound; lia.
  - apply Z.leb_gt. apply Z.div_lt_upper_bound; lia.
Qed.

Section LoopFacts.

Variable E : Env.
Variable env : ProcessEnv.
Variable constants : Constants.
Variable awsRequestId : string.

Lemma poller_loop_exit (fuel : nat) (w : World) :
  remaining_at E (budget_reads w) < 1000 ->
  poller_loop E env constants awsRequestId fuel w = (ConditionFalse, tick_budget w).
Proof.
  intros Hlow.
  assert (Hcond : (1 <=? remaining_at E (budget_reads w) / 1000) = false).
  { rewrite second_left. apply Z.leb_gt. exact Hlow. }
  destruct fuel; simpl; rewrite Hcond; reflexivity.
Qed.

Lemma poller_loop_out_of_fuel (w : World) :
  1000 <= remaining_at E (budget_reads w) ->
  poller_loop E env constants awsRequestId 0 w = (OutOfFuel, tick_budget w).
Proof.
  intros Hhigh. simpl. rewrite second_left.
  destruct (Z.leb_spec 1000 (remaining_at E (budget_reads w))); [reflexivity|lia].
Qed.

Lemma poller_loop_step (fuel : nat) (w : World) :
  1000 <= remaining_at E (budget_reads w) ->
  poller_loop E env constants awsRequestId (S fuel) w =
    match pollQueue E env constants (set_polls (S (polls w)) (tick_budget w)) with
    | (Rejected _, w3) => (ReturnedFromCatch, w3)
    | (Resolved _, w3) =>
        poller_loop E env constants awsRequestId fuel
          (after_poll E env constants awsRequestId w3)
    end.
Proof.
  intros Hhigh. simpl. rewrite second_left.
  destruct (Z.leb_spec 1000 (remaining_at E (budget_reads w))); [|lia].
  destruct (pollQueue _ _ _ _) as [[u|e] w3]; [|reflexivity].
  unfold after_poll.
  destruct (maybeSendHeartbeatMetrics _ _ _ _ w3) as [r4 w4]. reflexivity.
Qed.

Lemma after_poll_bystander (w3 : World) :
  exists w5,
    bystander w3 w5
    /\ after_poll E env constants awsRequestId w3 = tick_budget w5.
Proof.
  eexists. split; [|reflexivity].
  eapply bystander_trans;
    [apply maybeSendHeartbeatMetrics_bystander | apply wait_bystander].
Qed.

(** A property kept by each part of an iteration is kept by the loop. *)
Lemma poller_loop_invariant (I : World -> Prop) :
  (forall w, I w -> I (tick_budget w)) ->
  (forall w n, I w -> I (set_polls n w)) ->
  (forall w, I w -> I (snd (pollQueue E env constants w))) ->
  (forall w w', bystander w w' -> I w -> I w') ->
  forall fuel w, I w -> I (snd (poller_loop E env constants awsRequestId fuel w)).
Proof.
  intros Hbudget Hpolls Hpoll Hby.
  induction fuel as [|fuel IH]; intros w Hw.
  - destruct (Z.lt_ge_cases (remaining_at E (budget_reads w)) 1000) as [Hlow|Hhigh].
    + rewrite poller_loop_exit by exact Hlow. now apply Hbudget.
    + rewrite poller_loop_out_of_fuel by exact Hhigh. now apply Hbudget.
  - destruct (Z.lt_ge_cases (remaining_at E (budget_reads w)) 1000) as [Hlow|Hhigh].
    + rewrite poller_loop_exit by exact Hlow. now apply Hbudget.
    + rewrite poller_loop_step by exact Hhigh.
      assert (H3 : I (snd (pollQueue E env constants
                             (set_polls (S (polls w)) (tick_budget w)))))
        by (apply Hpoll, Hpolls, Hbudget, Hw).
      destruct (pollQueue _ _ _ _) as [[u|e] w3]; simpl in H3; [|exact H3].
      apply IH. destruct (after_poll_bystander w3) as (w5 & Hby5 & ->).
      apply Hbudget. now apply (Hby w3).
Qed.

(** The loop does not touch the config table, and its requests are
    [poll_event]s. *)
Lemma poller_loop_events (fuel : nat) (w : World) :
  let w' := snd (poller_loop E env constants awsRequestId fuel w) in
  table w' = table w
  /\ exists evs, log w' = log w ++ evs /\ forallb poll_event evs = true.
Proof.
  apply (poller_loop_invariant
           (fun w' => table w' = table w
                      /\ exists evs, log w' = log w ++ evs
                                     /\ forallb poll_event evs = true)).
  - intros w1 H. exact H.
  - intros w1 n H. exact H.
  - intros w1 (Ht & evs & Hl & Hev).
    destruct (pollQueue_polled E env constants w1)
      as [_ _ Ht' _ _ (evs' & Hl' & Hev')].
    split; [congruence|]. exists (evs ++ evs'). split.
    + now rewrite Hl', Hl, app_assoc.
    + now rewrite forallb_app, Hev, Hev'.
  - intros w1 w2 [_ _ _ _ Ht' _ (evs' & Hl' & Hev')] (Ht & evs & Hl & Hev).
    split; [congruence|]. exists (evs ++ evs'). split.
    + now rewrite Hl', Hl, app_assoc.
    + rewrite forallb_app, Hev. now rewrite (quiet_is_poll_event evs' Hev').
  - split; [reflexivity|]. exists []. now rewrite app_nil_r.
Qed.

End LoopFacts.

(** The only receive a poll can issue: after both guards, with the wait
    and the maximum computed from the readings of this poll. *)
Lemma pollQueue_receive_request
    (E : Env) (env : ProcessEnv) (constants : Constants) (w : World) (e : Event) :
  let WaitTimeSeconds :=
    Z.min (MAX_LONG_POLL_PERIOD constants)
      (remaining_at E (budget_reads w) / 1000) in
  let now := Date_now_at E (clock_reads w) in
  let kept := filter (fun item => now - RATE_PERIOD constants <? item) (rateHits w) in
  In e (new_events w (snd (pollQueue E env constants w))) ->
  is_receive e = true ->
  0 < WaitTimeSeconds
  /\ exists url,
       call e = SqsReceiveMessage url WaitTimeSeconds
                  (RATE_LIMIT constants - Z.of_nat (List.length kept)).
Proof.
  intros WaitTimeSeconds now kept.
  rewrite pollQueue_run. cbv zeta. simpl rateHits.
  fold now. fold WaitTimeSeconds. fold kept.
  destruct (Z.leb_spec WaitTimeSeconds 0) as [|Hwait].
  { rewrite new_events_same by reflexivity. intros []. }
  destruct (Z.leb_spec (RATE_LIMIT constants - Z.of_nat (List.length kept)) 0).
  { rewrite new_events_same by reflexivity. intros []. }
  destruct (getQueueUrl_at E (requests w) (QUEUE_NAME env)) as [url|].
  2: { rewrite (new_events_app _ _ [_]) by reflexivity.
       intros [<-|[]]. discriminate. }
  destruct (receiveMessage_at E (S (requests w)) WaitTimeSeconds _)
    as [receiveResult|].
  2: { rewrite (new_events_app _ _ [_; _]) by (simpl; now rewrite <- app_assoc).
       intros [<-|[<-|[]]]; [discriminate|]. intros _.
       split; [exact Hwait | now exists url]. }
  match goal with
  | |- context [Promise_all_map _ ?ms ?w2] =>
      destruct (Promise_all_map_invoke_worker E env ms w2)
        as (pushed & evs & Hd & _ & Hcalls);
      set (wr := snd (Promise_all_map (invoke_worker E env) ms w2)) in *
  end.
  destruct Hd as [_ _ Hl _ _ _ _ _ _ _]. simpl in Hl.
  rewrite <- !app_assoc in Hl. simpl in Hl.
  rewrite (new_events_app _ _ _ Hl).
  intros [<-|[<-|Hin]]; [discriminate | intros _; split; [exact Hwait | now exists url] |].
  intros Hrecv. exfalso.
  apply (in_map call) in Hin. rewrite Hcalls in Hin.
  apply in_map_iff in Hin. destruct Hin as (m & Hm & _).
  unfold is_receive in Hrecv. rewrite <- Hm in Hrecv. discriminate.
Qed.

Lemma invocations_are_no_receives (fn : string) (evs : list Event) (ms : list Message) :
  map call evs = map (LambdaInvoke fn) ms -> filter is_receive evs = [].
Proof.
  revert ms. induction evs as [|e evs IH]; intros [|m ms] H; simpl in H;
    try discriminate; [reflexivity|].
  injection H as He Hrest. simpl. unfold is_receive at 1. rewrite He.
  now apply (IH ms).
Qed.

(** C7. In every poll the wait asked of the queue is
    [min(MAX_LONG_POLL_PERIOD, floor(remaining / 1000))], computed from the
    remaining time the poll reads.  If that is [<= 0] the poll returns at
    once without any request; every receive that a poll does issue
    carries that wait, which is at least 1 second and, in milliseconds,
    at most the remaining time.  If it is positive, the rate limit leaves
    room and the queue is found, the poll does issue a receive, exactly
    one, and it is the long poll for that wait.  And the loop ends after
    a poll that was out of time (the configured maximum being at least
    one second and the remaining time never growing): the iteration
    finishes with the heartbeat and the pause, the next loop check fails,
    and no receive was issued.  Every iteration that the loop enters
    runs this poll: the requests of the loop begin with those of the
    poll, made from the reading that follows the loop check. *)
Theorem long_poll_wait_within_budget
    (E : Env) (env : ProcessEnv) (constants : Constants) (awsRequestId : string) :
  (forall w : World,
      let remaining := remaining_at E (budget_reads w) in
      let waitSeconds :=
        Z.min (MAX_LONG_POLL_PERIOD constants) (remaining / 1000) in
      let w' := snd (pollQueue E env constants w) in
      (waitSeconds <= 0 ->
       pollQueue E env constants w = (Resolved tt, tick_budget w)
       /\ new_events w w' = [])
      /\ (forall e, In e (new_events w w') -> is_receive e = true ->
            (exists url mx, call e = SqsReceiveMessage url waitSeconds mx)
            /\ 1 <= waitSeconds
            /\ waitSeconds <= MAX_LONG_POLL_PERIOD constants
            /\ waitSeconds * 1000 <= remaining)
      /\ (0 < waitSeconds ->
          let now := Date_now_at E (clock_reads w) in
          let MaxNumberOfMessages :=
            RATE_LIMIT constants
            - Z.of_nat
                (List.length
                   (filter (fun item => now - RATE_PERIOD constants <? item)
                      (rateHits w))) in
          0 < MaxNumberOfMessages ->
          forall QueueUrl,
            getQueueUrl_at E (requests w) (QUEUE_NAME env) = Some QueueUrl ->
            exists ok,
              filter is_receive (new_events w w')
              = [{| call :=
                      SqsReceiveMessage QueueUrl waitSeconds MaxNumberOfMessages;
                    resolved := ok |}]))
  /\
  (1 <= MAX_LONG_POLL_PERIOD constants ->
   budget_non_increasing E ->
   forall (fuel : nat) (w0 : World),
      1 <= remaining_at E (budget_reads w0) / 1000 ->
      Z.min (MAX_LONG_POLL_PERIOD constants)
        (remaining_at E (S (budget_reads w0)) / 1000) <= 0 ->
      let r := poller_loop E env constants awsRequestId (S fuel) w0 in
      fst r = ConditionFalse
      /\ polls (snd r) = S (polls w0)
      /\ filter is_receive (new_events w0 (snd r)) = [])
  /\
  (forall (fuel : nat) (w0 : World),
      1 <= remaining_at E (budget_reads w0) / 1000 ->
      let w1 := set_polls (S (polls w0)) (tick_budget w0) in
      let r := poller_loop E env constants awsRequestId (S fuel) w0 in
      exists rest,
        new_events w0 (snd r)
        = new_events w1 (snd (pollQueue E env constants w1)) ++ rest).
Proof.
  split; [|split].
  - intros w remaining waitSeconds w'.
    assert (Hbounds : 0 < waitSeconds ->
              1 <= waitSeconds /\ waitSeconds <= MAX_LONG_POLL_PERIOD constants
              /\ waitSeconds * 1000 <= remaining).
    { intros Hpos. split; [lia|]. split; [apply Z.le_min_l|].
      assert (waitSeconds <= remaining / 1000) by apply Z.le_min_r.
      assert (1000 * (remaining / 1000) <= remaining)
        by (apply Z.mul_div_le; lia).
      lia. }
    split; [|split].
    + intros Hout. subst w'. rewrite pollQueue_run. cbv zeta.
      fold remaining. fold waitSeconds.
      destruct (Z.leb_spec waitSeconds 0); [|lia].
      split; [reflexivity | now apply new_events_same].
    + intros e Hin Hrecv.
      destruct (pollQueue_receive_request E env constants w e Hin Hrecv)
        as (Hpos & url & Hcall).
      split; [|now apply Hbounds].
      eexists url, _. exact Hcall.
    + intros Hpos now MaxNumberOfMessages Hroom QueueUrl Hurl. subst w'.
      rewrite pollQueue_run. cbv zeta. simpl rateHits.
      fold remaining. fold waitSeconds. fold now. fold MaxNumberOfMessages.
      destruct (Z.leb_spec waitSeconds 0); [lia|].
      destruct (Z.leb_spec MaxNumberOfMessages 0); [lia|].
      rewrite Hurl.
      destruct (receiveMessage_at E (S (requests w)) waitSeconds MaxNumberOfMessages)
        as [receiveResult|].
      2: { exists false.
           rewrite (new_events_app _ _ [_; _]) by (simpl; now rewrite <- app_assoc).
           reflexivity. }
      match goal with
      | |- context [Promise_all_map _ ?ms ?w2] =>
          destruct (Promise_all_map_invoke_worker E env ms w2)
            as (pushed & evs & Hd & _ & Hcalls);
          set (wr := snd (Promise_all_map (invoke_worker E env) ms w2)) in *
      end.
      destruct Hd as [_ _ Hl _ _ _ _ _ _ _]. simpl in Hl.
      rewrite <- !app_assoc in Hl. simpl in Hl.
      rewrite (new_events_app _ _ _ Hl).
      exists true. simpl.
      now rewrite (invocations_are_no_receives _ _ _ Hcalls).
  - intros Hmax Hbudget fuel w0 Hcheck Hout r. subst r.
    assert (Hhigh : 1000 <= remaining_at E (budget_reads w0)).
    { apply Z.leb_le. rewrite <- second_left. now apply Z.leb_le. }
    assert (Hlow : remaining_at E (S (budget_reads w0)) < 1000).
    { destruct (Z.lt_ge_cases (remaining_at E (S (budget_reads w0))) 1000)
        as [|Hge]; [assumption|].
      assert (1 <= remaining_at E (S (budget_reads w0)) / 1000)
        by (apply Z.div_le_lower_bound; lia).
      lia. }
    rewrite poller_loop_step by exact Hhigh.
    rewrite pollQueue_run. cbv zeta. simpl budget_reads.
    destruct (Z.leb_spec
                (Z.min (MAX_LONG_POLL_PERIOD constants)
                   (remaining_at E (S (budget_reads w0)) / 1000)) 0); [|lia].
    destruct (after_poll_bystander E env constants awsRequestId
                (tick_budget (set_polls (S (polls w0)) (tick_budget w0))))
      as (w5 & [_ _ Hb5 Hp5 _ _ (evs & Hl5 & Hq5)] & ->).
    simpl in Hb5, Hp5, Hl5.
    rewrite poller_loop_exit.
    + cbn [fst snd]. split; [reflexivity|]. split; [exact Hp5|].
      rewrite (new_events_app w0 _ evs) by exact Hl5.
      clear -Hq5. induction evs as [|e evs IH]; [reflexivity|].
      simpl in Hq5. apply andb_true_iff in Hq5. destruct Hq5 as [He Hevs].
      simpl. rewrite (IH Hevs).
      unfold quiet_event in He. unfold is_receive.
      destruct (call e); try discriminate; reflexivity.
    + simpl. rewrite Hb5.
      assert (remaining_at E (S (S (S (budget_reads w0))))
              <= remaining_at E (S (budget_reads w0)))
        by (apply Hbudget; lia).
      lia.
  - intros fuel w0 Hcheck w1 r. subst r.
    assert (Hhigh : 1000 <= remaining_at E (budget_reads w0)).
    { apply Z.leb_le. rewrite <- second_left. now apply Z.leb_le. }
    rewrite poller_loop_step by exact Hhigh. fold w1.
    destruct (pollQueue_polled E env constants w1)
      as [_ _ _ _ _ (evs1 & Hl1 & _)].
    rewrite (new_events_app w1 _ evs1 Hl1).
    destruct (pollQueue E env constants w1) as [[u|e] w3]; cbn [snd] in Hl1.
    + destruct (after_poll_bystander E env constants awsRequestId w3)
        as (w5 & [_ _ _ _ _ _ (evs2 & Hl2 & _)] & Hafter).
      destruct (poller_loop_events E env constants awsRequestId fuel
                  (after_poll E env constants awsRequestId w3))
        as (_ & evs3 & Hl3 & _).
      exists (evs2 ++ evs3). apply new_events_app.
      rewrite Hl3, Hafter. cbn [log tick_budget]. rewrite Hl2, Hl1.
      now rewrite <- !app_assoc.
    + exists []. rewrite app_nil_r. cbn [snd]. apply new_events_app. exact Hl1.
Qed.

Lemma sample_budget_non_increasing (budget : Z) (batch : list Message) :
  budget_non_increasing (Sample.healthy budget batch).
Proof.
  intros i j Hij. unfold Sample.healthy. cbn [remaining_at]. lia.
Qed.

Lemma long_poll_wait_within_budget_witness :
  let busy :=
    poller_loop (Sample.healthy 3000 [Sample.message "a"]) Sample.env
      Sample.constants "poller" 3 (initial_world []) in
  let r :=
    poller_loop (Sample.healthy 1300 []) Sample.env Sample.constants "poller"
      3 (initial_world []) in
  (exists ok later,
      filter is_receive (new_events (initial_world []) (snd busy))
      = {| call := SqsReceiveMessage "queue" 2 5; resolved := ok |} :: later)
  /\ fst r = ConditionFalse /\ polls (snd r) = 1%nat.
Proof.
  intros busy r. split.
  - destruct (long_poll_wait_within_budget (Sample.healthy 3000 [Sample.message "a"])
                Sample.env Sample.constants "poller")
      as (Hpoll & _ & Hiter).
    destruct (Hiter 2%nat (initial_world []) ltac:(vm_compute; discriminate))
      as (rest & Hrest).
    destruct (Hpoll (set_polls 1 (tick_budget (initial_world []))))
      as (_ & _ & Hissue).
    destruct (Hissue ltac:(vm_compute; reflexivity) ltac:(vm_compute; reflexivity)
                "queue"%string eq_refl)
      as (ok & Hok).
    exists ok, (filter is_receive rest).
    unfold busy. rewrite Hrest, filter_app.
    exact (f_equal (fun l => l ++ filter is_receive rest) Hok).
  - destruct (long_poll_wait_within_budget (Sample.healthy 1300 []) Sample.env
                Sample.constants "poller")
      as (_ & Hloop & _).
    destruct (Hloop ltac:(vm_compute; discriminate)
                (sample_budget_non_increasing 1300 []) 2%nat (initial_world []))
      as (Hexit & Hpolls & _).
    + vm_compute. discriminate.
    + vm_compute. discriminate.
    + split; [exact Hexit | exact Hpolls].
Defined.

Lemma poll_event_receive_ok (evs : list Event) :
  forallb poll_event evs = true -> forallb receive_ok evs = true.
Proof.
  induction evs as [|e evs IH]; simpl; [easy|].
  intros H. apply andb_true_iff in H. destruct H as [He Hevs].
  rewrite (IH Hevs), andb_true_r.
  unfold poll_event in He. unfold receive_ok.
  destruct (call e); try discriminate; auto.
Qed.

Lemma poll_event_no_release (evs : list Event) :
  forallb poll_event evs = true -> existsb is_release evs = false.
Proof.
  induction evs as [|e evs IH]; simpl; [easy|].
  intros H. apply andb_true_iff in H. destruct H as [He Hevs].
  rewrite (IH Hevs), orb_false_r.
  unfold poll_event in He. unfold is_release.
  destruct (call e); try discriminate; auto.
Qed.

Lemma strictly_decreasing_by (E : Env) :
  budget_strictly_decreasing E ->
  forall k n : nat, remaining_at E (n + k) <= remaining_at E n - Z.of_nat k.
Proof.
  intros Hdec. induction k as [|k IH]; intros n.
  - rewrite Nat.add_0_r. simpl. lia.
  - rewrite Nat.add_succ_r. specialize (Hdec (n + k)%nat).
    specialize (IH n). lia.
Qed.

Section Termination.

Variable E : Env.
Variable env : ProcessEnv.
Variable constants : Constants.
Variable awsRequestId : string.

Hypothesis Hdecreasing : budget_strictly_decreasing E.

Lemma poller_loop_bounded_aux (fuel : nat) :
  forall w : World,
    (Z.to_nat (remaining_at E (budget_reads w) - 999) <= fuel)%nat ->
    let r := poller_loop E env constants awsRequestId fuel w in
    fst r <> OutOfFuel
    /\ (polls (snd r)
        <= polls w + Z.to_nat (remaining_at E (budget_reads w) - 999))%nat
    /\ (fst r = ConditionFalse ->
        remaining_at E (budget_reads (snd r) - 1) < 1000).
Proof.
  induction fuel as [|fuel IH]; intros w Hfuel r; subst r;
    destruct (Z.lt_ge_cases (remaining_at E (budget_reads w)) 1000) as [Hlow|Hhigh].
  - rewrite poller_loop_exit by exact Hlow. simpl.
    rewrite Nat.sub_0_r. repeat split; [discriminate | lia | auto].
  - lia.
  - rewrite poller_loop_exit by exact Hlow. simpl.
    rewrite Nat.sub_0_r. repeat split; [discriminate | lia | auto].
  - rewrite poller_loop_step by exact Hhigh.
    pose proof (pollQueue_polled E env constants
                  (set_polls (S (polls w)) (tick_budget w))) as Hpolled.
    destruct (pollQueue _ _ _ _) as [[u|e] w3]; simpl snd in Hpolled.
    2: { destruct Hpolled as [_ Hp _ _ _ _]. simpl in Hp. simpl.
         repeat split; [discriminate | lia | discriminate]. }
    destruct Hpolled as [Hb3 Hp3 _ _ _ _]. simpl in Hb3, Hp3.
    destruct (after_poll_bystander E env constants awsRequestId w3)
      as (w5 & [_ _ Hb5 Hp5 _ _ _] & ->).
    assert (Hreads : budget_reads (tick_budget w5) = (budget_reads w + 3)%nat)
      by (simpl; lia).
    pose proof (strictly_decreasing_by E Hdecreasing 3 (budget_reads w)) as Hdrop.
    rewrite <- Hreads in Hdrop.
    specialize (IH (tick_budget w5)). cbv zeta in IH.
    destruct IH as (Hfin & Hcount & Hexit); [lia|].
    split; [exact Hfin|]. split; [|exact Hexit].
    simpl polls in Hcount. lia.
Qed.

End Termination.

(** C8, as amended.  For every sequence of remaining-time readings that
    strictly decreases, the loop runs a bounded number of iterations: with
    [budget] the reading at the first loop check, at most
    [budget - 999] of them (none if [budget < 1000]), and any fuel from
    that bound on lets the model run to the end of the loop.  The loop
    leaves through its condition at the first check that reads less than
    1000 ms, without doing anything more; every receive it has requested
    asked for a wait (and a maximum) of at least 1. *)
Theorem poller_loop_terminates
    (E : Env) (env : ProcessEnv) (constants : Constants) (awsRequestId : string)
    (w : World) (fuel : nat) :
  budget_strictly_decreasing E ->
  let budget := remaining_at E (budget_reads w) in
  (Z.to_nat (budget - 999) <= fuel)%nat ->
  let r := poller_loop E env constants awsRequestId fuel w in
  fst r <> OutOfFuel
  /\ (polls (snd r) <= polls w + Z.to_nat (budget - 999))%nat
  /\ (fst r = ConditionFalse ->
      remaining_at E (budget_reads (snd r) - 1) < 1000)
  /\ (budget < 1000 -> r = (ConditionFalse, tick_budget w))
  /\ forallb receive_ok (new_events w (snd r)) = true.
Proof.
  intros Hdec budget Hfuel r.
  destruct (poller_loop_bounded_aux E env constants awsRequestId Hdec fuel w Hfuel)
    as (Hfin & Hcount & Hexit).
  split; [exact Hfin|]. split; [exact Hcount|]. split; [exact Hexit|]. split.
  - intros Hlow. subst r. now apply poller_loop_exit.
  - destruct (poller_loop_events E env constants awsRequestId fuel w)
      as (_ & evs & Hlog & Hevs).
    subst r. rewrite (new_events_app _ _ _ Hlog).
    now apply poll_event_receive_ok.
Qed.

Lemma sample_budget_strictly_decreasing (budget : Z) (batch : list Message) :
  budget_strictly_decreasing (Sample.healthy budget batch).
Proof.
  intros i. unfold Sample.healthy. cbn [remaining_at]. lia.
Qed.

Lemma poller_loop_terminates_witness :
  let r :=
    poller_loop (Sample.healthy 1001 []) Sample.env Sample.constants "poller"
      2 (initial_world []) in
  fst r <> OutOfFuel /\ (polls (snd r) <= 2)%nat.
Proof.
  intros r.
  destruct (poller_loop_terminates (Sample.healthy 1001 []) Sample.env
              Sample.constants "poller" (initial_world []) 2
              (sample_budget_strictly_decreasing 1001 []))
    as (Hfin & Hcount & _).
  - vm_compute. lia.
  - split; [exact Hfin | exact Hcount].
Defined.

(** C8, as stated, fails: the readings 1500, 1499, -100, -101, ... strictly
    decrease; the loop starts an iteration at 1500, its poll waits one
    second on the queue, and the loop leaves only at the check that reads
    -101, not at one that still reads a positive remaining time. *)
Lemma poller_loop_exit_after_budget_spent :
  budget_strictly_decreasing Sample.budget_runs_out
  /\ ~ exits_before_budget_is_spent Sample.budget_runs_out Sample.env
         Sample.constants "poller" (initial_world []).
Proof.
  split.
  - intros i. unfold Sample.budget_runs_out. cbn [remaining_at].
    destruct i as [|[|i]]; lia.
  - intros (fuel & Hexit & Hpositive).
    destruct fuel as [|[|fuel]]; vm_compute in Hexit, Hpositive; discriminate.
Qed.

(** ** The handler *)

(** C1 (the code departs from it).  Whenever [pollQueue] throws, the
    handler returns from the catch at once: between its start and its
    return it has sent no request to release the mutex, and the table
    still holds the lock record this run wrote.  The release (and the
    final heartbeat) that follow the loop on the normal path are
    skipped. *)
Theorem pollQueue_error_skips_release
    (E : Env) (env : ProcessEnv) (constants : Constants) (awsRequestId : string)
    (fuel : nat) (w0 : World) :
  fst (handler E env constants awsRequestId fuel w0) = PollQueueFailed ->
  let w' := snd (handler E env constants awsRequestId fuel w0) in
  existsb is_release (new_events w0 w') = false
  /\ DynamoDB.get (table w') (EXECUTION_MUTEX_KEY constants)
     = Some (mutex_item constants (Date_now_at E (clock_reads w0))).
Proof.
  unfold handler.
  set (w := set_lastHeartbeat None (set_rateHits (fun _ => []) w0)).
  rewrite acquireExecutionLock_run. cbv zeta.
  destruct (dynamodb_down_at E (requests w)); [discriminate|].
  destruct (DynamoDB.put _ _ _) as [t'|] eqn:Hput; [|discriminate].
  set (w1 := record _ true (set_table t' _)).
  pose proof (sendHeartbeatMetrics_bystander E env awsRequestId w1) as Hhb.
  destruct (sendHeartbeatMetrics E env awsRequestId w1) as [r2 w2].
  simpl snd in Hhb.
  pose proof (poller_loop_events E env constants awsRequestId fuel (set_polls 0 w2))
    as Hloop.
  destruct (poller_loop E env constants awsRequestId fuel (set_polls 0 w2))
    as [[| |] w3]; simpl fst; simpl snd in *.
  - destruct (releaseExecutionLock E env constants w3) as [[u|e] w4];
      [|discriminate].
    destruct (sendHeartbeatMetrics E env awsRequestId w4). discriminate.
  - intros _. cbv zeta in Hloop. destruct Hloop as (Ht3 & evs3 & Hl3 & Hev3).
    destruct Hhb as [_ _ _ _ Ht2 _ (evs2 & Hl2 & Hev2)].
    simpl in Ht3, Hl3, Ht2, Hl2. split.
    + rewrite Hl2, <- !app_assoc in Hl3.
      rewrite (new_events_app w0 w3 _ Hl3).
      cbn [app existsb]. rewrite existsb_app.
      rewrite (poll_event_no_release evs3 Hev3).
      rewrite (poll_event_no_release evs2 (quiet_is_poll_event evs2 Hev2)).
      reflexivity.
    + rewrite Ht3, Ht2. unfold DynamoDB.put in Hput.
      destruct (DynamoDB.holds _ _); [|discriminate].
      injection Hput as <-.
      change (EXECUTION_MUTEX_KEY constants)
        with (DynamoDB.key (mutex_item constants (Date_now_at E (clock_reads w0)))).
      apply DynamoDBFacts.get_put.
  - discriminate.
Qed.

Lemma pollQueue_error_skips_release_witness :
  let run :=
    handler (Sample.receive_fails 3000) Sample.env Sample.constants "poller"
      10 (initial_world []) in
  fst run = PollQueueFailed
  /\ existsb is_release (new_events (initial_world []) (snd run)) = false
  /\ DynamoDB.get (table (snd run)) (EXECUTION_MUTEX_KEY Sample.constants)
     = Some {| DynamoDB.key := EXECUTION_MUTEX_KEY Sample.constants;
               DynamoDB.value := 50000 |}.
Proof.
  intros run. split; [vm_compute; reflexivity|].
  apply (pollQueue_error_skips_release (Sample.receive_fails 3000) Sample.env
           Sample.constants "poller" 10 (initial_world [])).
  vm_compute. reflexivity.
Defined.

(** ** The rate limiter *)

Lemma filter_filter_implied {A} (f g : A -> bool) (l : list A) :
  (forall a, f a = true -> g a = true) ->
  filter f (filter g l) = filter f l.
Proof.
  intros Himp. induction l as [|a l IH]; simpl; [reflexivity|].
  destruct (g a) eqn:Hg; simpl.
  - now rewrite IH.
  - destruct (f a) eqn:Hf; [|exact IH].
    apply Himp in Hf. congruence.
Qed.

Lemma filter_both_length {A} (f g : A -> bool) (l : list A) :
  (List.length (filter (fun a => f a && g a) l) <= List.length (filter f l))%nat.
Proof.
  induction l as [|a l IH]; simpl; [lia|].
  destruct (f a), (g a); simpl; lia.
Qed.

Lemma hits_within_app (period t : Z) (l1 l2 : list Z) :
  hits_within period t (l1 ++ l2)
  = hits_within period t l1 ++ hits_within period t l2.
Proof. unfold hits_within. apply filter_app. Qed.

Lemma hits_within_none_or_some (period t : Z) (l : list Z) :
  hits_within period t l = []
  \/ exists hit, In hit l /\ t - period < hit /\ hit <= t.
Proof.
  destruct (hits_within period t l) as [|hit rest] eqn:Hw; [now left|].
  right. exists hit.
  assert (Hin : In hit (hits_within period t l)) by (rewrite Hw; now left).
  unfold hits_within in Hin. apply filter_In in Hin. destruct Hin as [Hin Hb].
  apply andb_true_iff in Hb. destruct Hb as [Hlo Hhi].
  apply Z.ltb_lt in Hlo. apply Z.leb_le in Hhi. auto.
Qed.

Section RateFacts.

Variable E : Env.
Variable env : ProcessEnv.
Variable constants : Constants.

Hypothesis Hclock : clock_monotone E.
Hypothesis Hqueue : queue_honours_max E.

Lemma window_invariant_frame (w w' : World) :
  rateHits w' = rateHits w ->
  hitHistory w' = hitHistory w ->
  (clock_reads w <= clock_reads w')%nat ->
  window_invariant E constants w -> window_invariant E constants w'.
Proof.
  intros Hr Hh Hc (since & Hsince & Hsame & Hlen & Hlim).
  exists since. rewrite Hr, Hh.
  repeat split; auto. intros k Hk. apply Hsince. lia.
Qed.

Lemma window_invariant_bystander (w w' : World) :
  bystander w w' ->
  window_invariant E constants w -> window_invariant E constants w'.
Proof.
  intros [Hr Hh _ _ _ Hc _]. now apply window_invariant_frame.
Qed.

(** Pruning at the time just read keeps the invariant, with that time
    as the new [since]. *)
Lemma window_invariant_prune (w : World) :
  let now := Date_now_at E (clock_reads w) in
  let w1 :=
    set_rateHits (filter (fun item => now - RATE_PERIOD constants <? item))
      (tick_clock (tick_budget w)) in
  window_invariant E constants w ->
  (forall k : nat, (clock_reads w <= k)%nat -> now <= Date_now_at E k)
  /\ (forall x : Z,
        now - RATE_PERIOD constants <= x ->
        filter (fun hit => x <? hit) (hitHistory w1)
        = filter (fun hit => x <? hit) (rateHits w1))
  /\ Z.of_nat (List.length (rateHits w1)) <= RATE_LIMIT constants
  /\ rate_limited constants (hitHistory w1).
Proof.
  intros now w1 (since & Hsince & Hsame & Hlen & Hlim).
  assert (Hnow : since <= now) by (apply Hsince; lia).
  split; [intros k Hk; now apply Hclock|].
  split; [|split; [|exact Hlim]].
  - intros x Hx. simpl. rewrite filter_filter_implied.
    + apply Hsame. lia.
    + intros hit Hhit. apply Z.ltb_lt in Hhit. apply Z.ltb_lt. lia.
  - simpl.
    pose proof (filter_length_le
                  (fun item => now - RATE_PERIOD constants <? item) (rateHits w)).
    lia.
Qed.

(** Adding hits read off the clock, no more than the capacity allows. *)
Lemma window_invariant_push (now : Z) (w2 wr : World) (pushed : list Z)
    (evs : list Event) :
  (forall k : nat, (clock_reads w2 <= k)%nat -> now <= Date_now_at E k) ->
  (forall x : Z,
      now - RATE_PERIOD constants <= x ->
      filter (fun hit => x <? hit) (hitHistory w2)
      = filter (fun hit => x <? hit) (rateHits w2)) ->
  rate_limited constants (hitHistory w2) ->
  dispatched E w2 wr pushed evs ->
  Z.of_nat (List.length (rateHits w2)) + Z.of_nat (List.length pushed)
    <= RATE_LIMIT constants ->
  window_invariant E constants wr.
Proof.
  intros Hnow Hsame Hlim [Hr Hh _ Hp Hc _ _ _ _ _] Hroom.
  assert (Hsame' : forall x : Z,
             now - RATE_PERIOD constants <= x ->
             filter (fun hit => x <? hit) (hitHistory wr)
             = filter (fun hit => x <? hit) (rateHits wr)).
  { intros x Hx. rewrite Hh, Hr, !filter_app. f_equal. now apply Hsame. }
  assert (Hlen' : Z.of_nat (List.length (rateHits wr)) <= RATE_LIMIT constants).
  { rewrite Hr, length_app. lia. }
  exists now. split; [intros k Hk; apply Hnow; lia|].
  split; [exact Hsame'|]. split; [exact Hlen'|].
  intros t.
  destruct (hits_within_none_or_some (RATE_PERIOD constants) t pushed)
    as [Hnone|(hit & Hin & Hlo & Hhi)].
  - rewrite Hh, hits_within_app, Hnone, app_nil_r. apply Hlim.
  - assert (Hlate : now <= hit).
    { rewrite Hp in Hin. apply in_map_iff in Hin.
      destruct Hin as (k & <- & Hk). apply in_seq in Hk. apply Hnow. lia. }
    pose proof (filter_both_length (fun hit => t - RATE_PERIOD constants <? hit)
                  (fun hit => hit <=? t) (hitHistory wr)) as Hle.
    cbv beta in Hle. rewrite Hsame' in Hle by lia.
    unfold hits_within.
    pose proof (filter_length_le (fun hit => t - RATE_PERIOD constants <? hit)
                  (rateHits wr)).
    lia.
Qed.

Lemma pollQueue_window_invariant (w : World) :
  window_invariant E constants w ->
  window_invariant E constants (snd (pollQueue E env constants w)).
Proof.
  intros Hinv. rewrite pollQueue_run. cbv zeta.
  destruct (_ <=? 0).
  { simpl. revert Hinv. now apply window_invariant_frame. }
  destruct (window_invariant_prune w Hinv) as (Hnow & Hsame & Hlen & Hlim).
  set (now := Date_now_at E (clock_reads w)) in *.
  set (w1 := set_rateHits _ _) in *.
  assert (Hinv1 : window_invariant E constants w1).
  { exists now. repeat split; auto. intros k Hk. apply Hnow. simpl in Hk. lia. }
  set (MaxNumberOfMessages := _ - _).
  destruct (Z.leb_spec MaxNumberOfMessages 0) as [|Hmax]; [exact Hinv1|].
  destruct (getQueueUrl_at _ _ _) as [url|].
  2: { simpl. revert Hinv1. now apply window_invariant_frame. }
  destruct (receiveMessage_at _ _ _ _) as [receiveResult|] eqn:Hrecv.
  2: { simpl. revert Hinv1. now apply window_invariant_frame. }
  match goal with
  | |- context [Promise_all_map _ ?ms ?w2] =>
      destruct (Promise_all_map_invoke_worker E env ms w2)
        as (pushed & evs & Hd & Hcount & _);
      pose proof (deserializable_length E ms) as Hms;
      apply (window_invariant_push now w2 _ pushed evs); auto
  end.
  - intros k Hk. apply Hnow. simpl in Hk. lia.
  - simpl rateHits. rewrite Hcount.
    destruct receiveResult as [ms|].
    + apply Hqueue in Hrecv; [|lia]. subst MaxNumberOfMessages w1.
      simpl rateHits in Hrecv. lia.
    + subst MaxNumberOfMessages w1. simpl rateHits in Hmax.
      change (deserializable E []) with (@nil Message). simpl List.length. lia.
Qed.

End RateFacts.

Lemma rate_limited_earlier (constants : Constants) (earlier later : list Z) :
  rate_limited constants (earlier ++ later) -> rate_limited constants earlier.
Proof.
  intros Hlim t. specialize (Hlim t).
  rewrite hits_within_app, length_app in Hlim. lia.
Qed.

Lemma receive_ok_extend (w w' : World) (evs : list Event) :
  log w' = log w ++ evs ->
  forallb receive_ok evs = true ->
  forallb receive_ok (log w) = true ->
  forallb receive_ok (log w') = true.
Proof.
  intros Hl Hevs Hlog. now rewrite Hl, forallb_app, Hlog, Hevs.
Qed.

Section HandlerRate.

Variable E : Env.
Variable env : ProcessEnv.
Variable constants : Constants.
Variable awsRequestId : string.

Hypothesis Hclock : clock_monotone E.
Hypothesis Hqueue : queue_honours_max E.

Let run_invariant := run_invariant E constants.

Lemma run_invariant_bystander (w w' : World) :
  bystander w w' -> run_invariant w -> run_invariant w'.
Proof.
  intros Hby [Hwin Hlog]. split.
  - now apply (window_invariant_bystander E constants w).
  - destruct Hby as [_ _ _ _ _ _ (evs & Hl & Hq)].
    apply (receive_ok_extend w w' evs Hl); [|exact Hlog].
    now apply poll_event_receive_ok, quiet_is_poll_event.
Qed.

Lemma run_invariant_pollQueue (w : World) :
  run_invariant w -> run_invariant (snd (pollQueue E env constants w)).
Proof.
  intros [Hwin Hlog]. split.
  - now apply pollQueue_window_invariant.
  - destruct (pollQueue_polled E env constants w) as [_ _ _ _ _ (evs & Hl & Hp)].
    apply (receive_ok_extend w _ evs Hl); [|exact Hlog].
    now apply poll_event_receive_ok.
Qed.

Lemma run_invariant_frame (w w' : World) (evs : list Event) :
  rateHits w' = rateHits w ->
  hitHistory w' = hitHistory w ->
  (clock_reads w <= clock_reads w')%nat ->
  log w' = log w ++ evs ->
  forallb receive_ok evs = true ->
  run_invariant w -> run_invariant w'.
Proof.
  intros Hr Hh Hc Hl Hevs [Hwin Hlog]. split.
  - now apply (window_invariant_frame E constants w).
  - now apply (receive_ok_extend w w' evs).
Qed.

Lemma run_invariant_acquire (w : World) :
  run_invariant w ->
  run_invariant (snd (acquireExecutionLock E env constants w)).
Proof.
  rewrite acquireExecutionLock_run. cbv zeta.
  destruct (dynamodb_down_at E (requests w)); [|destruct (DynamoDB.put _ _ _)];
    simpl snd;
    (eapply (run_invariant_frame w);
     [reflexivity | reflexivity | simpl; lia | simpl; reflexivity | reflexivity]).
Qed.

Lemma run_invariant_release (w : World) :
  run_invariant w ->
  run_invariant (snd (releaseExecutionLock E env constants w)).
Proof.
  unfold releaseExecutionLock, DBD_delete.
  destruct (dynamodb_down_at E (requests w)); simpl snd;
    (eapply (run_invariant_frame w);
     [reflexivity | reflexivity | simpl; lia | simpl; reflexivity | reflexivity]).
Qed.

Lemma run_invariant_loop (fuel : nat) (w : World) :
  run_invariant w ->
  run_invariant (snd (poller_loop E env constants awsRequestId fuel w)).
Proof.
  apply (poller_loop_invariant E env constants awsRequestId run_invariant).
  - intros w1. apply (run_invariant_frame w1 _ []); simpl; auto.
    now rewrite app_nil_r.
  - intros w1 n. apply (run_invariant_frame w1 _ []); simpl; auto.
    now rewrite app_nil_r.
  - exact run_invariant_pollQueue.
  - exact run_invariant_bystander.
Qed.

Lemma run_invariant_handler (fuel : nat) (tbl : DynamoDB.Table) :
  0 <= RATE_LIMIT constants ->
  run_invariant (snd (handler E env constants awsRequestId fuel (initial_world tbl))).
Proof.
  intros Hlimit. unfold handler.
  set (w := set_lastHeartbeat None _).
  assert (Hw : run_invariant w).
  { split; [|reflexivity]. exists (Date_now_at E 0). simpl.
    split; [intros k _; apply Hclock; lia|].
    split; [reflexivity|]. split; [exact Hlimit|].
    intros t. exact Hlimit. }
  apply run_invariant_acquire in Hw.
  destruct (acquireExecutionLock E env constants w) as [[u|e] w1];
    simpl snd in Hw; [|exact Hw].
  apply (run_invariant_bystander w1 _
           (sendHeartbeatMetrics_bystander E env awsRequestId w1)) in Hw.
  destruct (sendHeartbeatMetrics E env awsRequestId w1) as [r2 w2].
  simpl snd in Hw.
  assert (Hw2 : run_invariant (set_polls 0 w2)).
  { revert Hw. apply (run_invariant_frame w2 _ []); simpl; auto.
    now rewrite app_nil_r. }
  apply (run_invariant_loop fuel) in Hw2.
  destruct (poller_loop E env constants awsRequestId fuel (set_polls 0 w2))
    as [[| |] w3]; simpl snd in Hw2; [|exact Hw2|exact Hw2].
  apply run_invariant_release in Hw2.
  destruct (releaseExecutionLock E env constants w3) as [[u'|e'] w4];
    simpl snd in Hw2; [|exact Hw2].
  apply (run_invariant_bystander w4 _
           (sendHeartbeatMetrics_bystander E env awsRequestId w4)) in Hw2.
  destruct (sendHeartbeatMetrics E env awsRequestId w4) as [r5 w5].
  exact Hw2.
Qed.

End HandlerRate.

(** C2. Take a run of the handler from a fresh world, followed for any
    number of iterations of the loop, with a clock that does not go back
    and a queue that returns no more messages than asked for, and a
    non-negative [RATE_LIMIT].  At the end, and at every earlier moment
    (for every initial part of the history of recorded hits), no window
    [(t - RATE_PERIOD, t]] holds more than [RATE_LIMIT] hits.  Every
    receive in the log was asked with a maximum (the available capacity)
    of at least 1: a capacity of zero or less is never used. *)
Theorem rate_limit_respected
    (E : Env) (env : ProcessEnv) (constants : Constants) (awsRequestId : string)
    (fuel : nat) (tbl : DynamoDB.Table) :
  clock_monotone E ->
  queue_honours_max E ->
  0 <= RATE_LIMIT constants ->
  let w' := snd (handler E env constants awsRequestId fuel (initial_world tbl)) in
  (forall earlier later : list Z,
      hitHistory w' = earlier ++ later ->
      forall t : Z,
        Z.of_nat (List.length (hits_within (RATE_PERIOD constants) t earlier))
        <= RATE_LIMIT constants)
  /\ (forall url wt mx ok,
        In {| call := SqsReceiveMessage url wt mx; resolved := ok |} (log w') ->
        1 <= mx)
  /\ Z.of_nat (List.length (rateHits w')) <= RATE_LIMIT constants.
Proof.
  intros Hclock Hqueue Hlimit w'.
  destruct (run_invariant_handler E env constants awsRequestId Hclock Hqueue
              fuel tbl Hlimit)
    as [(since & _ & _ & Hlen & Hlim) Hlog].
  fold w' in Hlen, Hlim, Hlog.
  split; [|split; [|exact Hlen]].
  - intros earlier later Hsplit. rewrite Hsplit in Hlim.
    exact (rate_limited_earlier constants earlier later Hlim).
  - intros url wt mx ok Hin.
    rewrite forallb_forall in Hlog. specialize (Hlog _ Hin).
    unfold receive_ok in Hlog. simpl in Hlog.
    apply andb_true_iff in Hlog. destruct Hlog as [_ Hmx].
    now apply Z.leb_le.
Qed.

Lemma sample_clock_monotone (budget : Z) (batch : list Message) :
  clock_monotone (Sample.healthy budget batch).
Proof.
  intros i j Hij. unfold Sample.healthy. cbn [Date_now_at]. lia.
Qed.

Lemma sample_queue_honours_max (budget : Z) (batch : list Message) :
  queue_honours_max (Sample.healthy budget batch).
Proof.
  intros n wt mx ms Hmx H. unfold Sample.healthy in H. cbn [receiveMessage_at] in H.
  injection H as <-. rewrite length_firstn. lia.
Qed.

Lemma rate_limit_respected_witness :
  let batch := [Sample.message "a"; Sample.message "b"; Sample.message "c"] in
  let w' :=
    snd (handler (Sample.healthy 5000 batch) Sample.env Sample.constants
           "poller" 10 (initial_world [])) in
  Z.of_nat (List.length (hits_within 1000 100 (hitHistory w'))) <= 5
  /\ Z.of_nat (List.length (rateHits w')) <= 5.
Proof.
  intros batch w'.
  destruct (rate_limit_respected (Sample.healthy 5000 batch) Sample.env
              Sample.constants "poller" 10 []
              (sample_clock_monotone 5000 batch)
              (sample_queue_honours_max 5000 batch))
    as (Hwindow & _ & Hlen).
  - vm_compute. discriminate.
  - split; [|exact Hlen].
    apply (Hwindow (hitHistory w') []). now rewrite app_nil_r.
Defined.


(** * Further properties of the poller *)

(** ** The config table, continued *)

Module DynamoDBMore.
Import DynamoDB.

Lemma get_remove_same (tbl : Table) (k : string) : get (remove tbl k) k = None.
Proof.
  unfold get, remove. induction tbl as [|it tbl IH]; simpl; [reflexivity|].
  destruct (has_key k it) eqn:Hk; simpl; [exact IH|]. now rewrite Hk.
Qed.

Lemma get_remove_other (tbl : Table) (k k' : string) :
  k <> k' -> get (remove tbl k') k = get tbl k.
Proof.
  intros Hneq. unfold get, remove.
  induction tbl as [|it tbl IH]; simpl; [reflexivity|].
  destruct (has_key k' it) eqn:Hk'; destruct (has_key k it) eqn:Hk; simpl;
    rewrite ?Hk; auto.
  unfold has_key in Hk, Hk'.
  apply String.eqb_eq in Hk, Hk'. congruence.
Qed.

Lemma remove_absent (tbl : Table) (k : string) :
  get tbl k = None -> remove tbl k = tbl.
Proof.
  unfold get, remove. induction tbl as [|it tbl IH]; simpl; [reflexivity|].
  destruct (has_key k it); simpl; [discriminate|].
  intros H. now rewrite IH.
Qed.

Lemma get_put_other (tbl tbl' : Table) (it : Item) (c : Condition) (k : string) :
  k <> key it -> put tbl it c = Some tbl' -> get tbl' k = get tbl k.
Proof.
  intros Hneq. unfold put. destruct (holds c _); [|discriminate].
  intros H. injection H as <-.
  unfold get at 1. simpl. unfold has_key at 1.
  destruct (String.eqb_spec (key it) k); [congruence|].
  now apply get_remove_other.
Qed.

End DynamoDBMore.

(** ** The handler around the loop *)

Section HandlerPaths.

Variable E : Env.
Variable env : ProcessEnv.
Variable constants : Constants.
Variable awsRequestId : string.

(** The handler, path by path: the worlds it goes through. *)
Lemma handler_run (fuel : nat) (w0 : World) :
  let w := set_lastHeartbeat None (set_rateHits (fun _ => []) w0) in
  handler E env constants awsRequestId fuel w0 =
    match acquireExecutionLock E env constants w with
    | (Rejected _, w1) => (MutexNotAcquired, w1)
    | (Resolved _, w1) =>
        let w2 := set_polls 0 (snd (sendHeartbeatMetrics E env awsRequestId w1)) in
        match poller_loop E env constants awsRequestId fuel w2 with
        | (ReturnedFromCatch, w3) => (PollQueueFailed, w3)
        | (OutOfFuel, w3) => (Unfinished, w3)
        | (ConditionFalse, w3) =>
            match releaseExecutionLock E env constants w3 with
            | (Rejected _, w4) => (MutexNotReleased, w4)
            | (Resolved _, w4) =>
                (Completed, snd (sendHeartbeatMetrics E env awsRequestId w4))
            end
        end
    end.
Proof.
  cbv zeta. unfold handler.
  destruct (acquireExecutionLock _ _ _ _) as [[u|e] w1]; [|reflexivity].
  destruct (sendHeartbeatMetrics E env awsRequestId w1) as [r2 w2]. simpl snd.
  destruct (poller_loop _ _ _ _ _ _) as [[| |] w3]; try reflexivity.
  destruct (releaseExecutionLock _ _ _ _) as [[u'|e'] w4]; [|reflexivity].
  destruct (sendHeartbeatMetrics E env awsRequestId w4). reflexivity.
Qed.

Lemma releaseExecutionLock_run (w : World) :
  let c := DbdDelete (CONFIG_TABLE env) (EXECUTION_MUTEX_KEY constants) in
  releaseExecutionLock E env constants w =
    if dynamodb_down_at E (requests w) then
      (Rejected ServiceError, record c false w)
    else
      (Resolved tt,
       record c true
         (set_table (DynamoDB.delete (table w) (EXECUTION_MUTEX_KEY constants)) w)).
Proof. reflexivity. Qed.

End HandlerPaths.

(** X1. When the mutex cannot be acquired, because the lock is held (its
    record is not yet expired) or because the table cannot be reached,
    the handler returns at once: its only request is the refused put, it
    sends no heartbeat and polls nothing, and the table is as it was. *)
Theorem handler_fails_closed
    (E : Env) (env : ProcessEnv) (constants : Constants) (awsRequestId : string)
    (fuel : nat) (w0 : World) :
  let now1 := Date_now_at E (clock_reads w0) in
  let now2 := Date_now_at E (S (clock_reads w0)) in
  dynamodb_down_at E (requests w0) = true
  \/ ~ lock_free (table w0) (EXECUTION_MUTEX_KEY constants) now2 ->
  let run := handler E env constants awsRequestId fuel w0 in
  fst run = MutexNotAcquired
  /\ new_events w0 (snd run)
     = [{| call := DbdPut (CONFIG_TABLE env) (mutex_item constants now1)
                     (mutex_condition constants now2);
           resolved := false |}]
  /\ table (snd run) = table w0
  /\ polls (snd run) = polls w0
  /\ hitHistory (snd run) = hitHistory w0.
Proof.
  intros now1 now2 Hblocked run. subst run.
  rewrite handler_run. cbv zeta. rewrite acquireExecutionLock_run. cbv zeta.
  simpl requests. simpl table. simpl clock_reads. fold now1 now2.
  assert (Hrefused :
            dynamodb_down_at E (requests w0) = false ->
            DynamoDB.put (table w0) (mutex_item constants now1)
              (mutex_condition constants now2) = None).
  { intros Hup. destruct Hblocked as [Hdown|Hheld]; [congruence|].
    unfold DynamoDB.put.
    change (DynamoDB.key (mutex_item constants now1))
      with (EXECUTION_MUTEX_KEY constants).
    destruct (DynamoDB.holds _ _) eqn:Hholds; [|reflexivity].
    exfalso. apply Hheld. now apply mutex_condition_free. }
  destruct (dynamodb_down_at E (requests w0)).
  - simpl. repeat split. now apply new_events_app.
  - rewrite (Hrefused eq_refl). simpl. repeat split. now apply new_events_app.
Qed.

Lemma handler_fails_closed_witness :
  let held :=
    [{| DynamoDB.key := EXECUTION_MUTEX_KEY Sample.constants;
        DynamoDB.value := 40000 |}] in
  let run :=
    handler (Sample.healthy 3000 []) Sample.env Sample.constants "poller" 5
      (initial_world held) in
  fst run = MutexNotAcquired /\ table (snd run) = held.
Proof.
  intros held run.
  destruct (handler_fails_closed (Sample.healthy 3000 []) Sample.env
              Sample.constants "poller" 5 (initial_world held))
    as (Hexit & _ & Htable & _).
  - right. vm_compute. intros H. discriminate H.
  - split; [exact Hexit | exact Htable].
Defined.

Lemma records_remove_same (tbl : DynamoDB.Table) (k : string) :
  DynamoDB.records (DynamoDB.remove tbl k) k = [].
Proof.
  apply DynamoDBFacts.records_absent. intros Hin.
  apply DynamoDBFacts.keys_remove in Hin. now destruct Hin.
Qed.

(** X2. When the release of the mutex fails, the handler returns without
    the final heartbeat: the refused delete is its last request, and the
    lock record this run wrote is still in the table. *)
Theorem handler_release_failure
    (E : Env) (env : ProcessEnv) (constants : Constants) (awsRequestId : string)
    (fuel : nat) (w0 : World) :
  let run := handler E env constants awsRequestId fuel w0 in
  fst run = MutexNotReleased ->
  (exists evs,
      new_events w0 (snd run)
      = evs ++ [{| call := DbdDelete (CONFIG_TABLE env)
                             (EXECUTION_MUTEX_KEY constants);
                   resolved := false |}])
  /\ DynamoDB.get (table (snd run)) (EXECUTION_MUTEX_KEY constants)
     = Some (mutex_item constants (Date_now_at E (clock_reads w0))).
Proof.
  intros run. subst run. rewrite handler_run. cbv zeta.
  set (w := set_lastHeartbeat None (set_rateHits (fun _ => []) w0)).
  rewrite acquireExecutionLock_run. cbv zeta.
  destruct (dynamodb_down_at E (requests w)); [discriminate|].
  destruct (DynamoDB.put _ _ _) as [t'|] eqn:Hput; [|discriminate].
  set (w1 := record _ true (set_table t' _)).
  pose proof (sendHeartbeatMetrics_bystander E env awsRequestId w1) as Hhb.
  revert Hhb. generalize (snd (sendHeartbeatMetrics E env awsRequestId w1)).
  intros w2 Hhb.
  pose proof (poller_loop_events E env constants awsRequestId fuel (set_polls 0 w2))
    as Hloop.
  destruct (poller_loop E env constants awsRequestId fuel (set_polls 0 w2))
    as [[| |] w3]; cbn [fst snd] in *; try discriminate.
  rewrite releaseExecutionLock_run. cbv zeta.
  destruct (dynamodb_down_at E (requests w3)); [|discriminate].
  intros _. cbn [snd].
  destruct Hloop as (Ht3 & evs3 & Hl3 & _).
  destruct Hhb as [_ _ _ _ Ht2 _ (evs2 & Hl2 & _)].
  cbn [table log set_polls] in Ht3, Hl3.
  assert (Hl1 : exists e1, log w1 = log w0 ++ [e1]) by (eexists; reflexivity).
  destruct Hl1 as (e1 & Hl1).
  assert (Ht1 : table w1 = t') by reflexivity.
  split.
  - exists ([e1] ++ evs2 ++ evs3). apply new_events_app.
    cbn [log record]. rewrite Hl3, Hl2, Hl1, !app_assoc. reflexivity.
  - cbn [table record]. rewrite Ht3, Ht2, Ht1. unfold DynamoDB.put in Hput.
    destruct (DynamoDB.holds _ _); [|discriminate].
    injection Hput as <-.
    change (EXECUTION_MUTEX_KEY constants)
      with (DynamoDB.key (mutex_item constants (Date_now_at E (clock_reads w0)))).
    apply DynamoDBFacts.get_put.
Qed.

Lemma handler_release_failure_witness :
  let run :=
    handler (Scenario.table_lost 900) Sample.env Sample.constants "poller" 5
      (initial_world []) in
  fst run = MutexNotReleased
  /\ DynamoDB.get (table (snd run)) (EXECUTION_MUTEX_KEY Sample.constants)
     = Some {| DynamoDB.key := EXECUTION_MUTEX_KEY Sample.constants;
               DynamoDB.value := 50000 |}.
Proof.
  intros run. split; [vm_compute; reflexivity|].
  apply (handler_release_failure (Scenario.table_lost 900) Sample.env
           Sample.constants "poller" 5 (initial_world [])).
  vm_compute. reflexivity.
Defined.

(** X3. Whatever way the handler returns, the records of the config table
    under keys other than the mutex key are as they were; and after a
    completed run the table holds no record under the mutex key. *)
Theorem handler_table_effect
    (E : Env) (env : ProcessEnv) (constants : Constants) (awsRequestId : string)
    (fuel : nat) (w0 : World) :
  let run := handler E env constants awsRequestId fuel w0 in
  (forall k : string,
      k <> EXECUTION_MUTEX_KEY constants ->
      DynamoDB.get (table (snd run)) k = DynamoDB.get (table w0) k)
  /\ (fst run = Completed ->
      DynamoDB.get (table (snd run)) (EXECUTION_MUTEX_KEY constants) = None
      /\ DynamoDB.records (table (snd run)) (EXECUTION_MUTEX_KEY constants) = []).
Proof.
  intros run. subst run. rewrite handler_run. cbv zeta.
  set (w := set_lastHeartbeat None (set_rateHits (fun _ => []) w0)).
  rewrite acquireExecutionLock_run. cbv zeta.
  destruct (dynamodb_down_at E (requests w)).
  { split; [reflexivity | discriminate]. }
  destruct (DynamoDB.put _ _ _) as [t'|] eqn:Hput.
  2: { split; [reflexivity | discriminate]. }
  set (w1 := record _ true (set_table t' _)).
  assert (Ht1 : forall k, k <> EXECUTION_MUTEX_KEY constants ->
                          DynamoDB.get (table w1) k = DynamoDB.get (table w0) k).
  { intros k Hk.
    apply (DynamoDBMore.get_put_other (table w) t'
             (mutex_item constants (Date_now_at E (clock_reads w)))
             (mutex_condition constants (Date_now_at E (S (clock_reads w)))) k);
      [exact Hk | exact Hput]. }
  pose proof (sendHeartbeatMetrics_bystander E env awsRequestId w1) as Hhb.
  revert Hhb. generalize (snd (sendHeartbeatMetrics E env awsRequestId w1)).
  intros w2 [_ _ _ _ Ht2 _ _].
  pose proof (poller_loop_events E env constants awsRequestId fuel (set_polls 0 w2))
    as (Ht3 & _).
  cbn [table set_polls] in Ht3.
  destruct (poller_loop E env constants awsRequestId fuel (set_polls 0 w2))
    as [[| |] w3]; cbn [fst snd] in *.
  - rewrite releaseExecutionLock_run. cbv zeta.
    destruct (dynamodb_down_at E (requests w3)); cbn [fst snd].
    + split; [|discriminate]. intros k Hk. cbn [table record].
      rewrite Ht3, Ht2. now apply Ht1.
    + pose proof (sendHeartbeatMetrics_bystander E env awsRequestId
                    (record (DbdDelete (CONFIG_TABLE env) (EXECUTION_MUTEX_KEY constants))
                       true
                       (set_table
                          (DynamoDB.delete (table w3) (EXECUTION_MUTEX_KEY constants))
                          w3))) as [_ _ _ _ Ht5 _ _].
      rewrite Ht5. cbn [table record set_table]. unfold DynamoDB.delete. split.
      * intros k Hk. rewrite DynamoDBMore.get_remove_other by exact Hk.
        rewrite Ht3, Ht2. now apply Ht1.
      * intros _. split;
          [apply DynamoDBMore.get_remove_same | apply records_remove_same].
  - split; [|discriminate]. intros k Hk. rewrite Ht3, Ht2. now apply Ht1.
  - split; [|discriminate]. intros k Hk. rewrite Ht3, Ht2. now apply Ht1.
Qed.

Lemma handler_table_effect_witness :
  let other := {| DynamoDB.key := "hitrate"; DynamoDB.value := 7 |} in
  let run :=
    handler (Sample.healthy 900 []) Sample.env Sample.constants "poller" 5
      (initial_world [other]) in
  DynamoDB.get (table (snd run)) "hitrate" = Some other
  /\ DynamoDB.get (table (snd run)) (EXECUTION_MUTEX_KEY Sample.constants) = None.
Proof.
  intros other run.
  destruct (handler_table_effect (Sample.healthy 900 []) Sample.env
              Sample.constants "poller" 5 (initial_world [other]))
    as (Hothers & Hdone).
  split.
  - rewrite Hothers; [reflexivity | vm_compute; discriminate].
  - apply Hdone. vm_compute. reflexivity.
Defined.

(** X4. [releaseExecutionLock] is an unconditional delete: when the table
    is reached it succeeds whether or not a record is there, leaves no
    record under the mutex key, and changes nothing when there was none;
    so releasing a second time is not an error and has no effect. *)
Theorem releaseExecutionLock_idempotent
    (E : Env) (env : ProcessEnv) (constants : Constants) (w : World) :
  dynamodb_down_at E (requests w) = false ->
  let KEY := EXECUTION_MUTEX_KEY constants in
  let released := releaseExecutionLock E env constants w in
  fst released = Resolved tt
  /\ DynamoDB.get (table (snd released)) KEY = None
  /\ (DynamoDB.get (table w) KEY = None -> table (snd released) = table w)
  /\ (forall (E2 : Env) (env2 : ProcessEnv) (w2 : World),
        table w2 = table (snd released) ->
        dynamodb_down_at E2 (requests w2) = false ->
        fst (releaseExecutionLock E2 env2 constants w2) = Resolved tt
        /\ table (snd (releaseExecutionLock E2 env2 constants w2))
           = table (snd released)).
Proof.
  intros Hup KEY released. subst released.
  rewrite releaseExecutionLock_run. cbv zeta. rewrite Hup.
  cbn [fst snd table record set_table]. unfold DynamoDB.delete. fold KEY.
  split; [reflexivity|].
  split; [apply DynamoDBMore.get_remove_same|].
  split; [apply DynamoDBMore.remove_absent|].
  intros E2 env2 w2 Htbl Hup2.
  rewrite releaseExecutionLock_run. cbv zeta. rewrite Hup2.
  cbn [fst snd table record set_table]. split; [reflexivity|].
  unfold DynamoDB.delete. fold KEY. rewrite Htbl.
  apply DynamoDBMore.remove_absent, DynamoDBMore.get_remove_same.
Qed.

Lemma releaseExecutionLock_idempotent_witness :
  let released :=
    releaseExecutionLock (Sample.healthy 3000 []) Sample.env Sample.constants
      (initial_world []) in
  fst released = Resolved tt /\ table (snd released) = [].
Proof.
  intros released.
  destruct (releaseExecutionLock_idempotent (Sample.healthy 3000 [])
              Sample.env Sample.constants (initial_world []) eq_refl)
    as (Hok & _ & Hsame & _).
  split; [exact Hok | apply Hsame; reflexivity].
Defined.

(** X5. The release does not check who holds the lock: whatever record
    the table holds under the mutex key, be it a lock another instance
    wrote and that is still valid, it is gone after a release, and the
    next attempt of any instance to acquire the mutex succeeds. *)
Theorem releaseExecutionLock_ignores_owner
    (E : Env) (env : ProcessEnv) (constants : Constants) (w : World)
    (EB : Env) (envB : ProcessEnv) (wB : World) :
  dynamodb_down_at E (requests w) = false ->
  dynamodb_down_at EB (requests wB) = false ->
  table wB = table (snd (releaseExecutionLock E env constants w)) ->
  let acquired := acquireExecutionLock EB envB constants wB in
  fst acquired = Resolved tt
  /\ DynamoDB.records (table (snd acquired)) (EXECUTION_MUTEX_KEY constants)
     = [mutex_item constants (Date_now_at EB (clock_reads wB))].
Proof.
  intros Hup HupB Htbl acquired. subst acquired.
  rewrite releaseExecutionLock_run in Htbl. cbv zeta in Htbl.
  rewrite Hup in Htbl. cbn [snd table record set_table] in Htbl.
  rewrite acquireExecutionLock_run. cbv zeta. rewrite HupB.
  unfold DynamoDB.put.
  change (DynamoDB.key (mutex_item constants (Date_now_at EB (clock_reads wB))))
    with (EXECUTION_MUTEX_KEY constants).
  assert (Hfree : lock_free (table wB) (EXECUTION_MUTEX_KEY constants)
                    (Date_now_at EB (S (clock_reads wB)))).
  { unfold lock_free. rewrite Htbl. unfold DynamoDB.delete.
    now rewrite DynamoDBMore.get_remove_same. }
  apply mutex_condition_free in Hfree. rewrite Hfree.
  cbn [fst snd table record set_table]. split; [reflexivity|].
  change (EXECUTION_MUTEX_KEY constants)
    with (DynamoDB.key (mutex_item constants (Date_now_at EB (clock_reads wB)))).
  apply DynamoDBFacts.records_put.
Qed.

Lemma releaseExecutionLock_ignores_owner_witness :
  let held :=
    [{| DynamoDB.key := EXECUTION_MUTEX_KEY Sample.constants;
        DynamoDB.value := 40000 |}] in
  let E := Sample.healthy 3000 [] in
  let released :=
    releaseExecutionLock E Sample.env Sample.constants (initial_world held) in
  fst (acquireExecutionLock E Sample.env Sample.constants
         (set_table (table (snd released)) (initial_world held)))
  = Resolved tt.
Proof.
  intros held E released.
  apply (releaseExecutionLock_ignores_owner E Sample.env Sample.constants
           (initial_world held) E Sample.env
           (set_table (table (snd released)) (initial_world held)));
    reflexivity.
Defined.

(** ** The fan-out, result and all *)

Section FanOutMore.

Variable E : Env.
Variable env : ProcessEnv.
Variable constants : Constants.

Lemma Promise_all_map_log (ms : list Message) (w : World) :
  exists evs,
    log (snd (Promise_all_map (invoke_worker E env) ms w)) = log w ++ evs.
Proof.
  destruct (Promise_all_map_invoke_worker E env ms w) as (pushed & evs & Hd & _).
  exists evs. now destruct Hd.
Qed.

(** The batch resolves only if every body parsed and every invocation
    was accepted. *)
Lemma Promise_all_map_resolved (ms : list Message) :
  forall w : World,
    fst (Promise_all_map (invoke_worker E env) ms w) = Resolved tt ->
    deserializable E ms = ms
    /\ all_resolved
         (new_events w (snd (Promise_all_map (invoke_worker E env) ms w))) = true.
Proof.
  induction ms as [|m ms IH]; intros w.
  - intros _. split; [reflexivity|]. simpl. now rewrite new_events_same.
  - simpl Promise_all_map. rewrite invoke_worker_run.
    unfold deserializable. simpl filter. fold (deserializable E ms).
    destruct (parse_requestId E (Body m)) as [id|].
    2: { destruct (Promise_all_map (invoke_worker E env) ms w). discriminate. }
    cbv zeta. set (w1 := note_hit _ _). set (c := LambdaInvoke _ m).
    destruct (invoke_at E (requests w) m).
    2: { destruct (Promise_all_map (invoke_worker E env) ms (record c false w1)).
         discriminate. }
    specialize (IH (record c true w1)).
    destruct (Promise_all_map_log ms (record c true w1)) as (evs & Hlog).
    destruct (Promise_all_map (invoke_worker E env) ms (record c true w1))
      as [[[]|e] w2]; cbn [fst snd] in *; [|discriminate].
    intros _. destruct (IH eq_refl) as (Hall & Hres).
    split; [now rewrite Hall|].
    rewrite (new_events_app (record c true w1) w2 evs Hlog) in Hres.
    cbn [log record] in Hlog. rewrite <- app_assoc in Hlog.
    rewrite (new_events_app w w2 _ Hlog). simpl. exact Hres.
Qed.

End FanOutMore.

(** X6. A poll whose receive comes back without messages (no [Messages]
    field, or an empty list) resolves after its two requests, the queue
    lookup and the receive: it pushes no hit and invokes nothing. *)
Theorem pollQueue_empty_receive
    (E : Env) (env : ProcessEnv) (constants : Constants) (w : World)
    (url : string) (receiveResult : option (list Message)) :
  let WaitTimeSeconds :=
    Z.min (MAX_LONG_POLL_PERIOD constants)
      (remaining_at E (budget_reads w) / 1000) in
  let now := Date_now_at E (clock_reads w) in
  let kept := filter (fun item => now - RATE_PERIOD constants <? item) (rateHits w) in
  let MaxNumberOfMessages := RATE_LIMIT constants - Z.of_nat (List.length kept) in
  0 < WaitTimeSeconds ->
  0 < MaxNumberOfMessages ->
  getQueueUrl_at E (requests w) (QUEUE_NAME env) = Some url ->
  receiveMessage_at E (S (requests w)) WaitTimeSeconds MaxNumberOfMessages
    = Some receiveResult ->
  receiveResult = None \/ receiveResult = Some [] ->
  let run := pollQueue E env constants w in
  fst run = Resolved tt
  /\ new_events w (snd run)
     = [{| call := SqsGetQueueUrl (QUEUE_NAME env); resolved := true |};
        {| call := SqsReceiveMessage url WaitTimeSeconds MaxNumberOfMessages;
           resolved := true |}]
  /\ rateHits (snd run) = kept
  /\ hitHistory (snd run) = hitHistory w.
Proof.
  intros WaitTimeSeconds now kept MaxNumberOfMessages Hwait Hmax Hurl Hrecv Hempty run.
  subst run. rewrite pollQueue_run. cbv zeta. simpl rateHits.
  fold now. fold kept. fold MaxNumberOfMessages. fold WaitTimeSeconds.
  destruct (Z.leb_spec WaitTimeSeconds 0); [lia|].
  destruct (Z.leb_spec MaxNumberOfMessages 0); [lia|].
  rewrite Hurl, Hrecv.
  destruct Hempty as [-> | ->]; cbn [Promise_all_map ret fst snd];
    (split; [reflexivity|]; split; [|split; reflexivity]);
    apply new_events_app; cbn [log record]; now rewrite <- app_assoc.
Qed.

Lemma pollQueue_empty_receive_witness :
  let run :=
    pollQueue (Sample.healthy 3000 []) Sample.env Sample.constants
      (initial_world []) in
  fst run = Resolved tt /\ rateHits (snd run) = [].
Proof.
  intros run.
  destruct (pollQueue_empty_receive (Sample.healthy 3000 []) Sample.env
              Sample.constants (initial_world []) "queue" (Some []))
    as (Hok & _ & Hhits & _); try (vm_compute; reflexivity).
  - now right.
  - split; [exact Hok | exact Hhits].
Defined.

(** X7. In a received batch, exactly the messages whose body
    deserializes are processed: each of them gets one hit and one
    invocation request, in the order of the batch; a message whose body
    makes [JSON.parse] throw gets neither, does not keep the others from
    being invoked, and makes the poll reject. *)
Theorem pollQueue_skips_garbled_bodies
    (E : Env) (env : ProcessEnv) (constants : Constants) (w : World)
    (url : string) (messages : list Message) :
  let WaitTimeSeconds :=
    Z.min (MAX_LONG_POLL_PERIOD constants)
      (remaining_at E (budget_reads w) / 1000) in
  let now := Date_now_at E (clock_reads w) in
  let kept := filter (fun item => now - RATE_PERIOD constants <? item) (rateHits w) in
  let MaxNumberOfMessages := RATE_LIMIT constants - Z.of_nat (List.length kept) in
  0 < WaitTimeSeconds ->
  0 < MaxNumberOfMessages ->
  getQueueUrl_at E (requests w) (QUEUE_NAME env) = Some url ->
  receiveMessage_at E (S (requests w)) WaitTimeSeconds MaxNumberOfMessages
    = Some (Some messages) ->
  let run := pollQueue E env constants w in
  invocations (new_events w (snd run)) = deserializable E messages
  /\ rateHits (snd run)
     = kept ++ map (Date_now_at E)
                 (seq (S (clock_reads w))
                    (List.length (deserializable E messages)))
  /\ (deserializable E messages <> messages -> fst run <> Resolved tt).
Proof.
  intros WaitTimeSeconds now kept MaxNumberOfMessages Hwait Hmax Hurl Hrecv run.
  subst run. rewrite pollQueue_run. cbv zeta. simpl rateHits.
  fold now. fold kept. fold MaxNumberOfMessages. fold WaitTimeSeconds.
  destruct (Z.leb_spec WaitTimeSeconds 0); [lia|].
  destruct (Z.leb_spec MaxNumberOfMessages 0); [lia|].
  rewrite Hurl, Hrecv.
  match goal with
  | |- context [Promise_all_map _ _ ?w2] =>
      destruct (Promise_all_map_invoke_worker E env messages w2)
        as (pushed & evs & Hd & Hlen & Hcalls);
      pose proof (Promise_all_map_resolved E env messages w2) as Hres;
      set (pr := Promise_all_map (invoke_worker E env) messages w2) in *
  end.
  destruct Hd as [Hr _ Hl Hp _ _ _ _ _ _]. simpl in Hr, Hl, Hp.
  rewrite <- !app_assoc in Hl. simpl in Hl.
  rewrite (new_events_app _ _ _ Hl). split; [|split].
  - simpl. exact (invocations_of_calls _ _ _ Hcalls).
  - rewrite Hr, Hp, Hlen. reflexivity.
  - intros Hgarbled Hok. apply Hgarbled. now apply Hres.
Qed.

Lemma pollQueue_skips_garbled_bodies_witness :
  let batch := [Sample.message "a"; Scenario.garbled "b"; Sample.message "c"] in
  let E := Scenario.strict_parse 3000 batch in
  let run := pollQueue E Sample.env Sample.constants (initial_world []) in
  invocations (new_events (initial_world []) (snd run))
  = [Sample.message "a"; Sample.message "c"]
  /\ fst run <> Resolved tt.
Proof.
  intros batch E run.
  destruct (pollQueue_skips_garbled_bodies E Sample.env Sample.constants
              (initial_world []) "queue" batch)
    as (Hinv & _ & Hrej); try (vm_compute; reflexivity).
  split; [exact Hinv|]. apply Hrej. vm_compute. discriminate.
Defined.

(** X8. [pollQueue] resolves only if every request it made was accepted:
    a refused queue lookup, receive or invocation makes it reject. *)
Theorem pollQueue_resolves_only_if_all_accepted
    (E : Env) (env : ProcessEnv) (constants : Constants) (w : World) :
  fst (pollQueue E env constants w) = Resolved tt ->
  all_resolved (new_events w (snd (pollQueue E env constants w))) = true.
Proof.
  rewrite pollQueue_run. cbv zeta.
  destruct (_ <=? 0); [intros _; now rewrite new_events_same|].
  destruct (_ <=? 0); [intros _; now rewrite new_events_same|].
  destruct (getQueueUrl_at _ _ _) as [url|]; [|discriminate].
  destruct (receiveMessage_at _ _ _ _) as [receiveResult|]; [|discriminate].
  match goal with
  | |- context [Promise_all_map _ ?ms ?w2] =>
      destruct (Promise_all_map_log E env ms w2) as (evs & Hlog);
      pose proof (Promise_all_map_resolved E env ms w2) as Hres;
      set (pr := Promise_all_map (invoke_worker E env) ms w2) in *
  end.
  intros Hok. destruct (Hres Hok) as (_ & Hall).
  match type of Hlog with
  | log _ = log ?w2 ++ _ =>
      rewrite (new_events_app w2 (snd pr) evs Hlog) in Hall
  end.
  cbn [log record] in Hlog. rewrite <- !app_assoc in Hlog.
  rewrite (new_events_app w (snd pr) _ Hlog). simpl. exact Hall.
Qed.

Lemma pollQueue_resolves_only_if_all_accepted_witness :
  let batch := [Sample.message "a"; Sample.message "b"] in
  let run :=
    pollQueue (Sample.healthy 3000 batch) Sample.env Sample.constants
      (initial_world []) in
  all_resolved (new_events (initial_world []) (snd run)) = true.
Proof.
  intros batch run.
  apply (pollQueue_resolves_only_if_all_accepted (Sample.healthy 3000 batch)
           Sample.env Sample.constants (initial_world [])).
  vm_compute. reflexivity.
Defined.

(** ** Hits and invocations over a run *)

Lemma invocations_app (l1 l2 : list Event) :
  invocations (l1 ++ l2) = invocations l1 ++ invocations l2.
Proof.
  induction l1 as [|e l1 IH]; simpl; [reflexivity|].
  destruct (invocation_of e); simpl; now rewrite IH.
Qed.

Lemma invoked_functions_app (l1 l2 : list Event) :
  invoked_functions (l1 ++ l2) = invoked_functions l1 ++ invoked_functions l2.
Proof.
  induction l1 as [|e l1 IH]; simpl; [reflexivity|].
  destruct (call e); simpl; now rewrite IH.
Qed.

Lemma quiet_no_invocations (evs : list Event) :
  forallb quiet_event evs = true ->
  invocations evs = [] /\ invoked_functions evs = [].
Proof.
  induction evs as [|e evs IH]; simpl; [easy|].
  intros H. apply andb_true_iff in H. destruct H as [He Hevs].
  destruct (IH Hevs) as [IH1 IH2].
  unfold quiet_event in He. unfold invocation_of.
  destruct (call e); try discriminate; auto.
Qed.

Lemma invoked_functions_of_calls (fn : string) (evs : list Event) (ms : list Message) :
  map call evs = map (LambdaInvoke fn) ms ->
  invoked_functions evs = repeat fn (List.length ms).
Proof.
  revert ms. induction evs as [|e evs IH]; intros [|m ms] H; simpl in H;
    try discriminate; [reflexivity|].
  injection H as He Hrest. simpl. rewrite He. f_equal. now apply IH.
Qed.

Section PollEffects.

Variable E : Env.
Variable env : ProcessEnv.
Variable constants : Constants.

(** What a poll adds: the hits [pushed], read off the clock one after
    the other after the reading of the rate limiter, and the requests
    [evs], among them one invocation per hit. *)
Lemma pollQueue_effects (w : World) :
  let now := Date_now_at E (clock_reads w) in
  let w' := snd (pollQueue E env constants w) in
  exists (pushed : list Z) (evs : list Event),
    hitHistory w' = hitHistory w ++ pushed
    /\ log w' = log w ++ evs
    /\ List.length (invocations evs) = List.length pushed
    /\ invoked_functions evs
       = repeat (PROCESS_QUEUE_FUNCTION env) (List.length pushed)
    /\ ((rateHits w' = rateHits w /\ pushed = []
         /\ clock_reads w' = clock_reads w)
        \/ (rateHits w'
            = filter (fun item => now - RATE_PERIOD constants <? item) (rateHits w)
              ++ pushed
            /\ pushed = map (Date_now_at E)
                          (seq (S (clock_reads w)) (List.length pushed))
            /\ clock_reads w' = (S (clock_reads w) + List.length pushed)%nat)).
Proof.
  cbv zeta. rewrite pollQueue_run. cbv zeta.
  destruct (_ <=? 0).
  { exists [], []. simpl. rewrite !app_nil_r. repeat split. now left. }
  destruct (_ <=? 0).
  { exists [], []. simpl. rewrite !app_nil_r. repeat split. now right. }
  destruct (getQueueUrl_at _ _ _) as [url|].
  2: { exists []. eexists. cbn [snd hitHistory log record].
       split; [now rewrite app_nil_r|]. split; [reflexivity|].
       split; [reflexivity|]. split; [reflexivity|].
       right. now rewrite app_nil_r. }
  destruct (receiveMessage_at _ _ _ _) as [receiveResult|].
  2: { exists []. eexists. cbn [snd hitHistory log record].
       split; [now rewrite app_nil_r|].
       split; [rewrite <- app_assoc; reflexivity|].
       split; [reflexivity|]. split; [reflexivity|].
       right. now rewrite app_nil_r. }
  match goal with
  | |- context [Promise_all_map _ ?ms ?w2] =>
      destruct (Promise_all_map_invoke_worker E env ms w2)
        as (pushed & evs & Hd & Hlen & Hcalls);
      set (wr := snd (Promise_all_map (invoke_worker E env) ms w2)) in *;
      set (batch := deserializable E ms) in *
  end.
  destruct Hd as [Hr Hh Hl Hp Hc _ _ _ _ _]. simpl in Hr, Hh, Hl, Hp, Hc.
  rewrite <- !app_assoc in Hl. simpl in Hl.
  exists pushed. eexists.
  split; [exact Hh|]. split; [exact Hl|].
  cbn [invocations invocation_of invoked_functions call].
  rewrite (invocations_of_calls _ _ _ Hcalls).
  rewrite (invoked_functions_of_calls _ _ _ Hcalls), <- Hlen.
  split; [reflexivity|]. split; [reflexivity|].
  right. split; [exact Hr|]. split; [exact Hp|]. rewrite Hc. lia.
Qed.

End PollEffects.

Section HitsAndInvocations.

Variable E : Env.
Variable env : ProcessEnv.
Variable constants : Constants.
Variable awsRequestId : string.

Lemma accounted_extend (w w' : World) (evs : list Event) :
  hitHistory w' = hitHistory w ->
  log w' = log w ++ evs ->
  invocations evs = [] /\ invoked_functions evs = [] ->
  hits_accounted env w -> hits_accounted env w'.
Proof.
  intros Hh Hl [Hi Hf] [Hcount Htarget]. unfold hits_accounted.
  rewrite Hh, Hl, invocations_app, invoked_functions_app, Hi, Hf, !app_nil_r.
  now split.
Qed.

Lemma accounted_bystander (w w' : World) :
  bystander w w' -> hits_accounted env w -> hits_accounted env w'.
Proof.
  intros [_ Hh _ _ _ _ (evs & Hl & Hq)].
  apply (accounted_extend w w' evs Hh Hl). now apply quiet_no_invocations.
Qed.

Lemma accounted_pollQueue (w : World) :
  hits_accounted env w ->
  hits_accounted env (snd (pollQueue E env constants w)).
Proof.
  intros [Hcount Htarget].
  destruct (pollQueue_effects E env constants w)
    as (pushed & evs & Hh & Hl & Hinv & Hfn & _).
  unfold hits_accounted.
  rewrite Hh, Hl, invocations_app, invoked_functions_app, !length_app.
  split; [lia|]. rewrite Hfn. apply Forall_app. split; [exact Htarget|].
  apply Forall_forall. intros fn Hin. now apply repeat_spec in Hin.
Qed.

End HitsAndInvocations.

(** X9. Over a whole run of the handler, hits and invocation requests go
    together: the number of hits ever pushed on [rateHits] equals the
    number of invocation requests made, and every invocation request
    names the function [PROCESS_QUEUE_FUNCTION]. *)
Theorem every_invocation_is_a_hit
    (E : Env) (env : ProcessEnv) (constants : Constants) (awsRequestId : string)
    (fuel : nat) (tbl : DynamoDB.Table) :
  let w' := snd (handler E env constants awsRequestId fuel (initial_world tbl)) in
  List.length (hitHistory w') = List.length (invocations (log w'))
  /\ Forall (fun fn => fn = PROCESS_QUEUE_FUNCTION env) (invoked_functions (log w')).
Proof.
  intros w'. subst w'.
  rewrite handler_run. cbv zeta.
  set (w := set_lastHeartbeat None _).
  assert (Hw : hits_accounted env w) by (split; [reflexivity | constructor]).
  assert (H1 : hits_accounted env (snd (acquireExecutionLock E env constants w))).
  { rewrite acquireExecutionLock_run. cbv zeta.
    destruct (dynamodb_down_at E (requests w)); [|destruct (DynamoDB.put _ _ _)];
      cbn [snd];
      (eapply (accounted_extend env w); [reflexivity | reflexivity | now split | exact Hw]). }
  destruct (acquireExecutionLock E env constants w) as [[u|e] w1];
    cbn [snd] in H1; [|exact H1].
  apply (accounted_bystander env w1 _
           (sendHeartbeatMetrics_bystander E env awsRequestId w1)) in H1.
  revert H1. generalize (snd (sendHeartbeatMetrics E env awsRequestId w1)).
  intros w2 H2.
  assert (H3 : hits_accounted env
                 (snd (poller_loop E env constants awsRequestId fuel (set_polls 0 w2)))).
  { apply (poller_loop_invariant E env constants awsRequestId (hits_accounted env)).
    - intros w' H. exact H.
    - intros w' n H. exact H.
    - exact (accounted_pollQueue E env constants).
    - exact (accounted_bystander env).
    - exact H2. }
  destruct (poller_loop E env constants awsRequestId fuel (set_polls 0 w2))
    as [[| |] w3]; cbn [snd] in H3; [|exact H3|exact H3].
  assert (H4 : hits_accounted env (snd (releaseExecutionLock E env constants w3))).
  { rewrite releaseExecutionLock_run. cbv zeta.
    destruct (dynamodb_down_at E (requests w3)); cbn [snd];
      (eapply (accounted_extend env w3); [reflexivity | reflexivity | now split | exact H3]). }
  destruct (releaseExecutionLock E env constants w3) as [[u'|e'] w4];
    cbn [snd] in H4; [|exact H4].
  exact (accounted_bystander env w4 _
           (sendHeartbeatMetrics_bystander E env awsRequestId w4) H4).
Qed.


(** ** The order of the hits *)

Lemma sorted_app (l1 l2 : list Z) :
  StronglySorted Z.le l1 -> StronglySorted Z.le l2 ->
  (forall x y, In x l1 -> In y l2 -> x <= y) ->
  StronglySorted Z.le (l1 ++ l2).
Proof.
  intros H1 H2 Hcross. induction H1 as [|a l1 Hs IH Ha]; simpl; [exact H2|].
  constructor.
  - apply IH. intros x y Hx Hy. apply Hcross; [now right | exact Hy].
  - apply Forall_app. split; [exact Ha|].
    apply Forall_forall. intros y Hy. apply Hcross; [now left | exact Hy].
Qed.

Lemma sorted_suffix (l1 l2 : list Z) :
  StronglySorted Z.le (l1 ++ l2) -> StronglySorted Z.le l2.
Proof.
  induction l1 as [|a l1 IH]; simpl; [easy|].
  intros H. inversion H; subst. now apply IH.
Qed.

(** Pruning a sorted list from below drops an initial part of it. *)
Lemma prune_sorted (bound : Z) (l : list Z) :
  StronglySorted Z.le l ->
  exists dropped, l = dropped ++ filter (fun item => bound <? item) l.
Proof.
  induction 1 as [|a l Hs IH Ha]; [now exists []|].
  simpl. destruct (Z.ltb_spec bound a) as [Hlt|Hge].
  - exists []. simpl. f_equal. symmetry.
    apply forallb_filter_id. apply forallb_forall. intros x Hx.
    rewrite Forall_forall in Ha. specialize (Ha x Hx). apply Z.ltb_lt. lia.
  - destruct IH as (dropped & IH). exists (a :: dropped). simpl. now f_equal.
Qed.

Lemma readings_sorted (E : Env) (from n : nat) :
  clock_monotone E ->
  StronglySorted Z.le (map (Date_now_at E) (seq from n)).
Proof.
  intros Hclock. revert from. induction n as [|n IH]; intros from; simpl.
  - constructor.
  - constructor; [apply IH|].
    apply Forall_forall. intros y Hy. apply in_map_iff in Hy.
    destruct Hy as (k & <- & Hk). apply in_seq in Hk. apply Hclock. lia.
Qed.

Section WindowShape.

Variable E : Env.
Variable env : ProcessEnv.
Variable constants : Constants.

Hypothesis Hclock : clock_monotone E.

Lemma window_shape_frame (w w' : World) :
  rateHits w' = rateHits w ->
  hitHistory w' = hitHistory w ->
  (clock_reads w <= clock_reads w')%nat ->
  window_shape E w -> window_shape E w'.
Proof.
  intros Hr Hh Hc (Hsorted & Hpast & Hsuffix).
  unfold window_shape. rewrite Hr, Hh. split; [exact Hsorted|].
  split; [|exact Hsuffix]. intros hit Hin k Hk. apply Hpast; [exact Hin | lia].
Qed.

Lemma window_shape_bystander (w w' : World) :
  bystander w w' -> window_shape E w -> window_shape E w'.
Proof.
  intros [Hr Hh _ _ _ Hc _]. now apply window_shape_frame.
Qed.

Lemma window_shape_pollQueue (w : World) :
  window_shape E w -> window_shape E (snd (pollQueue E env constants w)).
Proof.
  intros Hshape.
  destruct (pollQueue_effects E env constants w)
    as (pushed & evs & Hh & _ & _ & _ & [(Hr & -> & Hc) | (Hr & Hp & Hc)]).
  { rewrite app_nil_r in Hh. revert Hshape.
    apply window_shape_frame; [exact Hr | exact Hh | lia]. }
  destruct Hshape as (Hsorted & Hpast & forgotten & Hsuffix).
  assert (Hlate : forall y, In y pushed ->
                    exists j, (S (clock_reads w) <= j < S (clock_reads w)
                                                       + List.length pushed)%nat
                              /\ y = Date_now_at E j).
  { intros y Hy. rewrite Hp in Hy. apply in_map_iff in Hy.
    destruct Hy as (j & <- & Hj). apply in_seq in Hj. exists j. split; [lia|reflexivity]. }
  unfold window_shape. rewrite Hh, Hr, Hc. split; [|split].
  - apply sorted_app; [exact Hsorted | |].
    + rewrite Hp. now apply readings_sorted.
    + intros x y Hx Hy. destruct (Hlate y Hy) as (j & Hj & ->).
      apply Hpast; [exact Hx | lia].
  - intros hit Hin k Hk. apply in_app_or in Hin. destruct Hin as [Hin|Hin].
    + apply Hpast; [exact Hin | lia].
    + destruct (Hlate hit Hin) as (j & Hj & ->). apply Hclock. lia.
  - assert (Hrs : StronglySorted Z.le (rateHits w)).
    { apply (sorted_suffix forgotten). now rewrite <- Hsuffix. }
    destruct (prune_sorted (Date_now_at E (clock_reads w) - RATE_PERIOD constants)
                (rateHits w) Hrs) as (dropped & Hdrop).
    exists (forgotten ++ dropped).
    rewrite Hsuffix at 1. rewrite Hdrop at 1. now rewrite <- !app_assoc.
Qed.

End WindowShape.

(** X10. With a clock that does not go back, [rateHits] is at every end
    of a run in non-decreasing order, and it is the recent end of all the
    hits ever recorded: pruning forgets an initial part of the history,
    never a hit that came after one it keeps. *)
Theorem rateHits_sorted_suffix
    (E : Env) (env : ProcessEnv) (constants : Constants) (awsRequestId : string)
    (fuel : nat) (tbl : DynamoDB.Table) :
  clock_monotone E ->
  let w' := snd (handler E env constants awsRequestId fuel (initial_world tbl)) in
  StronglySorted Z.le (rateHits w')
  /\ StronglySorted Z.le (hitHistory w')
  /\ exists forgotten : list Z, hitHistory w' = forgotten ++ rateHits w'.
Proof.
  intros Hclock w'.
  assert (Hshape : window_shape E w').
  { subst w'. rewrite handler_run. cbv zeta.
    set (w := set_lastHeartbeat None _).
    assert (Hw : window_shape E w).
    { split; [constructor|]. split; [intros hit []|]. now exists []. }
    assert (H1 : window_shape E (snd (acquireExecutionLock E env constants w))).
    { rewrite acquireExecutionLock_run. cbv zeta.
      destruct (dynamodb_down_at E (requests w)); [|destruct (DynamoDB.put _ _ _)];
        cbn [snd];
        (eapply (window_shape_frame E w);
         [reflexivity | reflexivity | simpl; lia | exact Hw]). }
    destruct (acquireExecutionLock E env constants w) as [[u|e] w1];
      cbn [snd] in H1; [|exact H1].
    apply (window_shape_bystander E w1 _
             (sendHeartbeatMetrics_bystander E env awsRequestId w1)) in H1.
    revert H1. generalize (snd (sendHeartbeatMetrics E env awsRequestId w1)).
    intros w2 H2.
    assert (H3 : window_shape E
                   (snd (poller_loop E env constants awsRequestId fuel
                           (set_polls 0 w2)))).
    { apply (poller_loop_invariant E env constants awsRequestId (window_shape E)).
      - intros v. apply window_shape_frame; simpl; auto.
      - intros v n. apply window_shape_frame; simpl; auto.
      - exact (window_shape_pollQueue E env constants Hclock).
      - exact (window_shape_bystander E).
      - revert H2. apply window_shape_frame; simpl; auto. }
    destruct (poller_loop E env constants awsRequestId fuel (set_polls 0 w2))
      as [[| |] w3]; cbn [snd] in H3; [|exact H3|exact H3].
    assert (H4 : window_shape E (snd (releaseExecutionLock E env constants w3))).
    { rewrite releaseExecutionLock_run. cbv zeta.
      destruct (dynamodb_down_at E (requests w3)); cbn [snd];
        (eapply (window_shape_frame E w3);
         [reflexivity | reflexivity | simpl; lia | exact H3]). }
    destruct (releaseExecutionLock E env constants w3) as [[u'|e'] w4];
      cbn [snd] in H4; [|exact H4].
    exact (window_shape_bystander E w4 _
             (sendHeartbeatMetrics_bystander E env awsRequestId w4) H4). }
  destruct Hshape as (Hsorted & _ & forgotten & Hsuffix).
  split; [|split; [exact Hsorted | now exists forgotten]].
  apply (sorted_suffix forgotten). now rewrite <- Hsuffix.
Qed.

Lemma rateHits_sorted_suffix_witness :
  let batch := [Sample.message "a"; Sample.message "b"; Sample.message "c"] in
  let w' :=
    snd (handler (Sample.healthy 5000 batch) Sample.env Sample.constants
           "poller" 10 (initial_world [])) in
  StronglySorted Z.le (rateHits w').
Proof.
  intros batch w'.
  apply (rateHits_sorted_suffix (Sample.healthy 5000 batch) Sample.env
           Sample.constants "poller" 10 [] (sample_clock_monotone 5000 batch)).
Defined.

(** ** The throttle *)

(** X11. With a clock that does not go back, a call of
    [maybeSendHeartbeatMetrics] that finds a last-heartbeat time [l]
    either is skipped, leaving [l] and making no request, or starts an
    emission whose recorded time is at least [MIN_HEARTBEAT_PERIOD] after
    [l]: two emissions started by the throttled path are never closer
    than the minimum period. *)
Theorem maybeSendHeartbeatMetrics_spacing
    (E : Env) (env : ProcessEnv) (constants : Constants) (awsRequestId : string)
    (w : World) (l : Z) :
  clock_monotone E ->
  lastHeartbeat w = Some l ->
  let w' := snd (maybeSendHeartbeatMetrics E env constants awsRequestId w) in
  (lastHeartbeat w' = Some l /\ new_events w w' = [])
  \/ (exists l' : Z,
        lastHeartbeat w' = Some l' /\ l + MIN_HEARTBEAT_PERIOD constants <= l').
Proof.
  intros Hclock Hlast w'. subst w'.
  rewrite maybeSendHeartbeatMetrics_run, Hlast.
  destruct (Z.ltb_spec (Date_now_at E (clock_reads w) - l)
              (MIN_HEARTBEAT_PERIOD constants)) as [Hshort|Hlong].
  - left. cbn [snd]. split; [exact Hlast | now apply new_events_same].
  - right. exists (Date_now_at E (S (clock_reads w))). split.
    + apply (sendHeartbeatMetrics_lastHeartbeat E env awsRequestId (tick_clock w)).
    + assert (Date_now_at E (clock_reads w) <= Date_now_at E (S (clock_reads w)))
        by (apply Hclock; lia).
      lia.
Qed.

Lemma maybeSendHeartbeatMetrics_spacing_witness :
  let E := Sample.healthy 3000 [] in
  let w := set_lastHeartbeat (Some (-5000)) (initial_world []) in
  let w' := snd (maybeSendHeartbeatMetrics E Sample.env Sample.constants "poller" w) in
  exists l' : Z, lastHeartbeat w' = Some l' /\ - 4000 <= l'.
Proof.
  intros E w w'.
  destruct (maybeSendHeartbeatMetrics_spacing E Sample.env Sample.constants
              "poller" w (-5000) (sample_clock_monotone 3000 []) eq_refl)
    as [(Hskip & _) | Hsent].
  - vm_compute in Hskip. discriminate.
  - exact Hsent.
Defined.

(** ** Runs that the heartbeat cannot spoil *)

Section Completion.

Variable E : Env.
Variable env : ProcessEnv.
Variable constants : Constants.
Variable awsRequestId : string.

Hypothesis Hup : poll_services_up E.

Lemma Promise_all_map_resolves (ms : list Message) :
  forall w : World,
    fst (Promise_all_map (invoke_worker E env) ms w) = Resolved tt.
Proof.
  destruct Hup as (_ & _ & _ & Hinvoke & Hparse).
  induction ms as [|m ms IH]; intros w; [reflexivity|].
  simpl Promise_all_map. rewrite invoke_worker_run.
  specialize (Hparse (Body m)).
  destruct (parse_requestId E (Body m)); [|congruence].
  cbv zeta. rewrite Hinvoke.
  match goal with
  | |- context [Promise_all_map _ ms ?w1] =>
      specialize (IH w1);
      destruct (Promise_all_map (invoke_worker E env) ms w1) as [r2 w2]
  end.
  cbn [fst] in *. now rewrite IH.
Qed.

Lemma pollQueue_resolves (w : World) :
  fst (pollQueue E env constants w) = Resolved tt.
Proof.
  rewrite pollQueue_run. cbv zeta.
  destruct (_ <=? 0); [reflexivity|].
  destruct (_ <=? 0); [reflexivity|].
  destruct Hup as (_ & Hurl & Hrecv & _).
  match goal with
  | |- context [getQueueUrl_at E ?n ?name] =>
      specialize (Hurl n name); destruct (getQueueUrl_at E n name); [|congruence]
  end.
  match goal with
  | |- context [receiveMessage_at E ?n ?wt ?mx] =>
      specialize (Hrecv n wt mx);
      destruct (receiveMessage_at E n wt mx); [|congruence]
  end.
  apply Promise_all_map_resolves.
Qed.

Lemma poller_loop_no_catch (fuel : nat) :
  forall w : World,
    fst (poller_loop E env constants awsRequestId fuel w) <> ReturnedFromCatch.
Proof.
  induction fuel as [|fuel IH]; intros w;
    destruct (Z.lt_ge_cases (remaining_at E (budget_reads w)) 1000) as [Hlow|Hhigh].
  - rewrite poller_loop_exit by exact Hlow. discriminate.
  - rewrite poller_loop_out_of_fuel by exact Hhigh. discriminate.
  - rewrite poller_loop_exit by exact Hlow. discriminate.
  - rewrite poller_loop_step by exact Hhigh.
    pose proof (pollQueue_resolves (set_polls (S (polls w)) (tick_budget w))) as Hok.
    destruct (pollQueue _ _ _ _) as [[u|e] w3]; cbn [fst] in Hok; [|discriminate].
    apply IH.
Qed.

End Completion.

(** X12. No failure of the heartbeat can spoil a run.  If the config
    table, the queue and the invocation service answer, the bodies
    deserialize, the lock is free and the remaining time strictly
    decreases, then, whatever the depth query and the metrics sink do,
    the handler polls until less than a second is left, releases the
    mutex and completes: at the end the table holds no lock. *)
Theorem handler_completes
    (E : Env) (env : ProcessEnv) (constants : Constants) (awsRequestId : string)
    (fuel : nat) (w0 : World) :
  poll_services_up E ->
  budget_strictly_decreasing E ->
  lock_free (table w0) (EXECUTION_MUTEX_KEY constants)
    (Date_now_at E (S (clock_reads w0))) ->
  (Z.to_nat (remaining_at E (budget_reads w0) - 999) <= fuel)%nat ->
  let run := handler E env constants awsRequestId fuel w0 in
  fst run = Completed
  /\ DynamoDB.get (table (snd run)) (EXECUTION_MUTEX_KEY constants) = None
  /\ remaining_at E (budget_reads (snd run) - 1) < 1000.
Proof.
  intros Hup Hdec Hfree Hfuel run. subst run.
  pose proof Hup as (Hdb & _).
  rewrite handler_run. cbv zeta.
  set (w := set_lastHeartbeat None (set_rateHits (fun _ => []) w0)).
  rewrite acquireExecutionLock_run. cbv zeta. rewrite Hdb.
  unfold DynamoDB.put.
  change (DynamoDB.key (mutex_item constants (Date_now_at E (clock_reads w))))
    with (EXECUTION_MUTEX_KEY constants).
  assert (Hcond : DynamoDB.holds
                    (mutex_condition constants (Date_now_at E (S (clock_reads w))))
                    (DynamoDB.get (table w) (EXECUTION_MUTEX_KEY constants)) = true)
    by (apply mutex_condition_free; exact Hfree).
  rewrite Hcond.
  set (w1 := record _ true (set_table _ _)).
  pose proof (sendHeartbeatMetrics_bystander E env awsRequestId w1) as Hhb.
  revert Hhb. generalize (snd (sendHeartbeatMetrics E env awsRequestId w1)).
  intros w2 [_ _ Hb2 _ _ _ _].
  assert (Hreads : budget_reads (set_polls 0 w2) = budget_reads w0)
    by (cbn [budget_reads set_polls]; rewrite Hb2; reflexivity).
  pose proof (poller_loop_bounded_aux E env constants awsRequestId Hdec fuel
                (set_polls 0 w2)) as Hloop.
  rewrite Hreads in Hloop. specialize (Hloop Hfuel). cbv zeta in Hloop.
  destruct Hloop as (Hfin & _ & Hexit).
  pose proof (poller_loop_no_catch E env constants awsRequestId Hup fuel
                (set_polls 0 w2)) as Hnocatch.
  destruct (poller_loop E env constants awsRequestId fuel (set_polls 0 w2))
    as [[| |] w3]; cbn [fst snd] in *; try congruence.
  rewrite releaseExecutionLock_run. cbv zeta. rewrite Hdb.
  match goal with
  | |- context [sendHeartbeatMetrics E env awsRequestId ?w4] =>
      pose proof (sendHeartbeatMetrics_bystander E env awsRequestId w4)
        as [_ _ Hb5 _ Ht5 _ _]
  end.
  cbn [fst snd]. rewrite Ht5, Hb5. cbn [table budget_reads record set_table].
  split; [reflexivity|]. split; [apply DynamoDBMore.get_remove_same|].
  now apply Hexit.
Qed.

Lemma scenario_poll_services_up (budget : Z) (batch : list Message) :
  poll_services_up (Scenario.heartbeat_down budget batch).
Proof. repeat split; intros; simpl; discriminate. Qed.

Lemma scenario_budget_strictly_decreasing (budget : Z) (batch : list Message) :
  budget_strictly_decreasing (Scenario.heartbeat_down budget batch).
Proof.
  intros i. unfold Scenario.heartbeat_down. cbn [remaining_at]. lia.
Qed.

Lemma handler_completes_witness :
  let batch := [Sample.message "a"] in
  let run :=
    handler (Scenario.heartbeat_down 2000 batch) Sample.env Sample.constants
      "poller" 1500 (initial_world []) in
  fst run = Completed
  /\ publishes (log (snd run)) = 0%nat.
Proof.
  intros batch run. split; [|vm_compute; reflexivity].
  apply (handler_completes (Scenario.heartbeat_down 2000 batch) Sample.env
           Sample.constants "poller" 1500 (initial_world [])
           (scenario_poll_services_up 2000 batch)
           (scenario_budget_strictly_decreasing 2000 batch)).
  - vm_compute. exact I.
  - vm_compute. lia.
Defined.

(** ** The pauses of the loop *)

Lemma pauses_app (l1 l2 : list Event) :
  pauses (l1 ++ l2) = pauses l1 ++ pauses l2.
Proof.
  induction l1 as [|e l1 IH]; simpl; [reflexivity|].
  destruct (call e); simpl; now rewrite IH.
Qed.

Lemma pauses_of_calls (fn : string) (evs : list Event) (ms : list Message) :
  map call evs = map (LambdaInvoke fn) ms -> pauses evs = [].
Proof.
  revert ms. induction evs as [|e evs IH]; intros [|m ms] H; simpl in H;
    try discriminate; [reflexivity|].
  injection H as He Hrest. simpl. rewrite He. now apply (IH ms).
Qed.

Section Pauses.

Variable E : Env.
Variable env : ProcessEnv.
Variable constants : Constants.
Variable awsRequestId : string.

Lemma pollQueue_no_pause (w : World) :
  exists evs,
    log (snd (pollQueue E env constants w)) = log w ++ evs /\ pauses evs = [].
Proof.
  rewrite pollQueue_run. cbv zeta.
  destruct (_ <=? 0); [exists []; now rewrite app_nil_r|].
  destruct (_ <=? 0); [exists []; now rewrite app_nil_r|].
  destruct (getQueueUrl_at _ _ _) as [url|]; [|eexists; split; reflexivity].
  destruct (receiveMessage_at _ _ _ _) as [receiveResult|].
  2: { eexists. split; [cbn [snd log record]; rewrite <- app_assoc|]; reflexivity. }
  match goal with
  | |- context [Promise_all_map _ ?ms ?w2] =>
      destruct (Promise_all_map_invoke_worker E env ms w2)
        as (pushed & evs & Hd & _ & Hcalls);
      set (wr := snd (Promise_all_map (invoke_worker E env) ms w2)) in *
  end.
  destruct Hd as [_ _ Hl _ _ _ _ _ _ _]. cbn [log record] in Hl.
  rewrite <- !app_assoc in Hl. eexists. split; [exact Hl|].
  cbn [app pauses call]. exact (pauses_of_calls _ _ _ Hcalls).
Qed.

Lemma sendHeartbeatMetrics_no_pause (w : World) :
  exists evs,
    log (snd (sendHeartbeatMetrics E env awsRequestId w)) = log w ++ evs
    /\ pauses evs = [].
Proof.
  rewrite sendHeartbeatMetrics_run. cbv zeta.
  destruct (getQueueUrl_at _ _ _); [|eexists; split; reflexivity].
  destruct (getQueueAttributes_at _ _).
  2: { eexists. split; [cbn [snd log record]; rewrite <- app_assoc|]; reflexivity. }
  destruct (pollerHeartbeat_at _ _); eexists;
    (split; [cbn [snd log record]; rewrite <- !app_assoc|]; reflexivity).
Qed.

Lemma maybeSendHeartbeatMetrics_no_pause (w : World) :
  exists evs,
    log (snd (maybeSendHeartbeatMetrics E env constants awsRequestId w))
    = log w ++ evs
    /\ pauses evs = [].
Proof.
  rewrite maybeSendHeartbeatMetrics_run.
  destruct (lastHeartbeat w) as [l|]; [|apply sendHeartbeatMetrics_no_pause].
  destruct (_ <? _); [exists []; now rewrite app_nil_r|].
  apply (sendHeartbeatMetrics_no_pause (tick_clock w)).
Qed.

(** One iteration after another: the pauses and the counter. *)
Lemma poller_loop_pauses (fuel : nat) :
  forall w : World,
    let r := poller_loop E env constants awsRequestId fuel w in
    exists (n : nat) (evs : list Event),
      log (snd r) = log w ++ evs
      /\ pauses evs = repeat (POLL_DELAY constants) n
      /\ polls (snd r)
         = (polls w + n + match fst r with ReturnedFromCatch => 1 | _ => 0 end)%nat.
Proof.
  induction fuel as [|fuel IH]; intros w r; subst r;
    destruct (Z.lt_ge_cases (remaining_at E (budget_reads w)) 1000) as [Hlow|Hhigh].
  - rewrite poller_loop_exit by exact Hlow. exists 0%nat, [].
    cbn [fst snd log polls tick_budget repeat]. rewrite app_nil_r. repeat split. lia.
  - rewrite poller_loop_out_of_fuel by exact Hhigh. exists 0%nat, [].
    cbn [fst snd log polls tick_budget repeat]. rewrite app_nil_r. repeat split. lia.
  - rewrite poller_loop_exit by exact Hlow. exists 0%nat, [].
    cbn [fst snd log polls tick_budget repeat]. rewrite app_nil_r. repeat split. lia.
  - rewrite poller_loop_step by exact Hhigh.
    set (w2 := set_polls (S (polls w)) (tick_budget w)).
    destruct (pollQueue_no_pause w2) as (evsP & HlP & HpP).
    pose proof (pollQueue_polled E env constants w2) as [_ Hp3 _ _ _ _].
    destruct (pollQueue E env constants w2) as [[u|e] w3]; cbn [snd] in HlP, Hp3.
    2: { exists 0%nat, evsP. cbn [fst snd repeat]. repeat split; auto.
         rewrite Hp3. cbn [polls set_polls w2]. lia. }
    destruct (maybeSendHeartbeatMetrics_no_pause w3) as (evsH & HlH & HpH).
    specialize (IH (after_poll E env constants awsRequestId w3)). cbv zeta in IH.
    destruct IH as (n & evsR & HlR & HpR & HcR).
    pose proof (maybeSendHeartbeatMetrics_bystander E env constants awsRequestId w3)
      as [_ _ _ Hp4 _ _ _].
    exists (S n), (evsP ++ evsH ++ [{| call := SetTimeout (POLL_DELAY constants);
                                      resolved := true |}] ++ evsR).
    split; [|split].
    + rewrite HlR. unfold after_poll. cbn [log tick_budget wait snd record].
      rewrite HlH, HlP. cbn [log set_polls tick_budget w2].
      rewrite <- !app_assoc. reflexivity.
    + rewrite !pauses_app, HpP, HpH, HpR. reflexivity.
    + rewrite HcR. unfold after_poll. cbn [polls tick_budget wait snd record].
      rewrite Hp4, Hp3. cbn [polls set_polls w2]. lia.
Qed.

End Pauses.

(** X13. The loop pauses once, for [POLL_DELAY], after every poll that
    did not throw, and nowhere else: the pauses it has requested are as
    many as the polls it has counted, less the one that threw if the
    loop was left that way, and each is of [POLL_DELAY] milliseconds. *)
Theorem poller_loop_pauses_between_polls
    (E : Env) (env : ProcessEnv) (constants : Constants) (awsRequestId : string)
    (fuel : nat) (w : World) :
  let r := poller_loop E env constants awsRequestId fuel w in
  let thrown := match fst r with ReturnedFromCatch => 1%nat | _ => 0%nat end in
  pauses (new_events w (snd r))
  = repeat (POLL_DELAY constants) (polls (snd r) - polls w - thrown).
Proof.
  intros r thrown.
  destruct (poller_loop_pauses E env constants awsRequestId fuel w)
    as (n & evs & Hlog & Hpauses & Hcount).
  fold r in Hlog, Hcount. fold thrown in Hcount.
  rewrite (new_events_app _ _ _ Hlog), Hpauses. f_equal. lia.
Qed.


(** * The credentials lookup *)

Module CredentialsFacts.
Import Credentials.

Local Open Scope string_scope.

Lemma own_get_assign_same (c : Cache) (id : string) (creds : Credentials) :
  id <> "__proto__" -> own_get (assign c id creds) id = Some creds.
Proof.
  intros Hid. unfold assign. destruct (String.eqb_spec id "__proto__"); [easy|].
  unfold own_get. simpl. now rewrite String.eqb_refl.
Qed.

Lemma find_filter_other (l : list (string * Credentials)) (id id' : string) :
  id' <> id ->
  find (fun p => String.eqb (fst p) id')
    (filter (fun p => negb (String.eqb (fst p) id)) l)
  = find (fun p => String.eqb (fst p) id') l.
Proof.
  intros Hneq. induction l as [|[k v] l IH]; simpl; [reflexivity|].
  destruct (String.eqb_spec k id) as [->|Hk]; simpl.
  - destruct (String.eqb_spec id id'); [congruence | exact IH].
  - destruct (String.eqb_spec k id'); [reflexivity | exact IH].
Qed.

Lemma own_get_assign_other (c : Cache) (id id' : string) (creds : Credentials) :
  id' <> id -> own_get (assign c id creds) id' = own_get c id'.
Proof.
  intros Hneq. unfold assign. destruct (String.eqb id "__proto__"); [reflexivity|].
  unfold own_get. simpl.
  destruct (String.eqb_spec id id'); [congruence|].
  now rewrite find_filter_other.
Qed.

Section Facts.

Variable Dev : Type.
Variable cfg : Config Dev.

Lemma in_cache_owned (c : Cache) (id : string) (creds : Credentials) :
  own_get c id = Some creds ->
  in_cache cfg c id = true /\ cache_get Dev c id = Creds creds.
Proof.
  intros H. unfold in_cache, cache_get. now rewrite H.
Qed.

Lemma not_in_cache (c : Cache) (id : string) :
  plain_id cfg id -> own_get c id = None -> in_cache cfg c id = false.
Proof.
  intros (Hproto & Hinh & Hid & Hkey & Halg) Hown.
  unfold in_cache. rewrite Hown, Hinh.
  destruct (String.eqb_spec id "__proto__"); [easy|].
  destruct (proto c); [|reflexivity].
  destruct (String.eqb_spec id "id"); [easy|].
  destruct (String.eqb_spec id "key"); [easy|].
  destruct (String.eqb_spec id "algorithm"); [easy|]. reflexivity.
Qed.

End Facts.

End CredentialsFacts.

(** X14. Credentials found in the table are cached: with the cache on, a
    first lookup of an id that is neither a development id nor a property
    name of a plain object asks the table once and returns
    [{id, key, algorithm}], the algorithm being the default when the item
    has none; every later lookup of that id returns the same credentials
    without asking the table, whatever ids were looked up in between,
    whatever the table holds by then and even if it cannot be reached. *)
Theorem lookupCredentials_caches
    (Dev : Type) (cfg : Credentials.Config Dev) (table_down : nat -> bool)
    (id : string) (w : Credentials.World) (item : Credentials.Item) :
  Credentials.plain_id cfg id ->
  (if Credentials.is_1 (Credentials.ENABLE_DEV_AUTH cfg)
   then Credentials.DEV_CREDENTIALS cfg id else None) = None ->
  Credentials.is_1 (Credentials.DISABLE_AUTH_CACHE cfg) = false ->
  Credentials.own_get (Credentials.credentialsCache w) id = None ->
  table_down (List.length (Credentials.gets w)) = false ->
  Credentials.table w id = Some item ->
  let creds :=
    {| Credentials.cred_id := id;
       Credentials.cred_key := Credentials.key item;
       Credentials.cred_algorithm :=
         match Credentials.algorithm item with
         | Some a => a
         | None => Credentials.DEFAULT_HAWK_ALGORITHM cfg
         end |} in
  let first := Credentials.lookupCredentials cfg table_down id w in
  fst first = Resolved (Credentials.Creds creds)
  /\ Credentials.gets (snd first) = Credentials.gets w ++ [id]
  /\ forall (between : list Credentials.Step) (later_down : nat -> bool)
            (w2 : Credentials.World),
       Credentials.credentialsCache w2
       = Credentials.credentialsCache
           (Credentials.after_steps cfg between (snd first)) ->
       Credentials.lookupCredentials cfg later_down id w2
       = (Resolved (Credentials.Creds creds), w2).
Proof.
  intros Hplain Hdev Hcache Hown Hup Hitem creds first.
  assert (Hfirst : first
                   = (Resolved (Credentials.Creds creds),
                      Credentials.cached id creds (Credentials.asked id w))).
  { subst first. unfold Credentials.lookupCredentials.
    rewrite Hdev, Hcache, (CredentialsFacts.not_in_cache Dev cfg _ id Hplain Hown).
    cbn [negb andb]. now rewrite Hup, Hitem. }
  rewrite Hfirst. clear Hfirst first. cbn [fst snd].
  split; [reflexivity|]. split; [reflexivity|].
  destruct Hplain as (Hproto & _).
  assert (Hhit : forall down w1,
             Credentials.own_get (Credentials.credentialsCache w1) id = Some creds ->
             Credentials.lookupCredentials cfg down id w1
             = (Resolved (Credentials.Creds creds), w1)).
  { intros down w1 Hheld. unfold Credentials.lookupCredentials.
    rewrite Hdev, Hcache. cbn [negb andb].
    destruct (CredentialsFacts.in_cache_owned Dev cfg _ id creds Hheld) as (Hin & Hget).
    now rewrite Hin, Hget. }
  assert (Hkept : forall between w1,
             Credentials.own_get (Credentials.credentialsCache w1) id = Some creds ->
             Credentials.own_get
               (Credentials.credentialsCache (Credentials.after_steps cfg between w1)) id
             = Some creds).
  { induction between as [|[t|down id'] between IH]; intros w1 Hheld;
      [exact Hheld | cbn [Credentials.after_steps]; apply IH; exact Hheld |].
    cbn [Credentials.after_steps]. apply IH.
    destruct (String.eqb_spec id' id) as [->|Hother].
    - now rewrite Hhit.
    - unfold Credentials.lookupCredentials.
      destruct (if Credentials.is_1 (Credentials.ENABLE_DEV_AUTH cfg)
                then Credentials.DEV_CREDENTIALS cfg id' else None);
        [exact Hheld|].
      destruct (_ && _); [exact Hheld|].
      destruct (down _); [exact Hheld|].
      destruct (Credentials.table w1 id'); [|exact Hheld].
      cbn [snd Credentials.cached Credentials.asked Credentials.credentialsCache].
      rewrite CredentialsFacts.own_get_assign_other by congruence. exact Hheld. }
  intros between later_down w2 Hsame. apply Hhit. rewrite Hsame. apply Hkept.
  cbn [Credentials.cached Credentials.asked Credentials.credentialsCache].
  now apply CredentialsFacts.own_get_assign_same.
Qed.

Lemma lookupCredentials_caches_witness :
  let cfg := CredentialsSample.config false false in
  let first :=
    Credentials.lookupCredentials cfg CredentialsSample.up "alice"%string
      (CredentialsSample.world (CredentialsSample.one_item "k1"%string)) in
  let renewed : string -> option Credentials.Item :=
    fun id =>
      if String.eqb id "carol"
      then Some {| Credentials.key := Some "k3"%string;
                   Credentials.algorithm := Some "sha1"%string |}
      else CredentialsSample.one_item "k2"%string id in
  let w2 :=
    Credentials.after_steps cfg
      [Credentials.TableBecomes renewed;
       Credentials.Lookup CredentialsSample.up "carol"%string;
       Credentials.Lookup CredentialsSample.down "alice"%string;
       Credentials.Lookup CredentialsSample.up "bob"%string]
      (snd first) in
  let again :=
    Credentials.lookupCredentials cfg CredentialsSample.down "alice"%string w2 in
  fst again
  = Resolved (Credentials.Creds
                {| Credentials.cred_id := "alice"%string;
                   Credentials.cred_key := Some "k1"%string;
                   Credentials.cred_algorithm := "sha256"%string |})
  /\ Credentials.gets (snd again)
     = ["alice"%string; "carol"%string; "bob"%string].
Proof.
  intros cfg first renewed w2 again.
  destruct (lookupCredentials_caches string cfg CredentialsSample.up "alice"%string
              (CredentialsSample.world (CredentialsSample.one_item "k1"%string))
              {| Credentials.key := Some "k1"%string; Credentials.algorithm := None |})
    as (_ & _ & Hlater); try reflexivity.
  - repeat split; try discriminate; reflexivity.
  - subst again.
    rewrite (Hlater [Credentials.TableBecomes renewed;
                     Credentials.Lookup CredentialsSample.up "carol"%string;
                     Credentials.Lookup CredentialsSample.down "alice"%string;
                     Credentials.Lookup CredentialsSample.up "bob"%string]
               CredentialsSample.down w2 eq_refl).
    split; reflexivity.
Defined.

(** X15. A miss is not cached.  When the lookup of an id that is not yet
    cached (and is neither a development id nor a property name of a
    plain object) goes to the table and finds no item, it returns
    [null]; when the request fails, it rejects.  Either way the table
    was asked once and the cache is as it was, so that the next lookup of
    that id asks the table again. *)
Theorem lookupCredentials_does_not_cache_misses
    (Dev : Type) (cfg : Credentials.Config Dev) (table_down : nat -> bool)
    (id : string) (w : Credentials.World) :
  Credentials.plain_id cfg id ->
  (if Credentials.is_1 (Credentials.ENABLE_DEV_AUTH cfg)
   then Credentials.DEV_CREDENTIALS cfg id else None) = None ->
  Credentials.own_get (Credentials.credentialsCache w) id = None ->
  table_down (List.length (Credentials.gets w)) = true
  \/ Credentials.table w id = None ->
  let r := Credentials.lookupCredentials cfg table_down id w in
  fst r = (if table_down (List.length (Credentials.gets w))
           then Rejected ServiceError else Resolved Credentials.Null)
  /\ Credentials.credentialsCache (snd r) = Credentials.credentialsCache w
  /\ Credentials.gets (snd r) = Credentials.gets w ++ [id].
Proof.
  intros Hplain Hdev Hown Hmiss r. subst r.
  unfold Credentials.lookupCredentials.
  rewrite Hdev, (CredentialsFacts.not_in_cache Dev cfg _ id Hplain Hown),
    andb_false_r.
  destruct (table_down (List.length (Credentials.gets w))).
  - repeat split.
  - destruct Hmiss as [Hdown|Habsent]; [discriminate|].
    rewrite Habsent. repeat split.
Qed.

Lemma lookupCredentials_does_not_cache_misses_witness :
  let r :=
    Credentials.lookupCredentials (CredentialsSample.config false false)
      CredentialsSample.up "bob"%string
      (CredentialsSample.world (CredentialsSample.one_item "k1"%string)) in
  fst r = Resolved Credentials.Null
  /\ Credentials.credentialsCache (snd r) = Credentials.empty_cache.
Proof.
  intros r.
  destruct (lookupCredentials_does_not_cache_misses string
              (CredentialsSample.config false false) CredentialsSample.up
              "bob"%string
              (CredentialsSample.world (CredentialsSample.one_item "k1"%string)))
    as (Hres & Hcache & _); try reflexivity.
  - repeat split; try discriminate; reflexivity.
  - now right.
  - split; [exact Hres | exact Hcache].
Defined.

(** X16. Development credentials are returned exactly when
    [ENABLE_DEV_AUTH] is ["1"] and the id is one of [DEV_CREDENTIALS];
    they then win over whatever the cache and the table hold, and the
    lookup neither asks the table nor touches the cache. *)
Theorem lookupCredentials_dev_credentials
    (Dev : Type) (cfg : Credentials.Config Dev) (table_down : nat -> bool)
    (id : string) (w : Credentials.World) (v : Dev) :
  (fst (Credentials.lookupCredentials cfg table_down id w)
   = Resolved (Credentials.FromDev v)
   <-> Credentials.is_1 (Credentials.ENABLE_DEV_AUTH cfg) = true
       /\ Credentials.DEV_CREDENTIALS cfg id = Some v)
  /\ (Credentials.is_1 (Credentials.ENABLE_DEV_AUTH cfg) = true ->
      Credentials.DEV_CREDENTIALS cfg id = Some v ->
      Credentials.lookupCredentials cfg table_down id w
      = (Resolved (Credentials.FromDev v), w)).
Proof.
  unfold Credentials.lookupCredentials. split.
  - destruct (Credentials.is_1 (Credentials.ENABLE_DEV_AUTH cfg)).
    + destruct (Credentials.DEV_CREDENTIALS cfg id) as [v'|].
      * cbn [fst]. split; [intros H; injection H as <-; now split|].
        intros [_ H]. injection H as <-. reflexivity.
      * split; [|intros [_ H]; discriminate].
        destruct (_ && _).
        { unfold Credentials.cache_get.
          destruct (Credentials.own_get _ _); [discriminate|].
          destruct (String.eqb id "__proto__"); [|discriminate].
          destruct (Credentials.proto _); discriminate. }
        destruct (table_down _); [discriminate|].
        destruct (Credentials.table w id); discriminate.
    + split; [|intros [H _]; discriminate].
      destruct (_ && _).
      { unfold Credentials.cache_get.
        destruct (Credentials.own_get _ _); [discriminate|].
        destruct (String.eqb id "__proto__"); [|discriminate].
        destruct (Credentials.proto _); discriminate. }
      destruct (table_down _); [discriminate|].
      destruct (Credentials.table w id); discriminate.
  - intros Hon Hdev. now rewrite Hon, Hdev.
Qed.

Lemma lookupCredentials_dev_credentials_witness :
  Credentials.lookupCredentials (CredentialsSample.config true false)
    CredentialsSample.down "devuser"%string
    (CredentialsSample.world (CredentialsSample.one_item "k1"%string))
  = (Resolved (Credentials.FromDev "devkey"%string),
     CredentialsSample.world (CredentialsSample.one_item "k1"%string)).
Proof.
  apply (lookupCredentials_dev_credentials string
           (CredentialsSample.config true false) CredentialsSample.down
           "devuser"%string
           (CredentialsSample.world (CredentialsSample.one_item "k1"%string))
           "devkey"%string); reflexivity.
Defined.

(** X17. With [DISABLE_AUTH_CACHE] set to ["1"] the cache is never read:
    the lookup asks the table even for an id that is cached and returns
    what the table holds now.  The cache is written all the same, the
    entry of the id being replaced by the credentials just read. *)
Theorem lookupCredentials_cache_disabled
    (Dev : Type) (cfg : Credentials.Config Dev) (table_down : nat -> bool)
    (id : string) (w : Credentials.World) (item : Credentials.Item) :
  Credentials.is_1 (Credentials.DISABLE_AUTH_CACHE cfg) = true ->
  (if Credentials.is_1 (Credentials.ENABLE_DEV_AUTH cfg)
   then Credentials.DEV_CREDENTIALS cfg id else None) = None ->
  id <> "__proto__"%string ->
  table_down (List.length (Credentials.gets w)) = false ->
  Credentials.table w id = Some item ->
  let creds :=
    {| Credentials.cred_id := id;
       Credentials.cred_key := Credentials.key item;
       Credentials.cred_algorithm :=
         match Credentials.algorithm item with
         | Some a => a
         | None => Credentials.DEFAULT_HAWK_ALGORITHM cfg
         end |} in
  let r := Credentials.lookupCredentials cfg table_down id w in
  fst r = Resolved (Credentials.Creds creds)
  /\ Credentials.gets (snd r) = Credentials.gets w ++ [id]
  /\ Credentials.own_get (Credentials.credentialsCache (snd r)) id = Some creds.
Proof.
  intros Hoff Hdev Hid Hup Hitem creds r. subst r.
  unfold Credentials.lookupCredentials.
  rewrite Hdev, Hoff. cbn [negb andb]. rewrite Hup, Hitem. fold creds.
  cbn [fst snd Credentials.cached Credentials.asked Credentials.gets
         Credentials.credentialsCache].
  split; [reflexivity|]. split; [reflexivity|].
  now apply CredentialsFacts.own_get_assign_same.
Qed.

Lemma lookupCredentials_cache_disabled_witness :
  let cfg := CredentialsSample.config false true in
  let first :=
    Credentials.lookupCredentials cfg CredentialsSample.up "alice"%string
      (CredentialsSample.world (CredentialsSample.one_item "k1"%string)) in
  let second :=
    Credentials.lookupCredentials cfg CredentialsSample.up "alice"%string
      {| Credentials.credentialsCache := Credentials.credentialsCache (snd first);
         Credentials.table := CredentialsSample.one_item "k2"%string;
         Credentials.gets := Credentials.gets (snd first) |} in
  fst second
  = Resolved (Credentials.Creds
                {| Credentials.cred_id := "alice"%string;
                   Credentials.cred_key := Some "k2"%string;
                   Credentials.cred_algorithm := "sha256"%string |}).
Proof.
  intros cfg first second.
  refine (proj1 (lookupCredentials_cache_disabled string cfg CredentialsSample.up
                   "alice"%string _
                   {| Credentials.key := Some "k2"%string;
                      Credentials.algorithm := None |} _ _ _ _ _));
    try reflexivity.
  discriminate.
Defined.

(** X18. With the cache on, an id that names a property of
    [Object.prototype] (such as ["constructor"]) counts as cached although
    nothing was ever stored under it: the lookup returns the inherited
    property and never asks the table, even when the table holds
    credentials for that id. *)
Theorem lookupCredentials_inherited_name
    (Dev : Type) (cfg : Credentials.Config Dev) (table_down : nat -> bool)
    (id : string) (w : Credentials.World) :
  Credentials.Object_prototype_has cfg id = true ->
  id <> "__proto__"%string ->
  Credentials.is_1 (Credentials.DISABLE_AUTH_CACHE cfg) = false ->
  (if Credentials.is_1 (Credentials.ENABLE_DEV_AUTH cfg)
   then Credentials.DEV_CREDENTIALS cfg id else None) = None ->
  Credentials.own_get (Credentials.credentialsCache w) id = None ->
  Credentials.lookupCredentials cfg table_down id w
  = (Resolved (Credentials.Inherited id), w).
Proof.
  intros Hinh Hid Hon Hdev Hown.
  unfold Credentials.lookupCredentials, Credentials.in_cache, Credentials.cache_get.
  rewrite Hdev, Hon, Hown, Hinh, orb_true_r. cbn [negb andb].
  destruct (String.eqb_spec id "__proto__"); [easy | reflexivity].
Qed.

Lemma lookupCredentials_inherited_name_witness :
  let stored : string -> option Credentials.Item :=
    fun _ => Some {| Credentials.key := Some "k"%string;
                     Credentials.algorithm := None |} in
  Credentials.lookupCredentials (CredentialsSample.config false false)
    CredentialsSample.up "constructor"%string (CredentialsSample.world stored)
  = (Resolved (Credentials.Inherited "constructor"%string),
     CredentialsSample.world stored).
Proof.
  intros stored.
  apply (lookupCredentials_inherited_name string
           (CredentialsSample.config false false) CredentialsSample.up
           "constructor"%string (CredentialsSample.world stored));
    try reflexivity.
  discriminate.
Defined.

(** X19. Whatever ids are looked up, one after the other, from an empty
    cache, every entry of the cache is filed under the id of the
    credentials it holds. *)
Theorem credentialsCache_filed_by_id
    (Dev : Type) (cfg : Credentials.Config Dev) (table_down : nat -> bool)
    (ids : list string) (w : Credentials.World) :
  Credentials.credentialsCache w = Credentials.empty_cache ->
  let w' := Credentials.lookup_all cfg table_down ids w in
  forall (id : string) (creds : Credentials.Credentials),
    Credentials.own_get (Credentials.credentialsCache w') id = Some creds ->
    Credentials.cred_id creds = id.
Proof.
  intros Hempty w'. subst w'.
  assert (Hinit : forall id creds,
             Credentials.own_get (Credentials.credentialsCache w) id = Some creds ->
             Credentials.cred_id creds = id).
  { rewrite Hempty. intros id creds H. discriminate H. }
  clear Hempty. revert w Hinit.
  induction ids as [|id0 ids IH]; intros w Hinv; [exact Hinv|].
  simpl. apply IH. clear IH.
  unfold Credentials.lookupCredentials.
  destruct (if Credentials.is_1 _ then _ else None); [exact Hinv|].
  destruct (_ && _); [exact Hinv|].
  destruct (table_down _); [exact Hinv|].
  destruct (Credentials.table w id0) as [item|]; [|exact Hinv].
  cbn [snd Credentials.cached Credentials.asked Credentials.credentialsCache].
  intros id creds.
  destruct (String.eqb_spec id0 "__proto__"%string) as [Hproto|Hproto].
  - unfold Credentials.assign. rewrite Hproto. cbn [String.eqb Ascii.eqb Bool.eqb].
    apply Hinv.
  - destruct (String.eqb_spec id id0) as [->|Hneq].
    + rewrite CredentialsFacts.own_get_assign_same by exact Hproto.
      intros H. injection H as <-. reflexivity.
    + rewrite CredentialsFacts.own_get_assign_other by exact Hneq. apply Hinv.
Qed.

Lemma credentialsCache_filed_by_id_witness :
  let w' :=
    Credentials.lookup_all (CredentialsSample.config false false)
      CredentialsSample.up ["alice"%string; "bob"%string; "alice"%string]
      (CredentialsSample.world (CredentialsSample.one_item "k1"%string)) in
  exists creds,
    Credentials.own_get (Credentials.credentialsCache w') "alice"%string
    = Some creds
    /\ Credentials.cred_id creds = "alice"%string.
Proof.
  intros w'.
  destruct (Credentials.own_get (Credentials.credentialsCache w') "alice"%string)
    as [creds|] eqn:Hget.
  - exists creds. split; [reflexivity|].
    exact (credentialsCache_filed_by_id string (CredentialsSample.config false false)
             CredentialsSample.up ["alice"%string; "bob"%string; "alice"%string]
             (CredentialsSample.world (CredentialsSample.one_item "k1"%string))
             eq_refl "alice"%string creds Hget).
  - vm_compute in Hget. discriminate Hget.
Defined.


(** * The accept function *)

Module AcceptFacts.
Import Accept.

Lemma added_app (w w' : World) (evs : list (Request * bool)) :
  trace w' = trace w ++ evs -> added w w' = evs.
Proof.
  intros H. unfold added. rewrite H, skipn_app, skipn_all, Nat.sub_diag.
  reflexivity.
Qed.





End AcceptFacts.

(** X20. A response of [post] other than 201 means that nothing was
    stored, enqueued or counted: the trace has no request to S3, SQS or
    the metrics.  The status is 401 exactly when the authentication
    failed, whatever the body is; it is 400 exactly when the request was
    authenticated and its body could not be parsed or lacks a required
    field. *)
Theorem post_touches_nothing_unless_accepted
    (O : Accept.Outside) (env : Accept.EnvVars) (ev : Accept.ApiEvent)
    (w : Accept.World) (resp : Accept.Response) :
  fst (Accept.post O env ev w) = Resolved resp ->
  (Accept.statusCode resp = 401
   <-> exists message, Accept.authenticate O ev = inr message)
  /\ (Accept.statusCode resp = 400
      <-> exists user,
            Accept.authenticate O ev = inl user
            /\ match Accept.parseRequestBody O ev with
               | inr _ => True
               | inl b => Accept.missing_required b <> None
               end)
  /\ (Accept.statusCode resp <> 201 ->
      Accept.service_requests (Accept.added w (snd (Accept.post O env ev w))) = []).
Proof.
  unfold Accept.post.
  destruct (Accept.authenticate O ev) as [user|message].
  2: { cbn [fst snd]. intros H. injection H as <-. cbn [Accept.statusCode Accept.response].
       split; [split; [intros _; now exists message | reflexivity]|].
       split; [split; [discriminate | intros (user & Hu & _); discriminate]|].
       intros _. erewrite AcceptFacts.added_app by reflexivity. reflexivity. }
  destruct (Accept.parseRequestBody O ev) as [b|message].
  2: { cbn [fst snd]. intros H. injection H as <-. cbn [Accept.statusCode Accept.response].
       split; [split; [discriminate | intros (m & Hm); discriminate]|].
       split; [split; [intros _; now exists user | reflexivity]|].
       intros _. erewrite AcceptFacts.added_app by reflexivity. reflexivity. }
  destruct (Accept.missing_required b) as [name|].
  { cbn [fst snd]. intros H. injection H as <-. cbn [Accept.statusCode Accept.response].
    split; [split; [discriminate | intros (m & Hm); discriminate]|].
    split; [split; [intros _; exists user; split; [reflexivity | discriminate]
                   | reflexivity]|].
    intros _. erewrite AcceptFacts.added_app by reflexivity. reflexivity. }
  unfold Accept.store_and_enqueue. cbv zeta.
  repeat match goal with
         | |- context [if negb ?c then _ else _] => destruct c; cbn [negb]
         | |- context [match Accept.getQueueUrl_at ?o ?n ?q with _ => _ end] =>
             destruct (Accept.getQueueUrl_at o n q)
         end;
    cbn [fst snd]; try discriminate.
  intros H. injection H as <-. cbn [Accept.statusCode Accept.response].
  split; [split; [discriminate | intros (m & Hm); discriminate]|].
  split; [split; [discriminate | intros (u & _ & Hb); now elim Hb]|].
  intros Hnot. now elim Hnot.
Qed.

Lemma post_touches_nothing_unless_accepted_witness :
  let run :=
    Accept.post (AcceptSample.outside false AcceptSample.complete 99)
      AcceptSample.env AcceptSample.event Accept.initial in
  Accept.service_requests (Accept.added Accept.initial (snd run)) = [].
Proof.
  intros run.
  refine (proj2 (proj2 (post_touches_nothing_unless_accepted
                          (AcceptSample.outside false AcceptSample.complete 99)
                          AcceptSample.env AcceptSample.event Accept.initial _
                          eq_refl)) _).
  vm_compute. discriminate.
Defined.

Lemma find_first {A} (f : A -> bool) (l : list A) (x : A) :
  find f l = Some x ->
  f x = true
  /\ exists before after,
       l = before ++ x :: after /\ Forall (fun y => f y = false) before.
Proof.
  induction l as [|a l IH]; simpl; [discriminate|].
  destruct (f a) eqn:Hfa.
  - intros H. injection H as <-. split; [exact Hfa|]. now exists [], l.
  - intros H. destruct (IH H) as (Hfx & before & after & -> & Hall).
    split; [exact Hfx|]. exists (a :: before), after. split; [reflexivity|].
    now constructor.
Qed.

(** X21. When an authenticated request lacks required fields, the 400
    response names the first one missing in the order [image],
    [negative_uri], [positive_uri]; a field that is there but empty
    counts as missing.  The refusal is reported to Sentry and nothing
    else is done. *)
Theorem post_names_first_missing_field
    (O : Accept.Outside) (env : Accept.EnvVars) (ev : Accept.ApiEvent)
    (w : Accept.World) (user : string) (b : Accept.Body) (name : string) :
  Accept.authenticate O ev = inl user ->
  Accept.parseRequestBody O ev = inl b ->
  Accept.missing_required b = Some name ->
  Accept.falsy (b name) = true
  /\ (exists before after,
         Accept.REQUIRED_FIELDS = before ++ name :: after
         /\ Forall (fun earlier => Accept.falsy (b earlier) = false) before)
  /\ Accept.post O env ev w
     = (Resolved
          (Accept.response O 400
             (Accept.JObject
                [("error"%string, Accept.JString (Accept.required_message name))])
             []),
        Accept.note
          (Accept.RavenCaptureException (Some (Accept.required_message name)))
          true w).
Proof.
  intros Hauth Hparse Hmissing.
  destruct (find_first _ _ _ Hmissing) as (Hfalsy & Hfirst).
  split; [exact Hfalsy|]. split; [exact Hfirst|].
  unfold Accept.post. now rewrite Hauth, Hparse, Hmissing.
Qed.

Lemma post_names_first_missing_field_witness :
  let O := AcceptSample.outside true AcceptSample.incomplete 99 in
  Accept.statusCode
    (match fst (Accept.post O AcceptSample.env AcceptSample.event Accept.initial) with
     | Resolved resp => resp
     | Rejected _ => Accept.response O 0 Accept.JUndefined []
     end) = 400
  /\ Accept.missing_required AcceptSample.incomplete = Some "image"%string.
Proof.
  intros O.
  destruct (post_names_first_missing_field O AcceptSample.env AcceptSample.event
              Accept.initial "devuser"%string AcceptSample.incomplete
              "image"%string eq_refl eq_refl eq_refl)
    as (_ & _ & Hpost).
  rewrite Hpost. split; reflexivity.
Defined.

Ltac accept_paths :=
  unfold Accept.post, Accept.store_and_enqueue; cbv zeta;
  repeat match goal with
         | |- context [match Accept.authenticate ?o ?e with _ => _ end] =>
             destruct (Accept.authenticate o e)
         | |- context [match Accept.parseRequestBody ?o ?e with _ => _ end] =>
             destruct (Accept.parseRequestBody o e)
         | |- context [match Accept.missing_required ?b with _ => _ end] =>
             destruct (Accept.missing_required b)
         | |- context [if negb ?c then _ else _] => destruct c; cbn [negb]
         | |- context [match Accept.getQueueUrl_at ?o ?n ?q with _ => _ end] =>
             destruct (Accept.getQueueUrl_at o n q)
         end;
  cbn [fst snd];
  erewrite AcceptFacts.added_app
    by (cbn [Accept.trace Accept.note Accept.dated]; rewrite <- ?app_assoc;
        reflexivity);
  cbn [app].

(** X22. On every path of [post], a message is sent to the queue only
    after the image and the request document were stored, and the body of
    the message is the very document stored under
    [image-<requestId>-request.json]; and the metrics are told of a new
    item only after the queue accepted the message. *)
Theorem post_enqueues_what_it_stored
    (O : Accept.Outside) (env : Accept.EnvVars) (ev : Accept.ApiEvent)
    (w : Accept.World) :
  let evs := Accept.added w (snd (Accept.post O env ev w)) in
  (forall earlier later url MessageBody ok,
      evs = earlier ++ (Accept.SqsSendMessage url MessageBody, ok) :: later ->
      In (Accept.S3PutObject (Accept.CONTENT_BUCKET env)
            (Accept.imageKey ev ++ "-request.json")
            (Some "application/json"%string) (Some MessageBody), true) earlier
      /\ exists ContentType Body,
           In (Accept.S3PutObject (Accept.CONTENT_BUCKET env) (Accept.imageKey ev)
                 ContentType Body, true) earlier)
  /\ (forall earlier later consumer_name watchdog_id type ok,
        evs = earlier ++ (Accept.MetricsNewItem consumer_name watchdog_id type, ok)
                           :: later ->
        exists url MessageBody,
          In (Accept.SqsSendMessage url MessageBody, true) earlier).
Proof.
  cbv zeta. accept_paths;
    (split;
     [ intros earlier later url MessageBody ok Hsplit;
       repeat (destruct earlier as [|? earlier]; cbn [app] in Hsplit;
               [ try discriminate Hsplit
               | first [discriminate Hsplit | injection Hsplit as <- Hsplit] ]);
       try discriminate Hsplit;
       injection Hsplit as <- <- <- <-;
       (split; [simpl; auto 10 | eexists _, _; simpl; auto 10])
     | intros earlier later consumer_name watchdog_id type ok Hsplit;
       repeat (destruct earlier as [|? earlier]; cbn [app] in Hsplit;
               [ try discriminate Hsplit
               | first [discriminate Hsplit | injection Hsplit as <- Hsplit] ]);
       try discriminate Hsplit;
       eexists _, _; simpl; auto 10 ]).
Qed.

Lemma post_enqueues_what_it_stored_witness :
  let O := AcceptSample.outside true AcceptSample.complete 99 in
  let evs :=
    Accept.added Accept.initial
      (snd (Accept.post O AcceptSample.env AcceptSample.event Accept.initial)) in
  exists MessageBody,
    In (Accept.S3PutObject "content" "image-8675309-request.json"
          (Some "application/json"%string) (Some MessageBody), true)
       (firstn 3 evs).
Proof.
  intros O evs.
  destruct (post_enqueues_what_it_stored O AcceptSample.env AcceptSample.event
              Accept.initial) as (Hsend & _).
  eexists.
  exact (proj1 (Hsend (firstn 3 evs) (skipn 4 evs) _ _ true eq_refl)).
Defined.

(** X23. For an authenticated request with the required fields, [post]
    makes its five requests in a fixed order: store the image, store the
    request document, look up the queue, send the message, count the
    item.  It answers 201 exactly when all five were accepted; otherwise
    it rejects at the first request refused and makes none of the later
    ones (so that a refusal by the metrics leaves the item stored and
    enqueued, and the client without its 201). *)
Theorem post_follows_plan
    (O : Accept.Outside) (env : Accept.EnvVars) (ev : Accept.ApiEvent)
    (w : Accept.World) (user : string) (b : Accept.Body) :
  Accept.authenticate O ev = inl user ->
  Accept.parseRequestBody O ev = inl b ->
  Accept.missing_required b = None ->
  let run := Accept.post O env ev w in
  let evs := Accept.added w (snd run) in
  let plan := Accept.plan O env ev user b w in
  (fst run = Resolved (Accept.response O 201 (Accept.responseData ev b) [])
   /\ map fst evs = plan
   /\ map snd evs = repeat true 5)
  \/ (fst run = Rejected ServiceError
      /\ exists n : nat,
           (n < 5)%nat
           /\ map fst evs = firstn (S n) plan
           /\ map snd evs = repeat true n ++ [false]).
Proof.
  intros Hauth Hparse Hvalid. cbv zeta.
  unfold Accept.post. rewrite Hauth, Hparse, Hvalid.
  unfold Accept.store_and_enqueue, Accept.plan. cbv zeta.
  cbn [Accept.requests Accept.note Accept.dated Accept.dates].
  destruct (Accept.putObject_at O (Accept.requests w)); cbn [negb].
  2: { right. split; [reflexivity|]. exists 0%nat. split; [lia|].
       erewrite AcceptFacts.added_app
         by (cbn [snd Accept.trace Accept.note Accept.dated]; reflexivity).
       split; reflexivity. }
  destruct (Accept.putObject_at O (S (Accept.requests w))); cbn [negb].
  2: { right. split; [reflexivity|]. exists 1%nat. split; [lia|].
       erewrite AcceptFacts.added_app
         by (cbn [snd Accept.trace Accept.note Accept.dated];
             rewrite <- ?app_assoc; reflexivity).
       split; reflexivity. }
  destruct (Accept.getQueueUrl_at O (S (S (Accept.requests w))) (Accept.QUEUE_NAME env))
    as [url|].
  2: { right. split; [reflexivity|]. exists 2%nat. split; [lia|].
       erewrite AcceptFacts.added_app
         by (cbn [snd Accept.trace Accept.note Accept.dated];
             rewrite <- ?app_assoc; reflexivity).
       split; reflexivity. }
  destruct (Accept.sendMessage_at O (S (S (S (Accept.requests w))))); cbn [negb].
  2: { right. split; [reflexivity|]. exists 3%nat. split; [lia|].
       erewrite AcceptFacts.added_app
         by (cbn [snd Accept.trace Accept.note Accept.dated];
             rewrite <- ?app_assoc; reflexivity).
       split; reflexivity. }
  destruct (Accept.newItem_at O (S (S (S (S (Accept.requests w)))))); cbn [negb].
  2: { right. split; [reflexivity|]. exists 4%nat. split; [lia|].
       erewrite AcceptFacts.added_app
         by (cbn [snd Accept.trace Accept.note Accept.dated];
             rewrite <- ?app_assoc; reflexivity).
       split; reflexivity. }
  left. split; [reflexivity|].
  erewrite AcceptFacts.added_app
    by (cbn [snd Accept.trace Accept.note Accept.dated];
        rewrite <- ?app_assoc; reflexivity).
  split; reflexivity.
Qed.

Lemma post_follows_plan_witness :
  let O := AcceptSample.outside true AcceptSample.complete 4 in
  let run := Accept.post O AcceptSample.env AcceptSample.event Accept.initial in
  fst run = Rejected ServiceError
  /\ map snd (Accept.added Accept.initial (snd run))
     = [true; true; true; true; false].
Proof.
  intros O run.
  destruct (post_follows_plan O AcceptSample.env AcceptSample.event Accept.initial
              "devuser"%string AcceptSample.complete eq_refl eq_refl eq_refl)
    as [(Hok & _) | (Hrej & n & _ & _ & Hflags)].
  - vm_compute in Hok. discriminate.
  - split; [exact Hrej|]. vm_compute. reflexivity.
Defined.


